(** * Relay core of the live-chat server: a shallow embedding

    The development follows the TypeScript sources of the server:
    - the sliding-window rate limiter of [server.ts]
      ([getRateEntry], [pruneEntry], [checkRateLimitKeys], [maintenanceTick]);
    - the token-session validator ([validateTokenSession], [verifyToken]);
    - the websocket gateway ([wss.on('connection')]);
    - the message store of [db.ts] ([addMessage], [getHistory]);
    - the topic bridge of [telegram.ts] ([createTopicForVisitor], [sendToTopic]).

    Conventions.  JavaScript numbers that hold millisecond or second
    timestamps and counters are integers, modelled as [Z].  Strings are
    [string], read as sequences of code units below 256 (the Latin-1 range
    of JavaScript strings); [Map<string, _>] and SQL tables
    with a text primary key are [gmap string _].  The wall clock
    ([Date.now()], [CURRENT_TIMESTAMP]) is an explicit argument of every
    operation that reads it. *)

From Stdlib Require Import ZArith List Bool Ascii String Lia.
From Stdlib Require Import Sorting.Sorted Permutation.
From stdpp Require Import gmap strings list fin_maps sorting.
Import ListNotations.

Local Open Scope Z_scope.
Set Warnings "-register-all".

(** ** Rate limiter *)

Module RateLimiter.

(** The value type of the [rateLimits] map. *)
Record RateEntry := mkEntry {
  short : list Z;
  medium : list Z;
  daily : list Z;
  burstStrikes : Z;
  blockedUntil : Z
}.

Definition RATE_SHORT_MAX : Z := 5.
Definition RATE_SHORT_WINDOW : Z := 10000.
Definition RATE_MEDIUM_MAX : Z := 60.
Definition RATE_MEDIUM_WINDOW : Z := 600000.
Definition RATE_DAILY_MAX : Z := 300.
Definition RATE_DAILY_WINDOW : Z := 86400000.
Definition BURST_COOLDOWN : Z := 60000.
Definition BURST_STRIKE_THRESHOLD : Z := 3.

(** [{ short: [], medium: [], daily: [], burstStrikes: 0, blockedUntil: 0 }] *)
Definition freshEntry : RateEntry := mkEntry [] [] [] 0 0.

(** The entry object a key denotes once [getRateEntry] has run for it. *)
Definition entryOf (rl : gmap string RateEntry) (key : string) : RateEntry :=
  default freshEntry (rl !! key).

(** [getRateEntry(key)]: creates the entry when the key has none. *)
Definition getRateEntry (key : string) (rl : gmap string RateEntry)
  : gmap string RateEntry :=
  match rl !! key with
  | Some _ => rl
  | None => <[key := freshEntry]> rl
  end.

(** [arr.filter((t) => now - t < window)] *)
Definition keepWithin (window now : Z) (l : list Z) : list Z :=
  List.filter (fun t => now - t <? window) l.

(** [pruneEntry(entry, now)] *)
Definition pruneEntry (e : RateEntry) (now : Z) : RateEntry :=
  mkEntry (keepWithin RATE_SHORT_WINDOW now (short e))
          (keepWithin RATE_MEDIUM_WINDOW now (medium e))
          (keepWithin RATE_DAILY_WINDOW now (daily e))
          (burstStrikes e) (blockedUntil e).

Definition len (l : list Z) : Z := Z.of_nat (length l).

(** The body of the short-window branch: one more strike, and at the
    threshold a block and a reset of the counter. *)
Definition strike (e : RateEntry) (now : Z) : RateEntry :=
  let strikes := burstStrikes e + 1 in
  if strikes >=? BURST_STRIKE_THRESHOLD
  then mkEntry (short e) (medium e) (daily e) 0 (now + BURST_COOLDOWN)
  else mkEntry (short e) (medium e) (daily e) strikes (blockedUntil e).

(** [entry.short.push(now); entry.medium.push(now); entry.daily.push(now)] *)
Definition record (e : RateEntry) (now : Z) : RateEntry :=
  mkEntry (short e ++ [now]) (medium e ++ [now]) (daily e ++ [now])
          (burstStrikes e) (blockedUntil e).

(** First loop of [checkRateLimitKeys].  The entries are objects shared with
    the map, so every mutation is written back under the entry's key; a key
    listed twice is therefore seen with the mutations of its first visit. *)
Fixpoint checkLoop (keys : list string) (now : Z) (rl : gmap string RateEntry)
  : bool * gmap string RateEntry :=
  match keys with
  | [] => (true, rl)
  | key :: rest =>
      let e := pruneEntry (entryOf rl key) now in
      if blockedUntil e >? now then (false, <[key := e]> rl)
      else if len (short e) >=? RATE_SHORT_MAX
           then (false, <[key := strike e now]> rl)
      else if len (medium e) >=? RATE_MEDIUM_MAX then (false, <[key := e]> rl)
      else if len (daily e) >=? RATE_DAILY_MAX then (false, <[key := e]> rl)
      else checkLoop rest now (<[key := e]> rl)
  end.

(** Second loop of [checkRateLimitKeys]. *)
Fixpoint recordLoop (keys : list string) (now : Z) (rl : gmap string RateEntry)
  : gmap string RateEntry :=
  match keys with
  | [] => rl
  | key :: rest => recordLoop rest now (<[key := record (entryOf rl key) now]> rl)
  end.

(** [checkRateLimitKeys(keys)] at clock reading [now]. *)
Definition checkRateLimitKeys (keys : list string) (now : Z)
  (rl : gmap string RateEntry) : bool * gmap string RateEntry :=
  let rl0 := foldl (fun m key => getRateEntry key m) rl keys in
  match checkLoop keys now rl0 with
  | (false, rl1) => (false, rl1)
  | (true, rl1) => (true, recordLoop keys now rl1)
  end.

(** The rate-limit part of [maintenanceTick()]: every entry is pruned and
    the empty, unblocked ones are deleted. *)
Definition maintenanceTick (now : Z) (rl : gmap string RateEntry)
  : gmap string RateEntry :=
  omap (fun e =>
          let e' := pruneEntry e now in
          if (length (short e') =? 0)%nat && (length (medium e') =? 0)%nat
             && (length (daily e') =? 0)%nat && (blockedUntil e' <? now)
          then None else Some e') rl.

End RateLimiter.

(** Vocabulary for the statements about the rate limiter. *)

Module RateLimiterSpec.
Import RateLimiter.

(** The three timestamp sequences of an entry. *)
Definition windows (e : RateEntry) : list Z * list Z * list Z :=
  (short e, medium e, daily e).

(** A key passes at [now]: after pruning it is outside a block and each of
    its three windows is below capacity. *)
Definition passes (now : Z) (e : RateEntry) : bool :=
  let e' := pruneEntry e now in
  negb (blockedUntil e' >? now)
  && negb (len (short e') >=? RATE_SHORT_MAX)
  && negb (len (medium e') >=? RATE_MEDIUM_MAX)
  && negb (len (daily e') >=? RATE_DAILY_MAX).

(** The entry with [now] pushed [n] times on each window. *)
Definition recordN (n : nat) (e : RateEntry) (now : Z) : RateEntry :=
  mkEntry (short e ++ replicate n now) (medium e ++ replicate n now)
          (daily e ++ replicate n now) (burstStrikes e) (blockedUntil e).

(** Number of times [key] is listed in [keys]. *)
Definition occurrences (key : string) (keys : list string) : nat :=
  length (List.filter (fun k => bool_decide (k = key)) keys).

(** The short window of the entry is at capacity at [now] and the entry is
    not inside a block: the branch of [checkRateLimitKeys] that counts a
    strike. *)
Definition shortRejected (now : Z) (e : RateEntry) : bool :=
  negb (blockedUntil e >? now)
  && (len (short (pruneEntry e now)) >=? RATE_SHORT_MAX).

(** The call on [keys] reaches [key] (every key listed before it passes) and
    is rejected there because the short window of [key] is at capacity. *)
Fixpoint stopsAtShort (key : string) (keys : list string) (now : Z)
  (rl : gmap string RateEntry) : bool :=
  match keys with
  | [] => false
  | k :: rest =>
      if bool_decide (k = key) then shortRejected now (entryOf rl key)
      else passes now (entryOf rl k) && stopsAtShort key rest now rl
  end.

(** Scheduled and request-triggered operations on the rate-limit table. *)
Inductive Op :=
  | Check (keys : list string) (now : Z)
  | Tick (now : Z).

Definition opTime (op : Op) : Z :=
  match op with Check _ now => now | Tick now => now end.

Definition runOp (rl : gmap string RateEntry) (op : Op) : gmap string RateEntry :=
  match op with
  | Check keys now => snd (checkRateLimitKeys keys now rl)
  | Tick now => maintenanceTick now rl
  end.

Definition runOps (ops : list Op) (rl : gmap string RateEntry)
  : gmap string RateEntry := foldl runOp rl ops.

(** A run of checks, each on its own key list and clock reading, with the
    answers in order. *)
Fixpoint runChecks (calls : list (list string * Z)) (rl : gmap string RateEntry)
  : list bool * gmap string RateEntry :=
  match calls with
  | [] => ([], rl)
  | (keys, now) :: rest =>
      let r := checkRateLimitKeys keys now rl in
      let rs := runChecks rest (snd r) in
      (fst r :: fst rs, snd rs)
  end.

(** The clock readings of the calls that were answered [true]. *)
Fixpoint acceptedTimes (oks : list bool) (times : list Z) : list Z :=
  match oks, times with
  | ok :: oks', t :: times' =>
      if ok then t :: acceptedTimes oks' times' else acceptedTimes oks' times'
  | _, _ => []
  end.

(** [a] lies in the span of [RATE_SHORT_WINDOW] milliseconds that starts at
    [from]. *)
Definition inSpan (from a : Z) : bool :=
  (from <=? a) && (a <? from + RATE_SHORT_WINDOW).

(** No span of [RATE_SHORT_WINDOW] milliseconds holds more than
    [RATE_SHORT_MAX] of the readings. *)
Definition spanBound (readings : list Z) : Prop :=
  ∀ from, len (List.filter (inSpan from) readings) ≤ RATE_SHORT_MAX.

(** A table in which the key ["ip"] has just had five events accepted. *)
Definition fullTable : gmap string RateEntry :=
  snd (runChecks [(["ip"%string], 0); (["ip"%string], 1); (["ip"%string], 2);
                  (["ip"%string], 3); (["ip"%string], 4)] ∅).

End RateLimiterSpec.


(** ** JavaScript values and string primitives *)

Module Js.

(** Values that [JSON.parse] and [jwt.verify] hand to the server.  Numbers
    are the integers they hold in this program (timestamps, ids). *)
Inductive JsVal :=
  | JNull
  | JBool (b : bool)
  | JNum (n : Z)
  | JStr (s : string)
  | JArr (items : list JsVal)
  | JObj (fields : list (string * JsVal)).

(** Lookup of an own property in the field list of an object. *)
Fixpoint field (name : string) (fields : list (string * JsVal)) : option JsVal :=
  match fields with
  | [] => None
  | (k, v) :: rest => if String.eqb k name then Some v else field name rest
  end.

(** [v.name] for a value that is not [null]; [None] is [undefined].
    Property access on [null] throws and is handled by the callers. *)
Definition prop (v : JsVal) (name : string) : option JsVal :=
  match v with
  | JObj fields => field name fields
  | _ => None
  end.

(** [typeof x === 'string'], with the string. *)
Definition asString (x : option JsVal) : option string :=
  match x with Some (JStr s) => Some s | _ => None end.

(** [typeof x === 'number'], with the number. *)
Definition asNumber (x : option JsVal) : option Z :=
  match x with Some (JNum n) => Some n | _ => None end.

(** Truthiness of a [string | null | undefined]. *)
Definition truthy (x : option string) : bool :=
  match x with
  | Some s => negb (String.eqb s "")
  | None => false
  end.

(** [x || null] on a [string | null | undefined]. *)
Definition orNull (x : option string) : option string :=
  if truthy x then x else None.

(** [x || fallback] *)
Definition orElse (x : option string) (fallback : string) : string :=
  match x with
  | Some s => if String.eqb s "" then fallback else s
  | None => fallback
  end.

(** The lower-case form of a code unit below 256: the letters [A] to [Z]
    and the letters U+00C0 to U+00DE other than the sign U+00D7 have one,
    32 places up. *)
Definition lowerChar (c : ascii) : ascii :=
  let n := nat_of_ascii c in
  if (((65 <=? n) && (n <=? 90))
      || ((192 <=? n) && (n <=? 222) && negb (n =? 215)))%nat
  then ascii_of_nat (n + 32) else c.

(** [s.toLowerCase()] *)
Fixpoint toLowerCase (s : string) : string :=
  match s with
  | EmptyString => EmptyString
  | String c rest => String (lowerChar c) (toLowerCase rest)
  end.

(** White space and line terminators among the code units below 256, as
    [trim()] and [\s] take them: tab to carriage return, the space and the
    no-break space U+00A0. *)
Definition isSpace (c : ascii) : bool :=
  let n := nat_of_ascii c in
  ((n =? 32) || ((9 <=? n) && (n <=? 13)) || (n =? 160))%nat.

Fixpoint trimStart (s : string) : string :=
  match s with
  | String c rest => if isSpace c then trimStart rest else s
  | EmptyString => EmptyString
  end.

Fixpoint trimEnd (s : string) : string :=
  match s with
  | EmptyString => EmptyString
  | String c rest =>
      match trimEnd rest with
      | EmptyString => if isSpace c then EmptyString else String c EmptyString
      | kept => String c kept
      end
  end.

(** [s.trim()] *)
Definition trim (s : string) : string := trimEnd (trimStart s).

(** [s.startsWith(p)] *)
Definition startsWith (s p : string) : bool := String.prefix p s.

(** [s.includes(sub)] *)
Fixpoint includes (s sub : string) : bool :=
  String.prefix sub s
  || match s with
     | EmptyString => false
     | String _ rest => includes rest sub
     end.

Definition isLineTerminator (c : ascii) : bool :=
  let n := nat_of_ascii c in ((n =? 10) || (n =? 13))%nat.

Fixpoint hasLineTerminator (s : string) : bool :=
  match s with
  | EmptyString => false
  | String c rest => isLineTerminator c || hasLineTerminator rest
  end.

Fixpoint dropChars (n : nat) (s : string) : string :=
  match n, s with
  | O, _ => s
  | S m, String _ rest => dropChars m rest
  | S _, EmptyString => EmptyString
  end.

(** [s.replace(/^https?:\/\//i, '')] *)
Definition stripScheme (s : string) : string :=
  let low := toLowerCase s in
  if String.prefix "http://" low then dropChars 7 s
  else if String.prefix "https://" low then dropChars 8 s
  else s.

(** [s.replace(/\/.*$/, '')]: the match starts at the first slash that has
    no line terminator after it and runs to the end of the string. *)
Fixpoint stripPath (s : string) : string :=
  match s with
  | EmptyString => EmptyString
  | String c rest =>
      if Ascii.eqb c "/" && negb (hasLineTerminator rest) then EmptyString
      else String c (stripPath rest)
  end.

(** [s.replace(/^\/+/, '')] *)
Fixpoint stripLeadingSlashes (s : string) : string :=
  match s with
  | String c rest => if Ascii.eqb c "/" then stripLeadingSlashes rest else s
  | EmptyString => EmptyString
  end.

(** Decimal digits of a natural number, as a template literal prints it. *)
Fixpoint digitsFuel (fuel : nat) (n : N) (acc : string) : string :=
  match fuel with
  | O => acc
  | S f =>
      let d := ascii_of_N (48 + N.modulo n 10) in
      let acc' := String d acc in
      if (N.div n 10 =? 0)%N then acc' else digitsFuel f (N.div n 10) acc'
  end.

Definition showN (n : N) : string := digitsFuel (S (N.to_nat (N.log2 n))) n "".

(** [`${n}`] for an integer. *)
Definition showZ (z : Z) : string :=
  match z with
  | Z0 => "0"
  | Zpos p => showN (Npos p)
  | Zneg p => String "-" (showN (Npos p))
  end.

End Js.

(** ** Platform and configuration *)

(** What the server takes from its libraries and its environment. *)
Record Platform := mkPlatform {
  (** [new URL(s).host]; [None] when the constructor throws. *)
  url_host : string → option string;
  (** [jwt.verify(token, JWT_SECRET, { algorithms: ['HS256'] })] at a clock
      reading in milliseconds; [None] when it throws. *)
  jwt_verify : string → Z → option Js.JsVal;
  (** [new Date(ms).toISOString()] *)
  toISOString : Z → string;
  (** [JSON.parse(text)]; [None] when it throws. *)
  json_parse : string → option Js.JsVal
}.

Record Config := mkConfig {
  ALLOWED_ORIGINS : list string;
  SITE_NAME : string
}.

(** ** Session validator *)

Module TokenClaims.
(** [TokenClaims], as the guard [isTokenClaims] lets a decoded payload
    through: [sub], [jti] are strings and [exp] a number; the optional claims
    are kept with the strings they hold. *)
Record t := mk {
  sub : string;
  jti : string;
  exp : Z;
  site : option string;
  origin : option string;
  email : option string;
  name : option string;
  anon : option Js.JsVal
}.
End TokenClaims.

Module TokenSessionRecord.
(** A row of the table [token_sessions]. *)
Record t := mk {
  jti : string;
  sub : string;
  site : option string;
  origin_host : option string;
  expires_at : Z;
  revoked_at : option Z;
  created_at : Z;
  last_seen : Z
}.
End TokenSessionRecord.

Module Session.
Import Js.

Section WithPlatform.
Variable pf : Platform.
Variable cfg : Config.

(** [toHost(input)] for an input that is a string or is absent. *)
Definition toHost (input : option string) : option string :=
  match input with
  | None => None
  | Some input =>
      if String.eqb input "" then None else
      let raw := trim input in
      if String.eqb raw "" then None else
      match url_host pf raw with
      | Some host => Some (toLowerCase host)
      | None =>
          let cleaned := toLowerCase (stripPath (stripScheme raw)) in
          if String.eqb cleaned "" then None else Some cleaned
      end
  end.

(** [originHost(origin)] *)
Definition originHost (origin : string) : option string :=
  if String.eqb origin "" then None else
  match url_host pf origin with
  | Some host => Some (toLowerCase host)
  | None => None
  end.

(** [new Set(ALLOWED_ORIGINS.map(toHost).filter(Boolean))] *)
Definition allowedOriginHosts : gset string :=
  list_to_set
    (omap (fun o => orNull (toHost (Some o))) (ALLOWED_ORIGINS cfg)).

(** [isAllowedOrigin(origin)] *)
Definition isAllowedOrigin (origin : string) : bool :=
  match orNull (originHost origin) with
  | Some host => bool_decide (host ∈ allowedOriginHosts)
  | None => false
  end.

(** [tokenSiteHost(siteClaim)] *)
Definition tokenSiteHost (siteClaim : option string) : option string :=
  toHost siteClaim.

(** [isTokenClaims(value)], returning the claims when the guard holds. *)
Definition isTokenClaims (value : JsVal) : option TokenClaims.t :=
  match value with
  | JObj fields =>
      match asString (field "sub" fields), asString (field "jti" fields),
            asNumber (field "exp" fields) with
      | Some sub, Some jti, Some exp =>
          Some (TokenClaims.mk sub jti exp
                  (asString (field "site" fields))
                  (asString (field "origin" fields))
                  (asString (field "email" fields))
                  (asString (field "name" fields))
                  (field "anon" fields))
      | _, _, _ => None
      end
  | _ => None
  end.

(** [getTokenSession(jti)] *)
Definition getTokenSession (jti : string)
  (db : gmap string TokenSessionRecord.t) : option TokenSessionRecord.t :=
  db !! jti.

(** [stmts.insertTokenSession.run(jti, sub, site, origin_host, expires_at)]
    at [CURRENT_TIMESTAMP = now]; the primary key makes the statement throw
    when the token id already has a row. *)
Definition insertTokenSession (jti sub : string) (site origin_host : string)
  (expires_at now : Z) (db : gmap string TokenSessionRecord.t)
  : option (gmap string TokenSessionRecord.t) :=
  match db !! jti with
  | Some _ => None
  | None =>
      Some (<[jti := TokenSessionRecord.mk jti sub (Some site) (Some origin_host)
                       expires_at None now now]> db)
  end.

(** [stmts.touchTokenSession.run(jti)] *)
Definition touchTokenSession (jti : string) (now : Z)
  (db : gmap string TokenSessionRecord.t) : gmap string TokenSessionRecord.t :=
  alter (fun r => TokenSessionRecord.mk
                    (TokenSessionRecord.jti r) (TokenSessionRecord.sub r)
                    (TokenSessionRecord.site r) (TokenSessionRecord.origin_host r)
                    (TokenSessionRecord.expires_at r)
                    (TokenSessionRecord.revoked_at r)
                    (TokenSessionRecord.created_at r) now) jti db.

(** [stmts.revokeTokenSession.run(jti)] *)
Definition revokeTokenSession (jti : string) (now : Z)
  (db : gmap string TokenSessionRecord.t) : gmap string TokenSessionRecord.t :=
  alter (fun r => TokenSessionRecord.mk
                    (TokenSessionRecord.jti r) (TokenSessionRecord.sub r)
                    (TokenSessionRecord.site r) (TokenSessionRecord.origin_host r)
                    (TokenSessionRecord.expires_at r)
                    (Some now)
                    (TokenSessionRecord.created_at r) now) jti db.

(** [stmts.purgeExpiredTokenSessions.run(now)]:
    [DELETE FROM token_sessions WHERE expires_at < ?] *)
Definition purgeExpiredTokenSessions (now : Z)
  (db : gmap string TokenSessionRecord.t) : gmap string TokenSessionRecord.t :=
  filter (fun kv => ¬ (TokenSessionRecord.expires_at (snd kv) < now)) db.

(** [a !== b] on strings *)
Definition differ (a b : string) : bool := negb (String.eqb a b).

(** [validateTokenSession(claims, requestOriginHost)] at [Date.now() = nowMs]. *)
Definition validateTokenSession (claims : TokenClaims.t)
  (requestOriginHost : string) (nowMs : Z)
  (db : gmap string TokenSessionRecord.t)
  : bool * gmap string TokenSessionRecord.t :=
  let now := nowMs / 1000 in
  let jti := trim (TokenClaims.jti claims) in
  let sub := trim (TokenClaims.sub claims) in
  let exp := TokenClaims.exp claims in
  if String.eqb jti "" || String.eqb sub "" || (exp <=? now) then (false, db) else
  let claimOriginHost := toHost (TokenClaims.origin claims) in
  let claimSite := tokenSiteHost (TokenClaims.site claims) in
  if truthy claimOriginHost && differ (orElse claimOriginHost "") requestOriginHost
  then (false, db) else
  if truthy claimSite && differ (orElse claimSite "") requestOriginHost
  then (false, db) else
  match getTokenSession jti db with
  | None =>
      match insertTokenSession jti sub (orElse claimSite requestOriginHost)
              requestOriginHost exp now db with
      | Some db' => (true, db')
      | None => (false, db)
      end
  | Some existing =>
      if bool_decide (is_Some (TokenSessionRecord.revoked_at existing))
      then (false, db) else
      if differ (TokenSessionRecord.sub existing) sub then (false, db) else
      if TokenSessionRecord.expires_at existing <? now then (false, db) else
      if truthy (TokenSessionRecord.origin_host existing)
         && differ (orElse (TokenSessionRecord.origin_host existing) "")
                   requestOriginHost
      then (false, db) else
      if truthy (TokenSessionRecord.site existing) && truthy claimSite
         && differ (orElse (TokenSessionRecord.site existing) "")
                   (orElse claimSite "")
      then (false, db) else
      (true, touchTokenSession jti now db)
  end.

(** [verifyToken(token, origin)] at [Date.now() = nowMs]. *)
Definition verifyToken (token origin : string) (nowMs : Z)
  (db : gmap string TokenSessionRecord.t)
  : option TokenClaims.t * gmap string TokenSessionRecord.t :=
  if String.eqb token "" then (None, db) else
  match orNull (originHost origin) with
  | None => (None, db)
  | Some requestOriginHost =>
      if negb (bool_decide (requestOriginHost ∈ allowedOriginHosts))
      then (None, db) else
      match jwt_verify pf token nowMs with
      | None => (None, db)
      | Some decoded =>
          match isTokenClaims decoded with
          | None => (None, db)
          | Some claims =>
              match validateTokenSession claims requestOriginHost nowMs db with
              | (false, db') => (None, db')
              | (true, db') => (Some claims, db')
              end
          end
      end
  end.

(** What happens to the table [token_sessions]: requests that verify a
    token, the revocation statement, and the purge of the maintenance tick. *)
Inductive Event :=
  | Verify (token origin : string) (nowMs : Z)
  | Revoke (jti : string) (nowMs : Z)
  | Purge (nowMs : Z).

Definition step (db : gmap string TokenSessionRecord.t) (ev : Event)
  : gmap string TokenSessionRecord.t :=
  match ev with
  | Verify token origin nowMs => snd (verifyToken token origin nowMs db)
  | Revoke jti nowMs => revokeTokenSession jti (nowMs / 1000) db
  | Purge nowMs => purgeExpiredTokenSessions (nowMs / 1000) db
  end.

Definition run (evs : list Event) (db : gmap string TokenSessionRecord.t)
  : gmap string TokenSessionRecord.t := foldl step db evs.

(** No purge of the run happens after the second [expiry]. *)
Definition purgesBy (expiry : Z) (evs : list Event) : bool :=
  forallb (fun ev => match ev with
                     | Purge nowMs => nowMs / 1000 <=? expiry
                     | _ => true
                     end) evs.


End WithPlatform.
End Session.

(** Vocabulary for the statements about the session validator. *)

Module SessionSpec.


Definition revoked (jti : string) (db : gmap string TokenSessionRecord.t) : Prop :=
  ∃ row, db !! jti = Some row ∧ is_Some (TokenSessionRecord.revoked_at row).

End SessionSpec.

(** ** Storage: visitors, messages, settings *)

Module Db.
Import Js.

Inductive VisitorAuthType := authenticated | anonymous.

(** A row of the table [visitors]. *)
Record VisitorRecord := mkVisitor {
  id : string;
  name : option string;
  site : option string;
  email : option string;
  auth_type : VisitorAuthType;
  telegram_topic_id : option Z;
  created_at : Z;
  last_seen : Z
}.

(** SQL [COALESCE(a, b)] *)
Definition coalesce {A} (a b : option A) : option A :=
  match a with Some _ => a | None => b end.

(** [stmts.upsertVisitor.run(id, name, site, email, auth_type)] at
    [CURRENT_TIMESTAMP = now]. *)
Definition upsertVisitor (id : string) (name site email : option string)
  (auth_type : VisitorAuthType) (now : Z)
  (visitors : gmap string VisitorRecord) : gmap string VisitorRecord :=
  match visitors !! id with
  | None => <[id := mkVisitor id name site email auth_type None now now]> visitors
  | Some old =>
      <[id := mkVisitor id (coalesce name (Db.name old))
                (coalesce site (Db.site old))
                (coalesce email (Db.email old))
                auth_type
                (telegram_topic_id old) (created_at old) now]> visitors
  end.

(** [getVisitor(visitorId)] *)
Definition getVisitor (visitorId : string)
  (visitors : gmap string VisitorRecord) : option VisitorRecord :=
  visitors !! visitorId.

(** [stmts.setTopicId.run(topicId, visitorId)] *)
Definition setTopicId (topicId : option Z) (visitorId : string)
  (visitors : gmap string VisitorRecord) : gmap string VisitorRecord :=
  alter (fun v => mkVisitor (id v) (name v) (site v) (email v) (auth_type v)
                    topicId (created_at v) (last_seen v)) visitorId visitors.

(** [stmts.getVisitorCount.get().count] *)
Definition getVisitorCount (visitors : gmap string VisitorRecord) : Z :=
  Z.of_nat (size visitors).

Inductive Sender := visitor | agent.
Inductive MessageType := text | image | file.

(** A row of the table [messages]; [created_at] is the second the row was
    inserted at ([DEFAULT CURRENT_TIMESTAMP]). *)
Record ChatMessage := mkMessage {
  msg_id : Z;
  visitor_id : string;
  sender : Sender;
  content : string;
  type : MessageType;
  file_url : option string;
  msg_created_at : Z
}.

(** The id [AUTOINCREMENT] gives the next row: one more than the largest id
    of the table, which only ever receives inserts. *)
Definition nextId (messages : list ChatMessage) : Z :=
  1 + fold_right (fun m acc => Z.max (msg_id m) acc) 0 messages.

(** [stmts.addMessage.run(visitor_id, sender, content, type, file_url)] at
    [CURRENT_TIMESTAMP = now]: the table with the new row last, and
    [lastInsertRowid]. *)
Definition addMessage (visitor_id : string) (sender : Sender) (content : string)
  (type : MessageType) (file_url : option string) (now : Z)
  (messages : list ChatMessage) : list ChatMessage * Z :=
  let rowid := nextId messages in
  (messages ++ [mkMessage rowid visitor_id sender content type file_url now], rowid).

(** [ORDER BY created_at ASC] over rows taken in table order.  The statement
    names no second sort key, so the order among rows with the same
    [created_at] is the engine's choice: [tieBreak m x] tells whether it
    returns [m] before [x], for a row [m] that precedes [x] in the table.
    The rows that follow [m] in the table are already sorted; [m] goes
    before the first of them that is younger than it, or of the same second
    and after it by [tieBreak].  Every arrangement of the rows that is
    ascending in [created_at] is obtained for some [tieBreak]. *)
Fixpoint insertByCreatedAt (tieBreak : ChatMessage → ChatMessage → bool)
  (m : ChatMessage) (sorted : list ChatMessage) : list ChatMessage :=
  match sorted with
  | [] => [m]
  | x :: rest =>
      if (msg_created_at m <? msg_created_at x)
         || ((msg_created_at m =? msg_created_at x) && tieBreak m x)
      then m :: x :: rest
      else x :: insertByCreatedAt tieBreak m rest
  end.

Definition orderByCreatedAt (tieBreak : ChatMessage → ChatMessage → bool)
  (rows : list ChatMessage) : list ChatMessage :=
  fold_right (insertByCreatedAt tieBreak) [] rows.

(** [stmts.getHistory.all(visitorId)]:
    [SELECT * FROM messages WHERE visitor_id = ? ORDER BY created_at ASC] *)
Definition getHistory (tieBreak : ChatMessage → ChatMessage → bool)
  (visitorId : string) (messages : list ChatMessage) : list ChatMessage :=
  orderByCreatedAt tieBreak
    (List.filter (fun m => String.eqb (visitor_id m) visitorId) messages).

Definition SUPPORT_PRESENCE_SETTING_KEY : string := "support_presence_state".

Inductive SupportPresenceState := online | offline.

(** [getSupportPresenceState()] over the table [settings]. *)
Definition getSupportPresenceState (settings : gmap string string)
  : SupportPresenceState :=
  match settings !! SUPPORT_PRESENCE_SETTING_KEY with
  | None => online
  | Some value =>
      let value := toLowerCase (trim value) in
      if String.eqb value "offline" then offline else online
  end.

End Db.

(** Vocabulary for the statements about the message store. *)

Module DbSpec.
Import Db.

(** The arguments of one [stmts.addMessage.run] and the second it ran at. *)
Record Insert := mkInsert {
  ins_visitor : string;
  ins_sender : Sender;
  ins_content : string;
  ins_type : MessageType;
  ins_file_url : option string;
  ins_now : Z
}.

Definition insertOne (messages : list ChatMessage) (i : Insert) : list ChatMessage :=
  fst (addMessage (ins_visitor i) (ins_sender i) (ins_content i) (ins_type i)
         (ins_file_url i) (ins_now i) messages).

(** The table [messages] after a run of inserts into the empty table. *)
Definition insertAll (inserts : list Insert) : list ChatMessage :=
  foldl insertOne [] inserts.

(** The rows of a visitor, in table order. *)
Definition rowsOf (visitorId : string) (messages : list ChatMessage)
  : list ChatMessage :=
  List.filter (fun m => String.eqb (visitor_id m) visitorId) messages.

Definition notYounger (a b : ChatMessage) : Prop :=
  msg_created_at a ≤ msg_created_at b.

Definition idBelow (a b : ChatMessage) : Prop := msg_id a < msg_id b.

(** Acceptance order between rows that were not created in the same second. *)
Definition idBelowOrSameSecond (a b : ChatMessage) : Prop :=
  msg_created_at a = msg_created_at b ∨ msg_id a < msg_id b.

(** [a] is returned before [b] by [ORDER BY created_at ASC] with the
    engine's [tieBreak]. *)
Definition goesFirst (tieBreak : ChatMessage → ChatMessage → bool)
  (a b : ChatMessage) : Prop :=
  msg_created_at a < msg_created_at b
  ∨ (msg_created_at a = msg_created_at b ∧ tieBreak a b = true).

(** The place of the id [i] in [ids], the length of [ids] when it is not
    there. *)
Fixpoint rankOf (ids : list Z) (i : Z) : nat :=
  match ids with
  | [] => 0
  | x :: rest => if x =? i then 0 else S (rankOf rest i)
  end.

(** The engine that orders rows of the same second as [target] has them. *)
Definition tieBreakOf (target : list ChatMessage) (a b : ChatMessage) : bool :=
  (rankOf (map msg_id target) (msg_id a) <? rankOf (map msg_id target) (msg_id b))%nat.

(** [a] comes before [b] in [target], for rows of [target]. *)
Definition before (target : list ChatMessage) (a b : ChatMessage) : Prop :=
  (rankOf (map msg_id target) (msg_id a) < rankOf (map msg_id target) (msg_id b))%nat.

(** An engine that returns rows of the same second in table order. *)
Definition tiesInTableOrder (a b : ChatMessage) : bool := true.

End DbSpec.

(** ** Connection gateway *)

Module Gateway.
Import Js.

Definition MAX_MESSAGE_LENGTH : Z := 2000.
Definition AUTH_TIMEOUT : Z := 5000.
Definition TYPING_THROTTLE : Z := 5000.

(** The state the handlers of all connections share. *)
Record World := mkWorld {
  tokenSessions : gmap string TokenSessionRecord.t;
  visitors : gmap string Db.VisitorRecord;
  messages : list Db.ChatMessage;
  settings : gmap string string;
  rateLimits : gmap string RateLimiter.RateEntry;
  (** [clients]: visitor id to its sockets, in order of insertion *)
  clients : gmap string (list nat);
  typingThrottle : gmap string Z;
  (** the sockets whose [readyState] is [OPEN] *)
  openSockets : gset nat
}.

(** What a handler does to the outside. *)
Inductive Effect :=
  | WsSend (ws : nat) (payload : JsVal)
  | WsClose (ws : nat) (code : Z) (reason : string)
  | ConsoleError (message : string)
  | SendTypingToTopic (visitorId : string)
  | SendToTopic (visitorId content : string) (type : Db.MessageType)
                (siteName : string) (fileUrl : option string).

(** The variables of one [wss.on('connection')] closure. *)
Record Conn := mkConn {
  ws : nat;
  origin : string;
  ip : string;
  visitorId : option string;
  claims : option TokenClaims.t;
  rlKeys : list string;
  authenticated : bool;
  (** [authTimeout]: when it is due, and whether it is still scheduled *)
  authDeadline : Z;
  authTimeoutPending : bool
}.

Section WithPlatform.
Variable pf : Platform.
Variable cfg : Config.

(** [siteFromClaims(claims, fallback)] *)
Definition siteFromClaims (claims : TokenClaims.t) (fallback : string) : string :=
  orElse (Session.tokenSiteHost pf (TokenClaims.site claims)) fallback.

(** [isAnonClaims(claims)] *)
Definition isAnonClaims (claims : TokenClaims.t) : bool :=
  match TokenClaims.anon claims with
  | Some (JBool true) => true
  | _ => startsWith (TokenClaims.sub claims) "anon-"
  end.

(** [authTypeFromClaims(claims)] *)
Definition authTypeFromClaims (claims : TokenClaims.t) : Db.VisitorAuthType :=
  if isAnonClaims claims then Db.anonymous else Db.authenticated.

(** [rateLimitKeys(claims, ip)] *)
Definition rateLimitKeys (claims : TokenClaims.t) (ip : string) : list string :=
  let site := siteFromClaims claims "unknown" in
  let cleanIp := toLowerCase (if String.eqb ip "" then "unknown" else ip) in
  if isAnonClaims claims
  then ["site:" +:+ site +:+ ":ip:" +:+ cleanIp]
  else
    let sub := if String.eqb (TokenClaims.sub claims) "" then "unknown"
               else TokenClaims.sub claims in
    ["site:" +:+ site +:+ ":user:" +:+ sub;
     "site:" +:+ site +:+ ":ip:" +:+ cleanIp].

Definition presenceName (state : Db.SupportPresenceState) : string :=
  match state with Db.online => "online" | Db.offline => "offline" end.

(** [buildSupportPresencePayload()] at [Date.now() = nowMs]. *)
Definition buildSupportPresencePayload (w : World) (nowMs : Z) : JsVal :=
  JObj [("state", JStr (presenceName (Db.getSupportPresenceState (settings w))));
        ("updatedAt", JStr (toISOString pf nowMs))].

Definition senderName (s : Db.Sender) : string :=
  match s with Db.visitor => "visitor" | Db.agent => "agent" end.

Definition typeName (t : Db.MessageType) : string :=
  match t with Db.text => "text" | Db.image => "image" | Db.file => "file" end.

(** The [ChatMessage] object the server sends out. *)
Definition chatMessageJson (id : Z) (visitorId : string) (sender : Db.Sender)
  (content : string) (type : Db.MessageType) (fileUrl : option string)
  (nowMs : Z) : JsVal :=
  JObj [("id", JNum id); ("visitor_id", JStr visitorId);
        ("sender", JStr (senderName sender)); ("content", JStr content);
        ("type", JStr (typeName type));
        ("file_url", match fileUrl with Some u => JStr u | None => JNull end);
        ("created_at", JStr (toISOString pf nowMs))].

(** [broadcastToVisitor(visitorId, message)]: one send for each socket of
    the visitor that is open. *)
Definition broadcastToVisitor (visitorId : string) (message : JsVal) (w : World)
  : list Effect :=
  match clients w !! visitorId with
  | None => []
  | Some sockets =>
      map (fun s => WsSend s message)
          (List.filter (fun s => bool_decide (s ∈ openSockets w)) sockets)
  end.

(** [set.add(ws)] on a set kept in insertion order. *)
Definition setAdd (s : nat) (sockets : list nat) : list nat :=
  if bool_decide (s ∈ sockets) then sockets else sockets ++ [s].

(** [set.delete(ws)] *)
Definition setDelete (s : nat) (sockets : list nat) : list nat :=
  List.filter (fun x => negb (Nat.eqb x s)) sockets.

(** [ws.close(code, reason)]: the socket leaves the state [OPEN]. *)
Definition closeSocket (s : nat) (w : World) : World :=
  mkWorld (tokenSessions w) (visitors w) (messages w) (settings w)
          (rateLimits w) (clients w) (typingThrottle w) (openSockets w ∖ {[s]}).

(** [wss.on('connection', (ws, req) => ...)] up to the registration of the
    handlers, at [Date.now() = nowMs]. *)
Definition onConnection (s : nat) (origin ip : string) (nowMs : Z) : Conn :=
  mkConn s origin ip None None [] false (nowMs + AUTH_TIMEOUT) true.

(** The callback of [authTimeout]. *)
Definition onAuthTimeout (c : Conn) (w : World) : Conn * World * list Effect :=
  let c' := mkConn (ws c) (origin c) (ip c) (visitorId c) (claims c) (rlKeys c)
                   (authenticated c) (authDeadline c) false in
  if negb (authenticated c)
  then (c', closeSocket (ws c) w, [WsClose (ws c) 4001 "Authentication required"])
  else (c', w, []).

(** The branch [if (!authenticated)] of the message handler. *)
Definition handleAuth (c : Conn) (w : World) (msg : JsVal) (nowMs : Z)
  : Conn * World * list Effect :=
  let reject w' :=
    (c, closeSocket (ws c) w', [WsClose (ws c) 4001 "Authentication required"]) in
  match asString (prop msg "type"), asString (prop msg "token") with
  | Some type, Some token =>
      if negb (String.eqb type "auth") then reject w else
      match Session.verifyToken pf cfg token (origin c) nowMs (tokenSessions w) with
      | (None, db) =>
          reject (mkWorld db (visitors w) (messages w) (settings w)
                    (rateLimits w) (clients w) (typingThrottle w) (openSockets w))
      | (Some verified, db) =>
          (mkConn (ws c) (origin c) (ip c) (visitorId c) (Some verified)
                  (rateLimitKeys verified (ip c)) true (authDeadline c) false,
           mkWorld db (visitors w) (messages w) (settings w)
                   (rateLimits w) (clients w) (typingThrottle w) (openSockets w),
           [WsSend (ws c) (JObj [("type", JStr "auth_ok")])])
      end
  | _, _ => reject w
  end.

(** The branch [if (msg.type === 'init')]. *)
Definition handleInit (c : Conn) (w : World) (verified : TokenClaims.t) (nowMs : Z)
  : Conn * World * list Effect :=
  let visitorId := TokenClaims.sub verified in
  let name := orNull (TokenClaims.name verified) in
  let email := orNull (TokenClaims.email verified) in
  let site := siteFromClaims verified (SITE_NAME cfg) in
  let visitors' :=
    Db.upsertVisitor visitorId name (Some site) email
      (authTypeFromClaims verified) (nowMs / 1000) (visitors w) in
  let sockets := default [] (clients w !! visitorId) in
  let clients' := <[visitorId := setAdd (ws c) sockets]> (clients w) in
  let w' := mkWorld (tokenSessions w) visitors' (messages w) (settings w)
                    (rateLimits w) clients' (typingThrottle w) (openSockets w) in
  (mkConn (ws c) (origin c) (ip c) (Some visitorId) (claims c) (rlKeys c)
          (authenticated c) (authDeadline c) (authTimeoutPending c),
   w',
   [WsSend (ws c) (JObj [("type", JStr "init"); ("visitorId", JStr visitorId)]);
    WsSend (ws c) (JObj [("type", JStr "presence");
                         ("presence", buildSupportPresencePayload w' nowMs)])]).

(** The branch [if (msg.type === 'typing' && visitorId)]. *)
Definition handleTyping (c : Conn) (w : World) (visitorId : string) (nowMs : Z)
  : Conn * World * list Effect :=
  let last := default 0 (typingThrottle w !! visitorId) in
  if nowMs - last >? TYPING_THROTTLE
  then (c,
        mkWorld (tokenSessions w) (visitors w) (messages w) (settings w)
                (rateLimits w) (clients w)
                (<[visitorId := nowMs]> (typingThrottle w)) (openSockets w),
        [SendTypingToTopic visitorId])
  else (c, w, []).

(** The branch [if (msg.type === 'message' && visitorId)]. *)
Definition handleUserMessage (c : Conn) (w : World) (visitorId : string)
  (msg : JsVal) (nowMs : Z) : Conn * World * list Effect :=
  let invalid :=
    (c, w, [WsSend (ws c) (JObj [("type", JStr "error");
              ("message", JStr "Invalid message length (1-2000 chars)")])]) in
  match asString (prop msg "content") with
  | None => invalid
  | Some content =>
      let n := Z.of_nat (String.length content) in
      if (n =? 0) || (n >? MAX_MESSAGE_LENGTH) then invalid else
      match RateLimiter.checkRateLimitKeys (rlKeys c) nowMs (rateLimits w) with
      | (false, rl) =>
          (c,
           mkWorld (tokenSessions w) (visitors w) (messages w) (settings w)
                   rl (clients w) (typingThrottle w) (openSockets w),
           [WsSend (ws c) (JObj [("type", JStr "error");
              ("message", JStr "Too many messages, slow down")])])
      | (true, rl) =>
          let '(messages', rowid) :=
            Db.addMessage visitorId Db.visitor content Db.text None
              (nowMs / 1000) (messages w) in
          let w' := mkWorld (tokenSessions w) (visitors w) messages' (settings w)
                            rl (clients w) (typingThrottle w) (openSockets w) in
          let outMsg := chatMessageJson rowid visitorId Db.visitor content
                          Db.text None nowMs in
          let site :=
            match Db.getVisitor visitorId (visitors w) with
            | Some v => orElse (Db.site v) (SITE_NAME cfg)
            | None => SITE_NAME cfg
            end in
          (c, w',
           broadcastToVisitor visitorId
             (JObj [("type", JStr "message"); ("message", outMsg)]) w'
           ++ [SendToTopic visitorId content Db.text site None])
      end
  end.

(** The body of the message handler once [msg] is parsed and is not
    [null]. *)
Definition dispatch (c : Conn) (w : World) (msg : JsVal) (nowMs : Z)
  : Conn * World * list Effect :=
  if negb (authenticated c) then handleAuth c w msg nowMs else
  match claims c with
  | None =>
      (c, closeSocket (ws c) w, [WsClose (ws c) 4001 "Authentication required"])
  | Some verified =>
      let type := asString (prop msg "type") in
      if bool_decide (type = Some "init") then handleInit c w verified nowMs
      else
        match visitorId c with
        | Some (String ch rest as visitorId) =>
            if bool_decide (type = Some "typing")
            then handleTyping c w visitorId nowMs
            else if bool_decide (type = Some "message")
            then handleUserMessage c w visitorId msg nowMs
            else (c, w, [])
        | _ => (c, w, [])
        end
  end.

(** [ws.on('message', (raw) => ...)] at [Date.now() = nowMs].  An exception
    (of [JSON.parse], or of the access [msg.type] on [null]) is caught and
    logged. *)
Definition onMessage (c : Conn) (w : World) (raw : string) (nowMs : Z)
  : Conn * World * list Effect :=
  match json_parse pf raw with
  | None => (c, w, [ConsoleError "[WS] Error:"])
  | Some msg =>
      match msg with
      | JNull => (c, w, [ConsoleError "[WS] Error:"])
      | _ => dispatch c w msg nowMs
      end
  end.

(** [ws.on('close', () => ...)] *)
Definition onClose (c : Conn) (w : World) : Conn * World :=
  let c' := mkConn (ws c) (origin c) (ip c) (visitorId c) (claims c) (rlKeys c)
                   (authenticated c) (authDeadline c) false in
  let w0 := closeSocket (ws c) w in
  match visitorId c with
  | Some (String ch rest as visitorId) =>
      match clients w0 !! visitorId with
      | None => (c', w0)
      | Some sockets =>
          let sockets' := setDelete (ws c) sockets in
          let clients' :=
            match sockets' with
            | [] => delete visitorId (clients w0)
            | _ => <[visitorId := sockets']> (clients w0)
            end in
          (c', mkWorld (tokenSessions w0) (visitors w0) (messages w0) (settings w0)
                       (rateLimits w0) clients' (typingThrottle w0) (openSockets w0))
      end
  | _ => (c', w0)
  end.

(** What the event loop delivers to one connection. *)
Inductive WsEvent :=
  | Frame (raw : string)
  | TimerDue
  | Closed.

(** Delivery of an event at [Date.now() = nowMs].  The timer callback runs
    only while [authTimeout] is scheduled and once it is due. *)
Definition deliver (c : Conn) (w : World) (ev : WsEvent) (nowMs : Z)
  : Conn * World * list Effect :=
  match ev with
  | Frame raw => onMessage c w raw nowMs
  | TimerDue =>
      if authTimeoutPending c && (authDeadline c <=? nowMs)
      then onAuthTimeout c w else (c, w, [])
  | Closed => let '(c', w') := onClose c w in (c', w', [])
  end.

(** A run of events, each with its clock reading; the effects in order. *)
Fixpoint deliverAll (c : Conn) (w : World) (evs : list (WsEvent * Z))
  : Conn * World * list Effect :=
  match evs with
  | [] => (c, w, [])
  | (ev, nowMs) :: rest =>
      let '(c1, w1, out1) := deliver c w ev nowMs in
      let '(c2, w2, out2) := deliverAll c1 w1 rest in
      (c2, w2, out1 ++ out2)
  end.

End WithPlatform.
End Gateway.

(** ** HTTP surface: authentication and history *)

Module Http.
Import Js.

Inductive Response :=
  | History (messages : list Db.ChatMessage)
  | Failure (status : Z) (error : string).

Section WithPlatform.
Variable pf : Platform.
Variable cfg : Config.

(** [authHeader.replace(/^Bearer\s+/i, '')] *)
Definition stripBearer (authHeader : string) : string :=
  if String.prefix "bearer" (toLowerCase authHeader)
  then
    match dropChars 6 authHeader with
    | String c rest => if isSpace c then trimStart rest else authHeader
    | EmptyString => authHeader
    end
  else authHeader.

(** [requireAuth]: the claims put on the request, or the 401. *)
Definition requireAuth (authorization origin : string) (nowMs : Z)
  (db : gmap string TokenSessionRecord.t)
  : option TokenClaims.t * gmap string TokenSessionRecord.t :=
  Session.verifyToken pf cfg (stripBearer authorization) origin nowMs db.

(** [resolveVisitorId(req, requestedVisitorId)] for a path parameter. *)
Definition resolveVisitorId (claims : TokenClaims.t) (requestedVisitorId : string)
  : string + (string * Z) :=
  let sub := TokenClaims.sub claims in
  if String.eqb sub "" then inr ("Invalid token subject", 401) else
  if String.eqb requestedVisitorId "" then inr ("Invalid visitor id", 400) else
  if negb (String.eqb requestedVisitorId sub)
  then inr ("Forbidden visitor access", 403)
  else inl sub.

(** [GET /api/chat/:visitorId/history]; [tieBreak] is the database engine's
    order among rows of the same second (see [Db.insertByCreatedAt]). *)
Definition getHistoryRoute (tieBreak : Db.ChatMessage → Db.ChatMessage → bool)
  (authorization origin visitorIdParam : string)
  (nowMs : Z) (db : gmap string TokenSessionRecord.t)
  (messages : list Db.ChatMessage)
  : Response * gmap string TokenSessionRecord.t :=
  match requireAuth authorization origin nowMs db with
  | (None, db') => (Failure 401 "Valid authentication required", db')
  | (Some claims, db') =>
      match resolveVisitorId claims visitorIdParam with
      | inr (error, status) => (Failure status error, db')
      | inl visitorId => (History (Db.getHistory tieBreak visitorId messages), db')
      end
  end.

End WithPlatform.
End Http.

(** ** Topic bridge *)

Module Telegram.
Import Js.

(** Calls of the bot API the bridge makes. *)
Inductive BotCall :=
  | CreateForumTopic (chatId : Z) (name : string)
  | SendMessage (chatId : Z) (text : string) (message_thread_id : Z)
  | SendPhoto (chatId : Z) (photo : string) (message_thread_id : Z)
              (caption : option string)
  | SendDocument (chatId : Z) (doc : string) (message_thread_id : Z)
  | SendChatAction (chatId : Z) (action : string) (message_thread_id : Z).

(** How an awaited call ends. *)
Inductive BotResult :=
  | Resolved (value : JsVal)
  | Rejected (error : JsVal).

(** The remote platform and the file system, as the bridge meets them. *)
Record BotEnv := mkBotEnv {
  (** the answer to a call, given the calls made before it *)
  respond : list BotCall → BotCall → BotResult;
  PUBLIC_DIR : string;
  path_sep : string;
  (** [path.join(a, b)] *)
  path_join : string → string → string;
  (** [path.normalize(p)], which is also [path.join(p)] *)
  path_normalize : string → string;
  fs_existsSync : string → bool
}.

(** The module state of the bridge together with what it reads and writes. *)
Record Bridge := mkBridge {
  (** [bot] is not [null] *)
  bot : bool;
  groupId : option Z;
  visitors : gmap string Db.VisitorRecord;
  (** the calls made so far, oldest first *)
  calls : list BotCall;
  (** what [console.error] has printed: the label and the error *)
  errors : list (string * JsVal)
}.

Section WithEnv.
Variable env : BotEnv.

(** Truthiness of a [number | null]. *)
Definition truthyNum (x : option Z) : option Z :=
  match x with
  | Some n => if n =? 0 then None else Some n
  | None => None
  end.

(** [new Error(message)] *)
Definition mkError (message : string) : JsVal := JObj [("message", JStr message)].

(** [resolvePublicFilePath(fileUrl)] *)
Definition resolvePublicFilePath (fileUrl : option string) : option string :=
  match fileUrl with
  | None => None
  | Some fileUrl =>
      if String.eqb fileUrl "" then None else
      let relative := stripLeadingSlashes fileUrl in
      if includes relative ".." then None else
      let filePath := path_join env (PUBLIC_DIR env) relative in
      let normalizedBase := path_normalize env (PUBLIC_DIR env) +:+ path_sep env in
      let normalizedPath := path_normalize env filePath in
      if negb (startsWith normalizedPath normalizedBase) then None
      else Some normalizedPath
  end.

(** [requireMediaFilePath(fileUrl)]: the path, or the error it throws. *)
Definition requireMediaFilePath (fileUrl : string) : JsVal + string :=
  match resolvePublicFilePath (Some fileUrl) with
  | None => inl (mkError "Invalid media path")
  | Some filePath =>
      if negb (fs_existsSync env filePath)
      then inl (mkError "Media file not found on disk")
      else inr filePath
  end.

(** [isMissingThreadError(error)] *)
Definition isMissingThreadError (error : JsVal) : bool :=
  match error with
  | JObj fields =>
      match field "message" fields with
      | Some (JStr message) =>
          includes (toLowerCase message) "message thread not found"
      | _ => false
      end
  | _ => false
  end.

(** [clearVisitorTopic(visitorId)] *)
Definition clearVisitorTopic (visitorId : string) (b : Bridge) : Bridge :=
  mkBridge (bot b) (groupId b) (Db.setTopicId None visitorId (visitors b))
           (calls b) (errors b).

(** An awaited call of the bot: it joins the calls made, and ends as the
    platform decides. *)
Definition callBot (c : BotCall) (b : Bridge) : BotResult * Bridge :=
  (respond env (calls b) c,
   mkBridge (bot b) (groupId b) (visitors b) (calls b ++ [c]) (errors b)).

Definition logError (label : string) (error : JsVal) (b : Bridge) : Bridge :=
  mkBridge (bot b) (groupId b) (visitors b) (calls b) (errors b ++ [(label, error)]).

(** The name [createTopicForVisitor] gives the thread of a visitor. *)
Definition topicName (visitor : option Db.VisitorRecord) (count : Z)
  (siteName : string) : string :=
  let isAnon :=
    match visitor with
    | Some v => match Db.auth_type v with Db.anonymous => true | _ => false end
    | None => false
    end in
  let prefix := if isAnon then "[Anon] " else "" in
  let name := match visitor with Some v => orNull (Db.name v) | None => None end in
  let email := match visitor with Some v => orNull (Db.email v) | None => None end in
  let site := if String.eqb siteName "" then "unknown" else siteName in
  match name, email with
  | Some name, Some email =>
      prefix +:+ name +:+ " (" +:+ email +:+ ") from " +:+ site
  | None, Some email => prefix +:+ email +:+ " from " +:+ site
  | Some name, None => prefix +:+ name +:+ " from " +:+ site
  | None, None => prefix +:+ "Visitor #" +:+ showZ count +:+ " from " +:+ site
  end.

(** [createTopicForVisitor(visitorId, siteName)] *)
Definition createTopicForVisitor (visitorId siteName : string) (b : Bridge)
  : option Z * Bridge :=
  match bot b, truthyNum (groupId b) with
  | true, Some group =>
      let visitor := Db.getVisitor visitorId (visitors b) in
      match truthyNum (visitor ≫= Db.telegram_topic_id) with
      | Some cached => (Some cached, b)
      | None =>
          let count := Db.getVisitorCount (visitors b) in
          let name := topicName visitor count siteName in
          match callBot (CreateForumTopic group name) b with
          | (Rejected error, b1) =>
              (None, logError "[Telegram] Error creating topic:" error b1)
          | (Resolved JNull, b1) =>
              (None, logError "[Telegram] Error creating topic:"
                       (mkError "Cannot read properties of null") b1)
          | (Resolved result, b1) =>
              match asNumber (prop result "message_thread_id") with
              | None => (None, b1)
              | Some topicId =>
                  (Some topicId,
                   mkBridge (bot b1) (groupId b1)
                            (Db.setTopicId (Some topicId) visitorId (visitors b1))
                            (calls b1) (errors b1))
              end
          end
      end
  | _, _ => (None, b)
  end.

(** The inner [sendToTopicId(topicId)] of [sendToTopic]: [None] when it
    returns, the error when it throws. *)
Definition sendToTopicId (content : string) (type : Db.MessageType)
  (fileUrl : option string) (topicId : Z) (b : Bridge) : option JsVal * Bridge :=
  match bot b, truthyNum (groupId b) with
  | true, Some group =>
      let finish (r : BotResult * Bridge) :=
        match r with
        | (Resolved _, b1) => (None, b1)
        | (Rejected error, b1) => (Some error, b1)
        end in
      match type, orNull fileUrl with
      | Db.image, Some url =>
          match requireMediaFilePath url with
          | inl error => (Some error, b)
          | inr filePath =>
              finish (callBot (SendPhoto group filePath topicId
                         (if String.eqb content url then None else Some content)) b)
          end
      | Db.file, Some url =>
          match requireMediaFilePath url with
          | inl error => (Some error, b)
          | inr filePath => finish (callBot (SendDocument group filePath topicId) b)
          end
      | _, _ => finish (callBot (SendMessage group content topicId) b)
      end
  | _, _ => (None, b)
  end.

(** [sendToTopic(visitorId, content, type, siteName, fileUrl)], run to its
    end. *)
Definition sendToTopic (visitorId content : string) (type : Db.MessageType)
  (siteName : string) (fileUrl : option string) (b : Bridge) : Bridge :=
  match bot b, truthyNum (groupId b) with
  | true, Some _ =>
      let visitor := Db.getVisitor visitorId (visitors b) in
      let '(topicId, b1) :=
        match truthyNum (visitor ≫= Db.telegram_topic_id) with
        | Some cached => (Some cached, b)
        | None => createTopicForVisitor visitorId siteName b
        end in
      match truthyNum topicId with
      | None => b1
      | Some topicId =>
          match sendToTopicId content type fileUrl topicId b1 with
          | (None, b2) => b2
          | (Some err, b2) =>
              let giveUp := logError "[Telegram] Error sending to topic:" err in
              if isMissingThreadError err then
                let b3 := clearVisitorTopic visitorId b2 in
                let '(replacementTopicId, b4) :=
                  createTopicForVisitor visitorId siteName b3 in
                match truthyNum replacementTopicId with
                | Some replacement =>
                    match sendToTopicId content type fileUrl replacement b4 with
                    | (None, b5) => b5
                    | (Some retryErr, b5) =>
                        logError "[Telegram] Error sending to recreated topic:"
                                 retryErr b5
                    end
                | None => giveUp b4
                end
              else giveUp b2
          end
      end
  | _, _ => b
  end.

(** [sendTypingToTopic(visitorId)] *)
Definition sendTypingToTopic (visitorId : string) (b : Bridge) : Bridge :=
  match bot b, truthyNum (groupId b) with
  | true, Some group =>
      match truthyNum (Db.getVisitor visitorId (visitors b) ≫= Db.telegram_topic_id) with
      | None => b
      | Some topicId =>
          match callBot (SendChatAction group "typing" topicId) b with
          | (Resolved _, b1) => b1
          | (Rejected err, b1) =>
              if isMissingThreadError err then clearVisitorTopic visitorId b1 else b1
          end
      end
  | _, _ => b
  end.

End WithEnv.
End Telegram.

(** Vocabulary for the statements about the topic bridge. *)

Module TelegramSpec.
Import Js Telegram.

(** The call [sendToTopicId] makes for a thread, or the error it throws
    before calling. *)
Definition sendCallOf (env : BotEnv) (content : string) (type : Db.MessageType)
  (fileUrl : option string) (group topicId : Z) : JsVal + BotCall :=
  match type, orNull fileUrl with
  | Db.image, Some url =>
      match requireMediaFilePath env url with
      | inl error => inl error
      | inr filePath =>
          inr (SendPhoto group filePath topicId
                 (if String.eqb content url then None else Some content))
      end
  | Db.file, Some url =>
      match requireMediaFilePath env url with
      | inl error => inl error
      | inr filePath => inr (SendDocument group filePath topicId)
      end
  | _, _ => inr (SendMessage group content topicId)
  end.

(** The thread id a [createForumTopic] answer yields. *)
Definition createdId (r : BotResult) : option Z :=
  match r with
  | Resolved result => asNumber (prop result "message_thread_id")
  | Rejected _ => None
  end.

(** The thread id cached on the row of a visitor. *)
Definition cachedTopic (visitorId : string) (b : Bridge) : option Z :=
  visitors b !! visitorId ≫= Db.telegram_topic_id.

(** The first step of [sendToTopic]: the cached thread of the visitor, or
    a thread created for the visitor. *)
Definition resolveTopic (env : BotEnv) (visitorId siteName : string) (b : Bridge)
  : option Z * Bridge :=
  match truthyNum (Db.getVisitor visitorId (visitors b) ≫= Db.telegram_topic_id) with
  | Some cached => (Some cached, b)
  | None => createTopicForVisitor env visitorId siteName b
  end.

End TelegramSpec.

(** ** A concrete platform, for evaluating the model *)

Module Demo.
Import Js.

(** Origins [https://a.example] and [https://b.example]; two signed tokens
    that carry the same token id, the second with the later expiry; text
    frames of the widget. *)
Definition url (s : string) : option string :=
  if String.eqb s "https://a.example" then Some "a.example"
  else if String.eqb s "https://b.example" then Some "b.example"
  else None.

Definition payload (sub jti : string) (exp : Z) : JsVal :=
  JObj [("sub", JStr sub); ("jti", JStr jti); ("exp", JNum exp)].

Definition anonPayload (sub jti : string) (exp : Z) : JsVal :=
  JObj [("sub", JStr sub); ("jti", JStr jti); ("exp", JNum exp);
        ("site", JStr "shop.example"); ("anon", JBool true)].

(** [jwt.verify] rejects a token whose [exp] has passed. *)
Definition verify (token : string) (nowMs : Z) : option JsVal :=
  let unexpired exp p := if nowMs / 1000 <? exp then Some p else None in
  if String.eqb token "T1" then unexpired 100 (payload "u1" "J" 100)
  else if String.eqb token "T2" then unexpired 1000 (payload "u1" "J" 1000)
  else None.

Definition quoted (s : string) : string :=
  String "034" (s +:+ String "034" "").

(** The JSON text of an object whose fields hold strings. *)
Fixpoint membersText (fields : list (string * string)) : string :=
  match fields with
  | [] => ""
  | [(k, v)] => quoted k +:+ ":" +:+ quoted v
  | (k, v) :: rest => quoted k +:+ ":" +:+ quoted v +:+ "," +:+ membersText rest
  end.

Definition objectText (fields : list (string * string)) : string :=
  "{" +:+ membersText fields +:+ "}".

Definition objectOf (fields : list (string * string)) : JsVal :=
  JObj (map (fun kv => (fst kv, JStr (snd kv))) fields).

(** The frames the parser knows. *)
Definition frames : list (list (string * string)) :=
  [ [("type", "auth"); ("token", "T1")];
    [("type", "auth"); ("token", "forged")];
    [("type", "init")];
    [("type", "init"); ("visitorId", "someone-else")];
    [("type", "typing")];
    [("type", "message"); ("content", "hi")] ].

(** [JSON.parse] on the literal [null] and on the frames above; any other
    text is taken as ill-formed. *)
Definition parse (text : string) : option JsVal :=
  if String.eqb text "null" then Some JNull
  else
    objectOf <$> List.find (fun fields => String.eqb (objectText fields) text) frames.

Definition platform : Platform :=
  mkPlatform url verify (fun _ => "1970-01-01T00:00:00.000Z") parse.

Definition config : Config :=
  mkConfig ["https://a.example"; "https://b.example"] "default".

(** A server that has just started, with socket 1 open. *)
Definition world0 : Gateway.World :=
  Gateway.mkWorld ∅ ∅ [] ∅ ∅ ∅ ∅ {[1%nat]}.

(** Socket 1, opened from [https://a.example] at time 0. *)
Definition conn0 : Gateway.Conn :=
  Gateway.onConnection 1 "https://a.example" "10.0.0.1" 0.

Definition authFrame : string := objectText [("type", "auth"); ("token", "T1")].
Definition initFrame : string := objectText [("type", "init")].
Definition spoofedInitFrame : string :=
  objectText [("type", "init"); ("visitorId", "someone-else")].

(** The connection and the world once the socket has authenticated. *)
Definition authed : Gateway.Conn * Gateway.World :=
  fst (Gateway.onMessage platform config conn0 world0 authFrame 1000).

(** A remote platform on which thread 7 is gone: a send to it is rejected,
    a new thread gets id 8, and sends to thread 8 go through. *)
Definition respond (history : list Telegram.BotCall) (call : Telegram.BotCall)
  : Telegram.BotResult :=
  match call with
  | Telegram.CreateForumTopic _ _ =>
      Telegram.Resolved (JObj [("message_thread_id", JNum 8)])
  | Telegram.SendMessage _ _ 7 =>
      Telegram.Rejected
        (Telegram.mkError "ETELEGRAM: 400 Bad Request: message thread not found")
  | _ => Telegram.Resolved (JObj [])
  end.

Definition botEnv : Telegram.BotEnv :=
  Telegram.mkBotEnv respond "/app/public" "/"
    (fun a b => a +:+ "/" +:+ b) (fun p => p) (fun _ => true).

(** An anonymous visitor of [shop.example] without name and email. *)
Definition anonVisitor (topic : option Z) : Db.VisitorRecord :=
  Db.mkVisitor "anon-1" None (Some "shop.example") None Db.anonymous topic 0 0.

Definition bridge (topic : option Z) : Telegram.Bridge :=
  Telegram.mkBridge true (Some (-1001)) {["anon-1" := anonVisitor topic]} [] [].

End Demo.

(** Vocabulary for further statements about the rate limiter. *)

Module RateLimiterWindows.
Import RateLimiter RateLimiterSpec.

(** [a] lies in the span of [window] milliseconds that starts at [from]. *)
Definition inSpanOf (window from a : Z) : bool :=
  (from <=? a) && (a <? from + window).

(** No span of [window] milliseconds holds more than [limit] of the
    readings. *)
Definition spanBoundOf (window limit : Z) (readings : list Z) : Prop :=
  ∀ from, len (List.filter (inSpanOf window from) readings) ≤ limit.

(** The accepted clock readings of a run of calls on the single key [key]. *)
Definition acceptedOn (key : string) (times : list Z)
  (rl : gmap string RateEntry) : list Z :=
  acceptedTimes (fst (runChecks (map (fun t => ([key], t)) times) rl)) times.

(** Two entries that no check at a clock reading from [p] on tells apart:
    the same strikes, the same timestamps once pruned at [p], and the same
    block time or two block times that have passed at [p]. *)
Definition alike (p : Z) (a b : RateEntry) : Prop :=
  burstStrikes a = burstStrikes b
  ∧ windows (pruneEntry a p) = windows (pruneEntry b p)
  ∧ (blockedUntil a = blockedUntil b ∨ (blockedUntil a ≤ p ∧ blockedUntil b ≤ p)).

(** The tick at [now] forgets no strike: the strike counter that
    [getRateEntry] finds for a key is the same before and after it. *)
Definition keepsStrikes (now : Z) (rl : gmap string RateEntry) : Prop :=
  ∀ k, burstStrikes (entryOf (maintenanceTick now rl) k) = burstStrikes (entryOf rl k).

End RateLimiterWindows.

(** Vocabulary for further statements about the gateway. *)

Module GatewaySpec.
Import Gateway.

(** The effects an unauthenticated socket can cause. *)
Definition isCloseOrLog (e : Effect) : bool :=
  match e with
  | WsClose _ _ _ | ConsoleError _ => true
  | _ => false
  end.

(** What holds of the variables of a connection at every moment: it is
    authenticated exactly when it holds claims, an authenticated connection
    has no timer pending, and its visitor id, once set, is the subject of
    its claims. *)
Definition connInv (c : Conn) : Prop :=
  (authenticated c = true ↔ is_Some (claims c))
  ∧ (authenticated c = true → authTimeoutPending c = false)
  ∧ (∀ v, visitorId c = Some v →
       ∃ verified, claims c = Some verified ∧ v = TokenClaims.sub verified).

(** A row as the gateway writes it for the visitor [sub]. *)
Definition visitorTextRow (sub : string) (m : Db.ChatMessage) : Prop :=
  Db.visitor_id m = sub ∧ Db.sender m = Db.visitor ∧ Db.type m = Db.text
  ∧ Db.file_url m = None
  ∧ 1 ≤ Z.of_nat (String.length (Db.content m)) ≤ MAX_MESSAGE_LENGTH.

(** The reference of [messages.visitor_id] to [visitors.id] holds for the
    visitor of the connection: its row exists. *)
Definition visitorRowExists (c : Conn) (w : World) : Prop :=
  ∀ v, visitorId c = Some v → is_Some (visitors w !! v).

(** The row [row'] keeps what [row] knows: the thread, the creation time,
    and a name, a site and an email if there was one. *)
Definition rowKept (row row' : Db.VisitorRecord) : Prop :=
  Db.telegram_topic_id row' = Db.telegram_topic_id row
  ∧ Db.created_at row' = Db.created_at row
  ∧ (is_Some (Db.name row) → is_Some (Db.name row'))
  ∧ (is_Some (Db.site row) → is_Some (Db.site row'))
  ∧ (is_Some (Db.email row) → is_Some (Db.email row')).

(** Every row of [vs] is in [vs'], with what it knows kept. *)
Definition rowsKept (vs vs' : gmap string Db.VisitorRecord) : Prop :=
  ∀ v row, vs !! v = Some row → ∃ row', vs' !! v = Some row' ∧ rowKept row row'.

(** No visitor is mapped to an empty set of sockets. *)
Definition noEmptySets (clients : gmap string (list nat)) : Prop :=
  ∀ v, clients !! v ≠ Some [].

(** The socket [s] is in the set of the visitor [v]. *)
Definition registered (w : World) (v : string) (s : nat) : Prop :=
  ∃ sockets, clients w !! v = Some sockets ∧ s ∈ sockets.

Section WithPlatform.
Variable pf : Platform.
Variable cfg : Config.

(** [verified] is what [verifyToken] gave for some token presented with
    the Origin [o]. *)
Definition tokenVerified (o : string) (verified : TokenClaims.t) : Prop :=
  ∃ token nowMs db,
    fst (Session.verifyToken pf cfg token o nowMs db) = Some verified.

(** The variables of the connection of socket [s], opened with the Origin
    [o] from the address [i]. *)
Definition connOf (s : nat) (o i : string) (c : Conn) : Prop :=
  ws c = s ∧ origin c = o ∧ ip c = i ∧ connInv c
  ∧ ∀ verified, claims c = Some verified →
      rlKeys c = rateLimitKeys pf verified i ∧ tokenVerified o verified.

(** Frames of any connections, one after the other on the shared state;
    each frame comes with the variables of its connection and the clock
    reading. *)
Fixpoint framesOfAll (w : World) (frames : list (Conn * string * Z))
  : World * list Effect :=
  match frames with
  | [] => (w, [])
  | (c, raw, nowMs) :: rest =>
      let '(_, w1, out1) := onMessage pf cfg c w raw nowMs in
      let '(w2, out2) := framesOfAll w1 rest in
      (w2, out1 ++ out2)
  end.

End WithPlatform.

End GatewaySpec.

(** Further concrete inputs. *)

Module DemoMore.
Import Js Gateway.

Definition typingFrame : string := Demo.objectText [("type", "typing")].
Definition messageFrame : string :=
  Demo.objectText [("type", "message"); ("content", "hi")].

(** Socket 1 once it has authenticated and sent [init]. *)
Definition initialised : Conn * World :=
  fst (deliverAll Demo.platform Demo.config Demo.conn0 Demo.world0
         [(Frame Demo.authFrame, 1000); (Frame Demo.initFrame, 2000)]).

(** A platform whose token [TP] carries an id with blanks around it. *)
Definition paddedVerify (token : string) (nowMs : Z) : option JsVal :=
  if String.eqb token "TP" then
    if nowMs / 1000 <? 100 then Some (Demo.payload "u1" " J " 100) else None
  else None.

Definition paddedPlatform : Platform :=
  mkPlatform Demo.url paddedVerify (fun _ => "1970-01-01T00:00:00.000Z") Demo.parse.

End DemoMore.

(** ** HTTP surface: revocation and the message route *)

Module Routes.
Import Js Gateway.

Inductive Reply :=
  | Ok (body : JsVal)
  | Refused (status : Z) (error : string)
  (** the [catch] of a route: status 500 with the message of the error *)
  | ServerError.

Section WithPlatform.
Variable pf : Platform.
Variable cfg : Config.

(** The world with the table [token_sessions] as a statement left it. *)
Definition withTokenSessions (db : gmap string TokenSessionRecord.t) (w : World)
  : World :=
  mkWorld db (visitors w) (messages w) (settings w)
          (rateLimits w) (clients w) (typingThrottle w) (openSockets w).

(** [POST /api/auth/revoke] at [Date.now() = nowMs]: the row of the token
    id of the claims is revoked, the open sockets of the subject are closed
    with code 4001, and the set of the subject is dropped. *)
Definition revokeRoute (authorization origin : string) (nowMs : Z) (w : World)
  : Reply * World * list Effect :=
  match Http.requireAuth pf cfg authorization origin nowMs (tokenSessions w) with
  | (None, db) =>
      (Refused 401 "Valid authentication required", withTokenSessions db w, [])
  | (Some claims, db) =>
      let jti := TokenClaims.jti claims in
      let sub := TokenClaims.sub claims in
      if String.eqb jti "" || String.eqb sub ""
      then (Refused 400 "Invalid token claims", withTokenSessions db w, [])
      else
        let w1 := withTokenSessions
                    (Session.revokeTokenSession jti (nowMs / 1000) db) w in
        match clients w1 !! sub with
        | None => (Ok (JObj [("revoked", JBool true)]), w1, [])
        | Some sockets =>
            let opened :=
              List.filter (fun s => bool_decide (s ∈ openSockets w1)) sockets in
            let w2 := fold_right closeSocket w1 opened in
            (Ok (JObj [("revoked", JBool true)]),
             mkWorld (tokenSessions w2) (visitors w2) (messages w2) (settings w2)
                     (rateLimits w2) (delete sub (clients w2))
                     (typingThrottle w2) (openSockets w2),
             map (fun s => WsClose s 4001 "Session revoked") opened)
        end
  end.

(** [POST /api/chat/:visitorId/message] at [Date.now() = nowMs], for a
    request from the address [ip] whose parsed body is [body]. *)
Definition postMessageRoute (authorization origin ip visitorIdParam : string)
  (body : JsVal) (nowMs : Z) (w : World) : Reply * World * list Effect :=
  match Http.requireAuth pf cfg authorization origin nowMs (tokenSessions w) with
  | (None, db) =>
      (Refused 401 "Valid authentication required", withTokenSessions db w, [])
  | (Some claims, db) =>
      let w0 := withTokenSessions db w in
      match Http.resolveVisitorId claims visitorIdParam with
      | inr (error, status) => (Refused status error, w0, [])
      | inl visitorId =>
          match body with
          | JNull => (ServerError, w0, [])
          | _ =>
              let keys := rateLimitKeys pf claims ip in
              let invalid :=
                (Refused 400 "Invalid message length (1-2000 chars)", w0, []) in
              match asString (prop body "content") with
              | None => invalid
              | Some content =>
                  let n := Z.of_nat (String.length content) in
                  if (n =? 0) || (n >? MAX_MESSAGE_LENGTH) then invalid else
                  match RateLimiter.checkRateLimitKeys keys nowMs (rateLimits w0) with
                  | (false, rl) =>
                      (Refused 429 "Too many messages, slow down",
                       mkWorld (tokenSessions w0) (visitors w0) (messages w0)
                               (settings w0) rl (clients w0) (typingThrottle w0)
                               (openSockets w0),
                       [])
                  | (true, rl) =>
                      let visitors' :=
                        Db.upsertVisitor visitorId
                          (orNull (TokenClaims.name claims))
                          (Some (siteFromClaims pf claims (SITE_NAME cfg)))
                          (orNull (TokenClaims.email claims))
                          (authTypeFromClaims claims) (nowMs / 1000)
                          (visitors w0) in
                      let '(messages', rowid) :=
                        Db.addMessage visitorId Db.visitor content Db.text None
                          (nowMs / 1000) (messages w0) in
                      let w' := mkWorld (tokenSessions w0) visitors' messages'
                                        (settings w0) rl (clients w0)
                                        (typingThrottle w0) (openSockets w0) in
                      let outMsg := chatMessageJson pf rowid visitorId Db.visitor
                                      content Db.text None nowMs in
                      let site :=
                        match Db.getVisitor visitorId visitors' with
                        | Some v => orElse (Db.site v) (SITE_NAME cfg)
                        | None => SITE_NAME cfg
                        end in
                      (Ok (JObj [("message", outMsg)]), w',
                       broadcastToVisitor visitorId
                         (JObj [("type", JStr "message"); ("message", outMsg)]) w'
                       ++ [SendToTopic visitorId content Db.text site None])
                  end
              end
          end
      end
  end.

End WithPlatform.
End Routes.

(** Vocabulary for statements about the routes and the session validator. *)

Module RoutesSpec.
Import Js Gateway.

(** The decoded payload of a token carries the token id [jti] once
    trimmed. *)
Definition carries (pf : Platform) (token : string) (nowMs : Z) (jti : string)
  : Prop :=
  ∀ decoded claims,
    jwt_verify pf token nowMs = Some decoded →
    Session.isTokenClaims decoded = Some claims →
    trim (TokenClaims.jti claims) = jti.

(** The row of the token id is revoked and expires at the second [expiry]. *)
Definition revokedUntil (jti : string) (expiry : Z)
  (db : gmap string TokenSessionRecord.t) : Prop :=
  ∃ row, db !! jti = Some row
         ∧ is_Some (TokenSessionRecord.revoked_at row)
         ∧ TokenSessionRecord.expires_at row = expiry.

End RoutesSpec.

(** Vocabulary for further statements about the topic bridge. *)

Module TelegramCalls.
Import Js Telegram.

Definition isCreate (c : BotCall) : bool :=
  match c with CreateForumTopic _ _ => true | _ => false end.

Definition isSend (c : BotCall) : bool :=
  match c with
  | SendMessage _ _ _ | SendPhoto _ _ _ _ | SendDocument _ _ _ => true
  | _ => false
  end.

Definition creations (cs : list BotCall) : nat := length (List.filter isCreate cs).
Definition sends (cs : list BotCall) : nat := length (List.filter isSend cs).

(** The path [p] is what the file URL [url] names inside the public
    directory: the URL has no [..] once its leading slashes are dropped,
    [p] is the normalised join of the directory and the rest, it lies under
    the directory, and the file exists. *)
Definition confined (env : BotEnv) (url p : string) : Prop :=
  let relative := stripLeadingSlashes url in
  url ≠ ""
  ∧ includes relative ".." = false
  ∧ p = path_normalize env (path_join env (PUBLIC_DIR env) relative)
  ∧ startsWith p (path_normalize env (PUBLIC_DIR env) +:+ path_sep env) = true
  ∧ fs_existsSync env p = true.

(** A call [sendToTopic] may make for a message: it goes to the group; a
    text call carries the content, a media call a confined path. *)
Definition bridgeCall (env : BotEnv) (group : Z) (content : string)
  (type : Db.MessageType) (fileUrl : option string) (c : BotCall) : Prop :=
  match c with
  | CreateForumTopic g _ => g = group
  | SendMessage g text _ => g = group ∧ text = content
  | SendPhoto g p _ _ =>
      g = group ∧ type = Db.image ∧ ∃ url, fileUrl = Some url ∧ confined env url p
  | SendDocument g p _ =>
      g = group ∧ type = Db.file ∧ ∃ url, fileUrl = Some url ∧ confined env url p
  | SendChatAction _ _ _ => False
  end.

(** One step of the bridge: the configuration stays, and the calls made are
    [new]. *)
Definition stepOf (b b' : Bridge) (new : list BotCall) : Prop :=
  bot b' = bot b ∧ groupId b' = groupId b ∧ calls b' = calls b ++ new.

(** Steps of [sendToTopic] for a message, with at most [kc] threads created
    and [ks] messages sent, every call as [bridgeCall] has it for the group
    of an enabled bridge. *)
Definition messageSteps (env : BotEnv) (content : string) (type : Db.MessageType)
  (fileUrl : option string) (b b' : Bridge) (kc ks : nat) : Prop :=
  ∃ new, stepOf b b' new
    ∧ (creations new ≤ kc)%nat ∧ (sends new ≤ ks)%nat
    ∧ ∀ c, c ∈ new →
        bot b = true
        ∧ ∃ group, truthyNum (groupId b) = Some group
                   ∧ bridgeCall env group content type fileUrl c.

End TelegramCalls.

(** ** Support presence and its commands *)

Module Support.
Import Js.

(** [setSupportPresenceState(state)]: the upsert of the setting. *)
Definition setSupportPresenceState (state : Db.SupportPresenceState)
  (settings : gmap string string) : gmap string string :=
  <[Db.SUPPORT_PRESENCE_SETTING_KEY := Gateway.presenceName state]> settings.

(** [normalizePresenceCommandState(command)] *)
Definition normalizePresenceCommandState (command : string)
  : option Db.SupportPresenceState :=
  if String.eqb command "/support_online" then Some Db.online
  else if String.eqb command "/support_offline" then Some Db.offline
  else None.

(** [s.split(/\s+/, 1)[0]] for a trimmed string: the characters before the
    first white space. *)
Fixpoint firstWord (s : string) : string :=
  match s with
  | EmptyString => EmptyString
  | String c rest => if isSpace c then EmptyString else String c (firstWord rest)
  end.

(** [s.replace(/@.+$/, '')] for a string without line terminators: the
    string is cut at its first [@] unless nothing follows it. *)
Fixpoint stripMention (s : string) : string :=
  match s with
  | EmptyString => EmptyString
  | String c rest =>
      if Ascii.eqb c "@"
      then match rest with EmptyString => s | _ => EmptyString end
      else String c (stripMention rest)
  end.

(** [normalizeCommand(text)] *)
Definition normalizeCommand (text : string) : string :=
  stripMention (toLowerCase (firstWord (trim text))).

(** The fields of a Telegram message the command handler reads. *)
Record Message := mkMessage {
  from_is_bot : bool;
  chat_id : Z;
  text : option string;
  message_thread_id : option Z
}.

(** What the handler does to the outside: the reply it sends to the group,
    and the call of the presence hook. *)
Inductive Effect :=
  | Reply (chatId : Z) (text : string) (message_thread_id : option Z)
  | PresenceChanged (state : Db.SupportPresenceState) (updatedAt : string).

(** How the handler ends: with its result, or with the error of a reply
    the platform rejected. *)
Inductive Outcome :=
  | Returned (handled : bool)
  | Thrown.

(** [handleSupportCommand(msg)] at [Date.now() = nowMs], with [bot] set or
    not, the group id, [presenceChangeHook] set or not, and whether the
    platform delivers the reply. *)
Definition handleSupportCommand (pf : Platform) (bot : bool) (groupId : option Z)
  (hook delivered : bool) (msg : Message) (nowMs : Z)
  (settings : gmap string string)
  : Outcome * gmap string string * list Effect :=
  let replied := if delivered then Returned true else Thrown in
  match bot, Telegram.truthyNum groupId with
  | true, Some group =>
      if from_is_bot msg then (Returned false, settings, []) else
      if negb (chat_id msg =? group) then (Returned false, settings, []) else
      match text msg with
      | None => (Returned false, settings, [])
      | Some text =>
          let command := normalizeCommand text in
          if negb (startsWith command "/support_")
          then (Returned false, settings, []) else
          if String.eqb command "/support_status"
          then (replied, settings,
                [Reply group
                   ("Support presence is currently: "
                    +:+ Gateway.presenceName (Db.getSupportPresenceState settings))
                   (message_thread_id msg)])
          else
            match normalizePresenceCommandState command with
            | None =>
                (replied, settings,
                 [Reply group
                    "Unknown support command. Use /support_online, /support_offline, or /support_status."
                    (message_thread_id msg)])
            | Some nextState =>
                (replied, setSupportPresenceState nextState settings,
                 (if hook
                  then [PresenceChanged nextState (toISOString pf nowMs)]
                  else [])
                 ++ [Reply group
                       ("Support presence set to: " +:+ Gateway.presenceName nextState)
                       (message_thread_id msg)])
            end
      end
  | _, _ => (Returned false, settings, [])
  end.

(** The characters of a word: no white space. *)
Fixpoint noSpace (s : string) : bool :=
  match s with
  | EmptyString => true
  | String c rest => negb (isSpace c) && noSpace rest
  end.

(** No [@] among the characters. *)
Fixpoint noAt (s : string) : bool :=
  match s with
  | EmptyString => true
  | String c rest => negb (Ascii.eqb c "@") && noAt rest
  end.

(** White space only. *)
Fixpoint allSpace (s : string) : bool :=
  match s with
  | EmptyString => true
  | String c rest => isSpace c && allSpace rest
  end.

(** The string is empty or starts with white space. *)
Definition wordEnd (s : string) : bool :=
  match s with
  | EmptyString => true
  | String c _ => isSpace c
  end.

(** The command that sets a state. *)
Definition commandOf (state : Db.SupportPresenceState) : string :=
  match state with
  | Db.online => "/support_online"
  | Db.offline => "/support_offline"
  end.

End Support.

(** ** HTTP surface: anonymous tokens *)

Module Anonymous.
Import Js Gateway.

Definition ANON_TOKEN_TTL_SECONDS : Z := 900.

(** [[0-9a-f]] *)
Definition isLowerHex (c : ascii) : bool :=
  let n := nat_of_ascii c in
  (((48 <=? n) && (n <=? 57)) || ((97 <=? n) && (n <=? 102)))%nat.

(** [n] characters of [[0-9a-f]] at the start of [s]: what follows them. *)
Fixpoint hexRun (n : nat) (s : string) : option string :=
  match n, s with
  | O, _ => Some s
  | S m, String c rest => if isLowerHex c then hexRun m rest else None
  | S _, EmptyString => None
  end.

(** A [-] at the start of [s]: what follows it. *)
Definition dash (s : string) : option string :=
  match s with
  | String c rest => if Ascii.eqb c "-" then Some rest else None
  | EmptyString => None
  end.

(** [ANON_VISITOR_ID_RE.test(s)] for
    [/^anon-[0-9a-f]{8}-[0-9a-f]{4}-[0-9a-f]{4}-[0-9a-f]{4}-[0-9a-f]{12}$/]. *)
Definition isAnonVisitorId (s : string) : bool :=
  if String.prefix "anon-" s then
    let group (n : nat) (r : option string) : option string :=
      (r ≫= dash) ≫= hexRun n in
    match group 12%nat (group 4%nat (group 4%nat (group 4%nat
            (hexRun 8 (dropChars 5 s))))) with
    | Some EmptyString => true
    | _ => false
    end
  else false.

(** [s.slice(0, n)] *)
Fixpoint takeChars (n : nat) (s : string) : string :=
  match n, s with
  | S m, String c rest => String c (takeChars m rest)
  | _, _ => EmptyString
  end.

(** The characters before the first [@]. *)
Fixpoint untilAt (s : string) : string :=
  match s with
  | EmptyString => EmptyString
  | String c rest => if Ascii.eqb c "@" then EmptyString else String c (untilAt rest)
  end.

(** [email.split('@')[1]]; [None] is [undefined]. *)
Fixpoint domainOf (email : string) : option string :=
  match email with
  | EmptyString => None
  | String c rest => if Ascii.eqb c "@" then Some (untilAt rest) else domainOf rest
  end.

(** What the route takes from its libraries: the two [uuidv4()] values of a
    request, [dns.resolveMx] with the number of records it finds ([None]
    when it throws), and [jwt.sign] for the payload. *)
Record Issuer := mkIssuer {
  uuidForSub : string;
  uuidForJti : string;
  resolveMx : option string → option nat;
  jwt_sign : JsVal → string
}.

Inductive Reply :=
  | Token (token visitorId : string) (expiresIn : Z)
  | Refused (status : Z) (error : string).

Definition orJNull (x : option string) : JsVal :=
  match x with Some s => JStr s | None => JNull end.

(** The subject the route puts into the token. *)
Definition anonymousSubject (body : JsVal) (uuid : string) : string :=
  let clientVisitorId :=
    match asString (prop body "visitorId") with
    | Some s => trim s
    | None => ""
    end in
  if negb (String.eqb clientVisitorId "") && isAnonVisitorId clientVisitorId
  then clientVisitorId
  else "anon-" +:+ uuid.

(** The payload the route signs. *)
Definition anonymousPayload (sub jti host origin : string)
  (email name : option string) : list (string * JsVal) :=
  [("sub", JStr sub); ("jti", JStr jti); ("site", JStr host);
   ("origin", JStr origin); ("email", orJNull email); ("name", orJNull name);
   ("anon", JBool true)].

Section WithPlatform.
Variable pf : Platform.
Variable cfg : Config.

(** [POST /api/auth/anonymous] at [Date.now() = nowMs], for a request with
    the Origin [origin] from the address [ip] whose parsed body is [body];
    [emailRequired] is [ANON_EMAIL_REQUIRED]. *)
Definition anonymousRoute (iss : Issuer) (emailRequired : bool)
  (origin ip : string) (body : JsVal) (nowMs : Z)
  (rl : gmap string RateLimiter.RateEntry)
  : Reply * gmap string RateLimiter.RateEntry :=
  match orNull (Session.originHost pf origin) with
  | None => (Refused 403 "Origin not allowed", rl)
  | Some requestOriginHost =>
      if negb (bool_decide (requestOriginHost ∈ Session.allowedOriginHosts pf cfg))
      then (Refused 403 "Origin not allowed", rl) else
      match RateLimiter.checkRateLimitKeys ["anon-token:ip:" +:+ ip] nowMs rl with
      | (false, rl') => (Refused 429 "Too many requests", rl')
      | (true, rl') =>
          let sub := anonymousSubject body (uuidForSub iss) in
          let email :=
            match asString (prop body "email") with
            | Some e => if includes e "@" then Some (takeChars 254%nat (trim e)) else None
            | None => None
            end in
          let name :=
            match asString (prop body "name") with
            | Some n => Some (takeChars 100%nat (trim n))
            | None => None
            end in
          if emailRequired && negb (truthy email)
          then (Refused 400 "Email is required", rl') else
          let sign :=
            (Token (jwt_sign iss
                      (JObj (anonymousPayload sub (uuidForJti iss) requestOriginHost
                               origin email name)))
                   sub ANON_TOKEN_TTL_SECONDS, rl') in
          match orNull email with
          | None => sign
          | Some e =>
              match resolveMx iss (domainOf e) with
              | None | Some O => (Refused 400 "Invalid email domain", rl')
              | Some (S _) => sign
              end
          end
      end
  end.

End WithPlatform.
End Anonymous.

(** ** Widget: reconnection *)

From Stdlib Require QArith Qminmax.

Module Widget.
Import QArith Qminmax.
Local Open Scope Q_scope.

(** The variables [reconnectTimer] and [reconnectDelay] of the widget; the
    delay is a number of milliseconds, which the multiplications by 1.5
    keep exact. *)
Record Reconnect := mkReconnect {
  reconnectTimer : bool;
  reconnectDelay : Q
}.

(** The state when the script starts. *)
Definition start : Reconnect := mkReconnect false 1000.

Inductive Effect :=
  (** [setTimeout(..., delay)] *)
  | SetTimeout (delay : Q)
  (** [connectWS()] *)
  | ConnectWS.

(** [scheduleReconnect()] *)
Definition scheduleReconnect (r : Reconnect) : Reconnect * list Effect :=
  if reconnectTimer r then (r, [])
  else (mkReconnect true (reconnectDelay r), [SetTimeout (reconnectDelay r)]).

(** The callback of the timer [scheduleReconnect] sets. *)
Definition onReconnectTimer (r : Reconnect) : Reconnect * list Effect :=
  (mkReconnect false (Qmin (reconnectDelay r * (3 # 2)) 30000), [ConnectWS]).

(** [ws.onopen] *)
Definition onOpen (r : Reconnect) : Reconnect :=
  mkReconnect (reconnectTimer r) 1000.

(** What reaches the reconnection logic: the socket opens, the socket
    closes with a code other than 4001 or cannot be created, the timer
    fires. *)
Inductive Event :=
  | Opened
  | Lost
  | TimerFired.

(** The timer fires only while it is set. *)
Definition handle (r : Reconnect) (ev : Event) : Reconnect * list Effect :=
  match ev with
  | Opened => (onOpen r, [])
  | Lost => scheduleReconnect r
  | TimerFired => if reconnectTimer r then onReconnectTimer r else (r, [])
  end.

Fixpoint handleAll (r : Reconnect) (evs : list Event) : Reconnect * list Effect :=
  match evs with
  | [] => (r, [])
  | ev :: rest =>
      let '(r1, out1) := handle r ev in
      let '(r2, out2) := handleAll r1 rest in
      (r2, out1 ++ out2)
  end.

(** A delay between one and thirty seconds. *)
Definition inRange (d : Q) : Prop := 1000 <= d /\ d <= 30000.

(** [n] rounds of losing the connection and waiting for the timer. *)
Fixpoint failures (n : nat) : list Event :=
  match n with
  | O => []
  | S m => Lost :: TimerFired :: failures m
  end.

(** The delay after [n] such rounds from the start. *)
Fixpoint backoff (n : nat) : Q :=
  match n with
  | O => 1000
  | S m => Qmin (backoff m * (3 # 2)) 30000
  end.

End Widget.

(** ** HTTP surface: the upload route *)

From Stdlib Require Strings.Byte.

Module Upload.
Import Js Gateway.

Local Abbreviation byte := Init.Byte.byte.

(** [buffer[i] === v] *)
Definition byteIs (buffer : list byte) (i : nat) (v : byte) : bool :=
  match nth_error buffer i with
  | Some b => Byte.eqb b v
  | None => false
  end.

(** The extension the route reads off the first bytes of the body. *)
Definition sniffExt (buffer : list byte) : option string :=
  if byteIs buffer 0 Init.Byte.xff && byteIs buffer 1 Init.Byte.xd8
  then Some ".jpg"
  else if byteIs buffer 0 Init.Byte.x89 && byteIs buffer 1 Init.Byte.x50
  then Some ".png"
  else if byteIs buffer 0 Init.Byte.x47 && byteIs buffer 1 Init.Byte.x49
  then Some ".gif"
  else if (12 <=? length buffer)%nat
          && byteIs buffer 0 Init.Byte.x52 && byteIs buffer 1 Init.Byte.x49
          && byteIs buffer 2 Init.Byte.x46 && byteIs buffer 3 Init.Byte.x46
          && byteIs buffer 8 Init.Byte.x57 && byteIs buffer 9 Init.Byte.x45
          && byteIs buffer 10 Init.Byte.x42 && byteIs buffer 11 Init.Byte.x50
  then Some ".webp"
  else None.

(** [buffer.slice(0, 256).toString('utf8').toLowerCase()]: the characters
    the route searches for are ASCII, and they are in the decoded text
    where their bytes are in the buffer. *)
Definition head256 (buffer : list byte) : string :=
  toLowerCase (String.string_of_list_byte (firstn 256 buffer)).

(** The head of the body looks like SVG or XML. *)
Definition looksLikeMarkup (buffer : list byte) : bool :=
  includes (head256 buffer) "<svg" || includes (head256 buffer) "<?xml".

(** What the route takes from its libraries: [uuidv4()], the directory of
    uploads with [path.join], and [sharp(buffer).rotate().toBuffer()]
    ([None] when it throws). *)
Record Env := mkEnv {
  uuid : string;
  uploadsDir : string;
  path_join : string → string → string;
  sharpRotate : list byte → option (list byte)
}.

Inductive Effect :=
  (** [fs.writeFileSync(filePath, data)] *)
  | WriteFile (filePath : string) (data : list byte)
  | Out (e : Gateway.Effect).

Inductive Reply :=
  | Stored (message : JsVal)
  | Refused (status : Z) (error : string).

Section WithPlatform.
Variable pf : Platform.
Variable cfg : Config.

(** [POST /api/chat/:visitorId/upload] at [Date.now() = nowMs], for a
    request from the address [ip]; [body] is the buffer the parser of raw
    bodies left, if it left one. *)
Definition uploadRoute (env : Env) (authorization origin ip visitorIdParam : string)
  (body : option (list byte)) (nowMs : Z) (w : World)
  : Reply * World * list Effect :=
  match Http.requireAuth pf cfg authorization origin nowMs (tokenSessions w) with
  | (None, db) =>
      (Refused 401 "Valid authentication required",
       Routes.withTokenSessions db w, [])
  | (Some claims, db) =>
      let w0 := Routes.withTokenSessions db w in
      match Http.resolveVisitorId claims visitorIdParam with
      | inr (error, status) => (Refused status error, w0, [])
      | inl visitorId =>
          let keys := rateLimitKeys pf claims ip in
          let visitors1 :=
            match Db.getVisitor visitorId (visitors w0) with
            | Some _ => visitors w0
            | None =>
                Db.upsertVisitor visitorId (orNull (TokenClaims.name claims))
                  (Some (siteFromClaims pf claims (SITE_NAME cfg)))
                  (orNull (TokenClaims.email claims))
                  (authTypeFromClaims claims) (nowMs / 1000) (visitors w0)
            end in
          let '(ok, rl) :=
            RateLimiter.checkRateLimitKeys keys nowMs (rateLimits w0) in
          let w1 := mkWorld (tokenSessions w0) visitors1 (messages w0) (settings w0)
                            rl (clients w0) (typingThrottle w0) (openSockets w0) in
          if negb ok then (Refused 429 "Too many messages, slow down", w1, []) else
          match body with
          | None | Some [] => (Refused 400 "Image body required", w1, [])
          | Some buffer =>
              match sniffExt buffer with
              | None =>
                  (Refused 400 "Unsupported image format (jpg, png, gif, webp only)",
                   w1, [])
              | Some ext =>
                  if looksLikeMarkup buffer
                  then (Refused 400 "SVG uploads are not allowed", w1, []) else
                  let processedBuffer :=
                    if String.eqb ext ".gif" then buffer
                    else default buffer (sharpRotate env buffer) in
                  let filename := showZ nowMs +:+ "-" +:+ uuid env +:+ ext in
                  let filePath := path_join env (uploadsDir env) filename in
                  let fileUrl := "/uploads/" +:+ filename in
                  let '(messages', rowid) :=
                    Db.addMessage visitorId Db.visitor fileUrl Db.image
                      (Some fileUrl) (nowMs / 1000) (messages w1) in
                  let w' := mkWorld (tokenSessions w1) (visitors w1) messages'
                                    (settings w1) (rateLimits w1) (clients w1)
                                    (typingThrottle w1) (openSockets w1) in
                  let message := chatMessageJson pf rowid visitorId Db.visitor
                                   fileUrl Db.image (Some fileUrl) nowMs in
                  let site :=
                    match Db.getVisitor visitorId (visitors w') with
                    | Some v => orElse (Db.site v)
                                  (siteFromClaims pf claims (SITE_NAME cfg))
                    | None => siteFromClaims pf claims (SITE_NAME cfg)
                    end in
                  (Stored (JObj [("message", message)]), w',
                   WriteFile filePath processedBuffer
                   :: map Out
                        (broadcastToVisitor visitorId
                           (JObj [("type", JStr "message"); ("message", message)]) w'
                         ++ [SendToTopic visitorId fileUrl Db.image site
                               (Some fileUrl)]))
              end
          end
      end
  end.

End WithPlatform.

(** An image row as the route writes it for the visitor [sub]. *)
Definition visitorImageRow (sub fileUrl : string) (m : Db.ChatMessage) : Prop :=
  Db.visitor_id m = sub ∧ Db.sender m = Db.visitor ∧ Db.type m = Db.image
  ∧ Db.content m = fileUrl ∧ Db.file_url m = Some fileUrl.

End Upload.

(** * Properties *)

(** ** Rate limiter *)

Module RateLimiterFacts.
Import RateLimiter RateLimiterSpec.

Lemma keepWithin_idem w now l : keepWithin w now (keepWithin w now l) = keepWithin w now l.
Proof.
  unfold keepWithin. induction l as [|t l IH]; simpl; [done|].
  destruct (now - t <? w) eqn:E; simpl; rewrite ?E, IH; done.
Qed.

Lemma pruneEntry_idem e now : pruneEntry (pruneEntry e now) now = pruneEntry e now.
Proof. unfold pruneEntry; simpl. by rewrite !keepWithin_idem. Qed.

Lemma passes_prune e now : passes now (pruneEntry e now) = passes now e.
Proof. unfold passes. by rewrite pruneEntry_idem. Qed.

Lemma entryOf_insert rl key e k :
  entryOf (<[key := e]> rl) k = if decide (key = k) then e else entryOf rl k.
Proof.
  unfold entryOf. destruct (decide (key = k)) as [->|Hne].
  - by rewrite lookup_insert_eq.
  - by rewrite lookup_insert_ne.
Qed.

Lemma entryOf_getRateEntry key rl k : entryOf (getRateEntry key rl) k = entryOf rl k.
Proof.
  unfold getRateEntry. destruct (rl !! key) eqn:E; [done|].
  rewrite entryOf_insert. destruct (decide (key = k)) as [<-|]; [|done].
  unfold entryOf. by rewrite E.
Qed.

Lemma entryOf_ensure keys rl k :
  entryOf (foldl (fun m key => getRateEntry key m) rl keys) k = entryOf rl k.
Proof.
  revert rl. induction keys as [|key keys IH]; intros rl; simpl; [done|].
  by rewrite IH, entryOf_getRateEntry.
Qed.

(** Case analysis on the guard of the next early [return false] of the
    first loop. *)
Ltac next_guard :=
  match goal with
  | |- context [if ?c then (false, _) else _] =>
      destruct c; cbn [fst snd negb andb]
  end.

Lemma forallb_pointwise {A} (f g : A → bool) (l : list A) :
  (∀ x, f x = g x) → forallb f l = forallb g l.
Proof. intros Hfg. induction l as [|x l IH]; cbn [forallb]; [done|]. by rewrite Hfg, IH. Qed.

(** The first loop answers [true] exactly when every listed key passes. *)
Lemma checkLoop_result keys now rl :
  fst (checkLoop keys now rl) = forallb (fun k => passes now (entryOf rl k)) keys.
Proof.
  revert rl. induction keys as [|key keys IH]; intros rl;
    cbn [checkLoop forallb]; [done|].
  unfold passes at 1. set (e := pruneEntry (entryOf rl key) now).
  do 4 (next_guard; [done|]).
  rewrite IH. apply forallb_pointwise. intros k.
  rewrite entryOf_insert. destruct (decide (key = k)) as [<-|]; [|done].
  subst e. apply passes_prune.
Qed.

Lemma windows_strike e now : windows (strike e now) = windows e.
Proof. unfold strike. by destruct (_ >=? _). Qed.

(** Whatever the first loop does, an entry's windows are left as they were
    or pruned. *)
Lemma checkLoop_windows keys now rl k :
  windows (entryOf (snd (checkLoop keys now rl)) k) = windows (entryOf rl k)
  ∨ windows (entryOf (snd (checkLoop keys now rl)) k)
    = windows (pruneEntry (entryOf rl k) now).
Proof.
  revert rl. induction keys as [|key keys IH]; intros rl;
    cbn [checkLoop]; [by left|].
  set (e := pruneEntry (entryOf rl key) now).
  assert (Hins : ∀ e', windows e' = windows e →
     windows (entryOf (<[key:=e']> rl) k) = windows (entryOf rl k)
     ∨ windows (entryOf (<[key:=e']> rl) k) = windows (pruneEntry (entryOf rl k) now)).
  { intros e' He'. rewrite entryOf_insert.
    destruct (decide (key = k)) as [<-|]; [right; done | by left]. }
  do 4 (next_guard; [apply Hins; first [done | apply windows_strike]|]).
  specialize (IH (<[key:=e]> rl)). revert IH. rewrite !entryOf_insert.
  destruct (decide (key = k)) as [<-|]; [|done].
  subst e. rewrite pruneEntry_idem. intros [?|?]; by right.
Qed.

(** When the first loop accepts, it has pruned the listed keys and done
    nothing else. *)
Lemma checkLoop_true keys now rl k :
  fst (checkLoop keys now rl) = true →
  entryOf (snd (checkLoop keys now rl)) k
  = if bool_decide (k ∈ keys) then pruneEntry (entryOf rl k) now else entryOf rl k.
Proof.
  revert rl. induction keys as [|key keys IH]; intros rl; cbn [checkLoop].
  { intros _. rewrite bool_decide_eq_false_2; [done|]. apply not_elem_of_nil. }
  set (e := pruneEntry (entryOf rl key) now).
  do 4 (next_guard; [done|]).
  intros Hok. rewrite (IH _ Hok), entryOf_insert.
  destruct (decide (key = k)) as [<-|Hne].
  - rewrite (bool_decide_eq_true_2 (key ∈ key :: keys)); [|by left].
    subst e. rewrite pruneEntry_idem. by destruct (bool_decide _).
  - destruct (bool_decide (k ∈ keys)) eqn:Hin.
    + apply bool_decide_eq_true_1 in Hin.
      rewrite bool_decide_eq_true_2; [done | by right].
    + apply bool_decide_eq_false_1 in Hin.
      rewrite bool_decide_eq_false_2; [done|].
      intros [?|?]%elem_of_cons; congruence.
Qed.

Lemma recordN_record n e now : record (recordN n e now) now = recordN (S n) e now.
Proof.
  unfold record, recordN; cbn [short medium daily burstStrikes blockedUntil].
  rewrite !replicate_S_end, !app_assoc. done.
Qed.

Lemma recordN_0 e now : recordN 0 e now = e.
Proof. destruct e. unfold recordN; simpl. by rewrite !app_nil_r. Qed.

(** The second loop pushes [now] once per listing of a key. *)
Lemma recordLoop_entry keys now rl k :
  entryOf (recordLoop keys now rl) k
  = recordN (occurrences k keys) (entryOf rl k) now.
Proof.
  revert rl. induction keys as [|key keys IH]; intros rl; cbn [recordLoop].
  { by rewrite recordN_0. }
  rewrite IH, entryOf_insert. unfold occurrences; cbn [List.filter].
  destruct (decide (key = k)) as [->|Hne].
  - rewrite bool_decide_eq_true_2 by done. cbn [length].
    unfold recordN, record; cbn [short medium daily burstStrikes blockedUntil].
    rewrite <- !app_assoc. done.
  - rewrite bool_decide_eq_false_2 by done. done.
Qed.

Lemma strike_fields e now :
  strike e now =
  if burstStrikes e + 1 >=? BURST_STRIKE_THRESHOLD
  then mkEntry (short e) (medium e) (daily e) 0 (now + BURST_COOLDOWN)
  else mkEntry (short e) (medium e) (daily e) (burstStrikes e + 1) (blockedUntil e).
Proof. done. Qed.

Lemma passes_not_shortRejected now e : passes now e = true → shortRejected now e = false.
Proof.
  unfold passes, shortRejected.
  cbn [pruneEntry blockedUntil short].
  destruct (blockedUntil e >? now); cbn [negb andb]; [done|].
  by destruct (len _ >=? RATE_SHORT_MAX).
Qed.

(** What the first loop can do to the entry of one key. *)
Lemma checkLoop_entry keys now rl k :
  let e := entryOf rl k in
  let e' := entryOf (snd (checkLoop keys now rl)) k in
  (stopsAtShort k keys now rl = false ∧ (e' = e ∨ e' = pruneEntry e now))
  ∨ (stopsAtShort k keys now rl = true
     ∧ fst (checkLoop keys now rl) = false
     ∧ e' = strike (pruneEntry e now) now).
Proof.
  revert rl. induction keys as [|key keys IH]; intros rl;
    cbn [checkLoop stopsAtShort]; [left; split; [done | by left]|].
  cbv zeta. unfold passes, shortRejected.
  destruct (decide (key = k)) as [->|Hne].
  - set (e := pruneEntry (entryOf rl k) now).
    assert (Hidem : pruneEntry e now = e) by apply pruneEntry_idem.
    rewrite bool_decide_eq_true_2 by done.
    change (blockedUntil (entryOf rl k)) with (blockedUntil e).
    destruct (blockedUntil e >? now); cbn [fst snd negb andb].
    { left. split; [done|]. right. by rewrite entryOf_insert, decide_True. }
    destruct (len (short e) >=? RATE_SHORT_MAX) eqn:Hs; cbn [fst snd negb andb].
    { right. by rewrite entryOf_insert, decide_True. }
    destruct (len (medium e) >=? RATE_MEDIUM_MAX); cbn [fst snd].
    { left. split; [done|]. right. by rewrite entryOf_insert, decide_True. }
    destruct (len (daily e) >=? RATE_DAILY_MAX); cbn [fst snd].
    { left. split; [done|]. right. by rewrite entryOf_insert, decide_True. }
    specialize (IH (<[k:=e]> rl)). cbv zeta in IH.
    rewrite entryOf_insert, decide_True in IH by done.
    assert (stopsAtShort k keys now (<[k:=e]> rl) = false) as Hno.
    { clear IH. induction keys as [|k' keys IHk]; cbn [stopsAtShort]; [done|].
      destruct (bool_decide (k' = k)) eqn:Hk.
      - rewrite entryOf_insert, decide_True by done.
        unfold shortRejected. rewrite Hidem, Hs. by rewrite andb_false_r.
      - rewrite IHk. by rewrite andb_false_r. }
    rewrite Hno in IH. destruct IH as [[_ IH]|[? _]]; [|done].
    left. split; [done|]. right. rewrite Hidem in IH. by destruct IH.
  - set (e := pruneEntry (entryOf rl key) now).
    rewrite bool_decide_eq_false_2 by done.
    assert (Hother : ∀ e0, entryOf (<[key:=e0]> rl) k = entryOf rl k).
    { intros e0. by rewrite entryOf_insert, decide_False. }
    destruct (blockedUntil e >? now); cbn [fst snd negb andb].
    { left. split; [done|]. left. apply Hother. }
    destruct (len (short e) >=? RATE_SHORT_MAX); cbn [fst snd negb andb].
    { left. split; [done|]. left. apply Hother. }
    destruct (len (medium e) >=? RATE_MEDIUM_MAX); cbn [fst snd negb andb].
    { left. split; [done|]. left. apply Hother. }
    destruct (len (daily e) >=? RATE_DAILY_MAX); cbn [fst snd negb andb].
    { left. split; [done|]. left. apply Hother. }
    specialize (IH (<[key:=e]> rl)). cbv zeta in IH.
    rewrite Hother in IH.
    assert (stopsAtShort k keys now (<[key:=e]> rl) = stopsAtShort k keys now rl) as Heq.
    { clear IH. induction keys as [|k' keys IHk]; cbn [stopsAtShort]; [done|].
      rewrite IHk, Hother. destruct (bool_decide (k' = k)); [done|].
      rewrite entryOf_insert. destruct (decide (key = k')) as [<-|]; [|done].
      unfold e. by rewrite passes_prune. }
    rewrite Heq in IH. exact IH.
Qed.

Lemma stopsAtShort_ext key keys now rl1 rl2 :
  (∀ k, entryOf rl1 k = entryOf rl2 k) →
  stopsAtShort key keys now rl1 = stopsAtShort key keys now rl2.
Proof.
  intros Hext. induction keys as [|k keys IH]; cbn [stopsAtShort]; [done|].
  by rewrite IH, !Hext.
Qed.

Lemma stopsAtShort_inv key keys now rl :
  stopsAtShort key keys now rl = true →
  key ∈ keys ∧ shortRejected now (entryOf rl key) = true.
Proof.
  induction keys as [|k keys IH]; cbn [stopsAtShort]; [done|].
  destruct (bool_decide (k = key)) eqn:Hk.
  - apply bool_decide_eq_true_1 in Hk as ->. intros ->. split; [by left | done].
  - intros [_ H]%andb_true_iff. destruct (IH H). split; [by right | done].
Qed.

(** The answer of [checkRateLimitKeys]. *)
Lemma check_result keys now rl :
  fst (checkRateLimitKeys keys now rl)
  = forallb (fun k => passes now (entryOf rl k)) keys.
Proof.
  unfold checkRateLimitKeys. cbv zeta.
  set (rl0 := foldl _ rl keys).
  pose proof (checkLoop_result keys now rl0) as H.
  destruct (checkLoop keys now rl0) as [[] rl1]; cbn [fst] in *;
    rewrite H; apply forallb_pointwise; intros k; unfold rl0;
    by rewrite entryOf_ensure.
Qed.

(** What [checkRateLimitKeys] does to the entry of one key. *)
Lemma check_entry keys now rl k :
  let e := entryOf rl k in
  let r := checkRateLimitKeys keys now rl in
  let e' := entryOf (snd r) k in
  (fst r = true
   ∧ e' = if bool_decide (k ∈ keys)
          then recordN (occurrences k keys) (pruneEntry e now) now else e)
  ∨ (fst r = false ∧ stopsAtShort k keys now rl = false
     ∧ (e' = e ∨ e' = pruneEntry e now))
  ∨ (fst r = false ∧ stopsAtShort k keys now rl = true
     ∧ e' = strike (pruneEntry e now) now).
Proof.
  cbv zeta. unfold checkRateLimitKeys. cbv zeta.
  set (rl0 := foldl _ rl keys).
  assert (Hext : ∀ k, entryOf rl0 k = entryOf rl k)
    by (intros; apply entryOf_ensure).
  pose proof (checkLoop_entry keys now rl0 k) as Hent.
  pose proof (checkLoop_true keys now rl0 k) as Htrue.
  cbv zeta in Hent. rewrite (stopsAtShort_ext _ _ _ _ _ Hext), Hext in Hent.
  rewrite Hext in Htrue.
  destruct (checkLoop keys now rl0) as [[] rl1]; cbn [fst snd] in *.
  - left. split; [done|]. rewrite recordLoop_entry, Htrue by done.
    destruct (bool_decide (k ∈ keys)) eqn:Hin; [done|].
    apply bool_decide_eq_false_1 in Hin.
    assert (occurrences k keys = 0%nat) as ->; [|by rewrite recordN_0].
    unfold occurrences. clear -Hin. induction keys as [|k' keys IH]; [done|].
    cbn [List.filter]. rewrite bool_decide_eq_false_2.
    + apply IH. intros ?. apply Hin. by right.
    + intros ->. apply Hin. by left.
  - right. destruct Hent as [[? ?]|(? & _ & ?)]; [left | right]; done.
Qed.

Lemma occurrences_pos k keys : k ∈ keys → (1 ≤ occurrences k keys)%nat.
Proof.
  unfold occurrences. induction keys as [|k' keys IH]; [by intros ?%elem_of_nil|].
  cbn [List.filter]. intros [->|Hin]%elem_of_cons.
  - rewrite bool_decide_eq_true_2 by done. cbn [length]. lia.
  - destruct (bool_decide (k' = k)); cbn [length]; [lia | by apply IH].
Qed.

(** A key inside a block makes every check that lists it fail. *)
Lemma blocked_check_fails keys now rl k :
  k ∈ keys → now < blockedUntil (entryOf rl k) →
  fst (checkRateLimitKeys keys now rl) = false.
Proof.
  intros Hin Hb. rewrite check_result. apply not_true_is_false.
  intros Hall. rewrite forallb_forall in Hall.
  specialize (Hall k). rewrite <- list_elem_of_In in Hall.
  specialize (Hall Hin). unfold passes in Hall.
  cbn [pruneEntry blockedUntil] in Hall.
  assert ((blockedUntil (entryOf rl k) >? now) = true) as Hgt
    by (apply Z.gtb_lt; lia).
  by rewrite Hgt in Hall.
Qed.

(** While a key is inside a block, no check touches its block or strikes. *)
Lemma blocked_check_frame keys now rl k :
  now < blockedUntil (entryOf rl k) →
  blockedUntil (entryOf (snd (checkRateLimitKeys keys now rl)) k)
  = blockedUntil (entryOf rl k).
Proof.
  intros Hb.
  destruct (check_entry keys now rl k) as [[Hok ->]|[(_ & _ & [-> | ->])|(_ & Hs & _)]].
  - by destruct (bool_decide _).
  - done.
  - done.
  - apply stopsAtShort_inv in Hs as [_ Hs]. unfold shortRejected in Hs.
    assert ((blockedUntil (entryOf rl k) >? now) = true) as Hgt
      by (apply Z.gtb_lt; lia).
    by rewrite Hgt in Hs.
Qed.

Lemma tick_entry now rl k :
  entryOf (maintenanceTick now rl) k = pruneEntry (entryOf rl k) now
  ∨ (entryOf (maintenanceTick now rl) k = freshEntry
     ∧ blockedUntil (entryOf rl k) < now).
Proof.
  unfold maintenanceTick, entryOf. rewrite lookup_omap.
  destruct (rl !! k) as [e|]; cbn [default mbind option_bind]; [|by left].
  destruct (_ && _) eqn:Hc; cbn [default]; [|by left].
  right. split; [done|].
  apply andb_true_iff in Hc as [_ Hc]. cbn [pruneEntry blockedUntil] in Hc.
  by apply Z.ltb_lt.
Qed.

Lemma blocked_tick_frame now rl k :
  now < blockedUntil (entryOf rl k) →
  blockedUntil (entryOf (maintenanceTick now rl) k) = blockedUntil (entryOf rl k).
Proof.
  intros Hb. destruct (tick_entry now rl k) as [-> | [_ ?]]; [done | lia].
Qed.

(** A block outlives every operation that happens before it ends. *)
Lemma block_persists ops rl k :
  Forall (fun op => opTime op < blockedUntil (entryOf rl k)) ops →
  blockedUntil (entryOf (runOps ops rl) k) = blockedUntil (entryOf rl k).
Proof.
  revert rl. induction ops as [|op ops IH]; intros rl Hall; [done|].
  apply Forall_cons in Hall as [Hop Hall]. unfold runOps. cbn [foldl].
  assert (blockedUntil (entryOf (runOp rl op) k) = blockedUntil (entryOf rl k)) as Hstep.
  { destruct op as [keys now|now]; cbn [runOp opTime] in *.
    - by apply blocked_check_frame.
    - by apply blocked_tick_frame. }
  rewrite <- Hstep. apply IH. by rewrite Hstep.
Qed.

(** A successful check leaves strikes and block of every key as they were. *)
Lemma accepted_check_frame keys now rl k :
  fst (checkRateLimitKeys keys now rl) = true →
  burstStrikes (entryOf (snd (checkRateLimitKeys keys now rl)) k)
  = burstStrikes (entryOf rl k)
  ∧ blockedUntil (entryOf (snd (checkRateLimitKeys keys now rl)) k)
    = blockedUntil (entryOf rl k)
  ∧ windows (entryOf (snd (checkRateLimitKeys keys now rl)) k)
    = if bool_decide (k ∈ keys)
      then windows (recordN (occurrences k keys) (pruneEntry (entryOf rl k) now) now)
      else windows (entryOf rl k).
Proof.
  intros Hok.
  destruct (check_entry keys now rl k) as [[_ ->]|[(Hf & _)|(Hf & _)]];
    [|congruence..].
  by destruct (bool_decide (k ∈ keys)).
Qed.

Lemma accepted_run_frame calls rl k :
  forallb id (fst (runChecks calls rl)) = true →
  burstStrikes (entryOf (snd (runChecks calls rl)) k) = burstStrikes (entryOf rl k)
  ∧ blockedUntil (entryOf (snd (runChecks calls rl)) k) = blockedUntil (entryOf rl k).
Proof.
  revert rl. induction calls as [|[keys now] calls IH]; intros rl; [done|].
  cbn [runChecks]. cbv zeta. cbn [fst snd forallb].
  intros [Hok Hrest]%andb_true_iff. unfold id in Hok at 1.
  destruct (IH _ Hrest) as [-> ->].
  destruct (accepted_check_frame keys now rl k Hok) as (-> & -> & _). done.
Qed.

(** A check that stops at the short window of [k] counts one strike for it. *)
Lemma strike_check keys now rl k :
  stopsAtShort k keys now rl = true →
  fst (checkRateLimitKeys keys now rl) = false
  ∧ entryOf (snd (checkRateLimitKeys keys now rl)) k
    = strike (pruneEntry (entryOf rl k) now) now.
Proof.
  intros Hs.
  destruct (check_entry keys now rl k) as [[Hok _]|[(_ & Hn & _)|(Hf & _ & He)]];
    [|congruence|done].
  rewrite check_result in Hok. apply stopsAtShort_inv in Hs as [Hin Hs].
  rewrite forallb_forall in Hok. specialize (Hok k).
  rewrite <- list_elem_of_In in Hok. specialize (Hok Hin).
  apply passes_not_shortRejected in Hok. congruence.
Qed.

Lemma strike_count keys now rl k n :
  stopsAtShort k keys now rl = true →
  burstStrikes (entryOf rl k) = n → n + 1 < BURST_STRIKE_THRESHOLD →
  burstStrikes (entryOf (snd (checkRateLimitKeys keys now rl)) k) = n + 1
  ∧ blockedUntil (entryOf (snd (checkRateLimitKeys keys now rl)) k)
    = blockedUntil (entryOf rl k).
Proof.
  intros Hs Hn Hlt. destruct (strike_check _ _ _ _ Hs) as [_ ->].
  rewrite strike_fields. cbn [pruneEntry burstStrikes]. rewrite Hn.
  destruct (n + 1 >=? BURST_STRIKE_THRESHOLD) eqn:E; [|done].
  apply Z.geb_le in E. lia.
Qed.

Lemma strike_blocks keys now rl k :
  stopsAtShort k keys now rl = true →
  burstStrikes (entryOf rl k) + 1 = BURST_STRIKE_THRESHOLD →
  burstStrikes (entryOf (snd (checkRateLimitKeys keys now rl)) k) = 0
  ∧ blockedUntil (entryOf (snd (checkRateLimitKeys keys now rl)) k)
    = now + BURST_COOLDOWN.
Proof.
  intros Hs Hn. destruct (strike_check _ _ _ _ Hs) as [_ ->].
  rewrite strike_fields. cbn [pruneEntry burstStrikes]. rewrite Hn.
  done.
Qed.

Lemma keepWithin_all w now l :
  Forall (fun t => now - t < w) l → keepWithin w now l = l.
Proof.
  unfold keepWithin. induction 1 as [|t l Ht _ IH]; cbn [List.filter]; [done|].
  apply Z.ltb_lt in Ht. by rewrite Ht, IH.
Qed.

(** One accepted call on a key whose three windows hold the same young
    timestamps. *)
Lemma young_step k now rl l :
  entryOf rl k = mkEntry l l l 0 0 →
  0 ≤ now → Forall (fun t => now - t < RATE_SHORT_WINDOW) l →
  (length l < 5)%nat →
  fst (checkRateLimitKeys [k] now rl) = true
  ∧ entryOf (snd (checkRateLimitKeys [k] now rl)) k
    = mkEntry (l ++ [now]) (l ++ [now]) (l ++ [now]) 0 0.
Proof.
  intros He Hnow Hl Hlen.
  assert (Hp : pruneEntry (entryOf rl k) now = mkEntry l l l 0 0).
  { rewrite He. unfold pruneEntry. cbn [short medium daily burstStrikes blockedUntil].
    rewrite !keepWithin_all; [done|..]; try done;
      eapply Forall_impl; [exact Hl | | exact Hl |]; cbv beta;
      unfold RATE_SHORT_WINDOW, RATE_MEDIUM_WINDOW, RATE_DAILY_WINDOW; lia. }
  assert (Hpass : passes now (entryOf rl k) = true).
  { unfold passes. cbv zeta. rewrite Hp.
    cbn [short medium daily burstStrikes blockedUntil].
    unfold len, RATE_SHORT_MAX, RATE_MEDIUM_MAX, RATE_DAILY_MAX.
    destruct (Z.gtb_spec 0 now); [lia|].
    destruct (Z.geb_spec (Z.of_nat (length l)) 5); [lia|].
    destruct (Z.geb_spec (Z.of_nat (length l)) 60); [lia|].
    destruct (Z.geb_spec (Z.of_nat (length l)) 300); [lia|]. done. }
  assert (Hok : fst (checkRateLimitKeys [k] now rl) = true).
  { rewrite check_result. cbn [forallb]. by rewrite Hpass. }
  split; [done|].
  destruct (check_entry [k] now rl k) as [[_ ->]|[(Hf & _)|(Hf & _)]];
    [|congruence..].
  rewrite bool_decide_eq_true_2 by (by left).
  unfold occurrences. cbn [List.filter]. rewrite bool_decide_eq_true_2 by done.
  rewrite Hp. done.
Qed.

Lemma keepWithin_later w p now l :
  p ≤ now → keepWithin w now (keepWithin w p l) = keepWithin w now l.
Proof.
  intros Hle. unfold keepWithin. induction l as [|t l IH]; cbn [List.filter]; [done|].
  destruct (Z.ltb_spec (p - t) w) as [Hp|Hp]; cbn [List.filter].
  - by rewrite IH.
  - rewrite IH. destruct (Z.ltb_spec (now - t) w); [lia | done].
Qed.

Lemma filter_length_le {A} (f g : A → bool) (l : list A) :
  (∀ x, f x = true → g x = true) →
  (length (List.filter f l) ≤ length (List.filter g l))%nat.
Proof.
  intros Hfg. induction l as [|x l IH]; cbn [List.filter]; [done|].
  destruct (f x) eqn:Hf.
  - rewrite (Hfg x Hf). cbn [length]. lia.
  - destruct (g x); cbn [length]; lia.
Qed.

(** One more accepted reading keeps the bound, when fewer than five of the
    earlier ones are younger than the window. *)
Lemma spanBound_snoc acc now :
  spanBound acc → Forall (fun a => a ≤ now) acc →
  len (keepWithin RATE_SHORT_WINDOW now acc) < RATE_SHORT_MAX →
  spanBound (acc ++ [now]).
Proof.
  intros Hacc Hle Hyoung from. rewrite List.filter_app. cbn [List.filter].
  destruct (inSpan from now) eqn:Hin.
  - unfold inSpan in Hin. apply andb_true_iff in Hin as [H1 H2].
    apply Z.leb_le in H1. apply Z.ltb_lt in H2.
    assert (length (List.filter (inSpan from) acc)
            ≤ length (keepWithin RATE_SHORT_WINDOW now acc))%nat as Hsub.
    { clear Hyoung Hacc. unfold keepWithin.
      induction Hle as [|a acc Ha _ IH]; cbn [List.filter]; [done|].
      destruct (inSpan from a) eqn:Hia.
      - unfold inSpan in Hia. apply andb_true_iff in Hia as [Ha1 _].
        apply Z.leb_le in Ha1.
        destruct (Z.ltb_spec (now - a) RATE_SHORT_WINDOW); [|lia].
        cbn [length]. lia.
      - destruct (now - a <? RATE_SHORT_WINDOW); cbn [length]; lia. }
    unfold len in *. rewrite length_app. cbn [length]. lia.
  - rewrite app_nil_r. apply Hacc.
Qed.

(** The accepted readings of a run of single-key calls at clock readings
    that do not decrease. *)
Lemma run_spanBound k times rl acc p last :
  short (entryOf rl k) = keepWithin RATE_SHORT_WINDOW p acc → p ≤ last →
  Forall (fun a => a ≤ last) acc →
  StronglySorted Z.le (last :: times) →
  spanBound acc →
  spanBound (acc ++ acceptedTimes
                      (fst (runChecks (map (fun t => ([k], t)) times) rl)) times).
Proof.
  revert rl acc p last. induction times as [|now times IH];
    intros rl acc p last Hshort Hp Hle Hsorted Hacc.
  { cbn. by rewrite app_nil_r. }
  cbn [map runChecks]. cbv zeta. cbn [fst snd acceptedTimes].
  apply StronglySorted_inv in Hsorted as [Hsorted Hlast].
  apply Forall_cons in Hlast as [Hnow Hlast].
  assert (Hsorted' : StronglySorted Z.le (now :: times)) by done.
  assert (Hprune : short (pruneEntry (entryOf rl k) now)
                   = keepWithin RATE_SHORT_WINDOW now acc).
  { cbn [pruneEntry short]. rewrite Hshort. apply keepWithin_later. lia. }
  assert (Hle' : Forall (fun a => a ≤ now) acc).
  { eapply Forall_impl; [exact Hle|]. intros; cbn in *; lia. }
  destruct (check_entry [k] now rl k) as [[Hok He]|[(Hf & _ & He)|(Hf & _ & He)]];
    rewrite ?Hok, ?Hf.
  - rewrite bool_decide_eq_true_2 in He by (by left).
    assert (occurrences k [k] = 1%nat) as Hone.
    { unfold occurrences. cbn [List.filter]. by rewrite bool_decide_eq_true_2. }
    rewrite Hone in He.
    assert (Hyoung : len (keepWithin RATE_SHORT_WINDOW now acc) < RATE_SHORT_MAX).
    { rewrite check_result in Hok. cbn [forallb] in Hok. rewrite andb_true_r in Hok.
      unfold passes in Hok. cbv zeta in Hok. rewrite Hprune in Hok.
      destruct (Z.geb_spec (len (keepWithin RATE_SHORT_WINDOW now acc)) RATE_SHORT_MAX);
        [|done].
      by rewrite andb_false_r in Hok. }
    replace (acc ++ now :: acceptedTimes _ times)
      with ((acc ++ [now]) ++ acceptedTimes
              (fst (runChecks (map (fun t => ([k], t)) times)
                      (snd (checkRateLimitKeys [k] now rl)))) times)
      by (by rewrite <- app_assoc).
    apply (IH _ _ now now); [|lia| |done|].
    + rewrite He. cbn [recordN short]. rewrite Hprune.
      unfold keepWithin. rewrite List.filter_app. cbn [List.filter replicate].
      destruct (Z.ltb_spec (now - now) RATE_SHORT_WINDOW);
        [done | unfold RATE_SHORT_WINDOW in *; lia].
    + apply Forall_app. split; [done|]. repeat constructor. lia.
    + by apply spanBound_snoc.
  - destruct He as [He|He].
    + apply (IH _ _ p now); [by rewrite He | lia | done | done | done].
    + apply (IH _ _ now now); [by rewrite He | lia | done | done | done].
  - apply (IH _ _ now now); [|lia|done|done|done].
    rewrite He. unfold strike. by destruct (_ >=? _).
Qed.

(** ** The four statements about the rate limiter *)

(** C3.  A call of [checkRateLimitKeys] is all-or-nothing.  Its answer is
    [true] exactly when every listed key passes (pruned at [now], it is not
    inside a block and its three windows are below capacity).  When the
    answer is [false], the three timestamp sequences of every key are what
    they were, or that pruned: none gains the event.  When the answer is
    [true], every listed key has its three sequences pruned and [now]
    appended to each of them, once per listing of the key. *)
Theorem checkRateLimitKeys_all_or_nothing keys now rl :
  let r := checkRateLimitKeys keys now rl in
  fst r = forallb (fun k => passes now (entryOf rl k)) keys
  ∧ (fst r = false → ∀ k,
       windows (entryOf (snd r) k) = windows (entryOf rl k)
       ∨ windows (entryOf (snd r) k) = windows (pruneEntry (entryOf rl k) now))
  ∧ (fst r = true → ∀ k, k ∈ keys →
       (1 ≤ occurrences k keys)%nat
       ∧ entryOf (snd r) k
         = recordN (occurrences k keys) (pruneEntry (entryOf rl k) now) now).
Proof.
  cbv zeta. split; [apply check_result|]. split.
  - intros Hf k.
    destruct (check_entry keys now rl k)
      as [[Hok _]|[(_ & _ & [-> | ->])|(_ & _ & ->)]].
    + congruence.
    + by left.
    + by right.
    + right. apply windows_strike.
  - intros Hok k Hin. split; [by apply occurrences_pos|].
    destruct (check_entry keys now rl k) as [[_ ->]|[(Hf & _)|(Hf & _)]];
      [|congruence..].
    by rewrite bool_decide_eq_true_2.
Qed.

Lemma keepWithin_length w now l : len (keepWithin w now l) ≤ len l.
Proof.
  unfold len, keepWithin. induction l as [|t l IH]; cbn [List.filter length]; [lia|].
  destruct (_ <? _); cbn [length]; lia.
Qed.

Lemma runChecks_cons keys now calls rl :
  runChecks ((keys, now) :: calls) rl
  = (fst (checkRateLimitKeys keys now rl)
       :: fst (runChecks calls (snd (checkRateLimitKeys keys now rl))),
     snd (runChecks calls (snd (checkRateLimitKeys keys now rl)))).
Proof. reflexivity. Qed.

(** One more accepted call on a key whose timestamps are all young. *)
Lemma young_cons k now rl l :
  entryOf rl k = mkEntry l l l 0 0 →
  0 ≤ now → Forall (fun t => now - t < RATE_SHORT_WINDOW) l →
  (length l < 5)%nat →
  ∃ rl', entryOf rl' k = mkEntry (l ++ [now]) (l ++ [now]) (l ++ [now]) 0 0
         ∧ ∀ calls, runChecks (([k], now) :: calls) rl
                    = (true :: fst (runChecks calls rl'), snd (runChecks calls rl')).
Proof.
  intros He Hnow Hl Hlen.
  destruct (young_step k now rl l He Hnow Hl Hlen) as [Hok He'].
  exists (snd (checkRateLimitKeys [k] now rl)). split; [exact He'|].
  intros calls. rewrite runChecks_cons. by rewrite Hok.
Qed.

(** Five calls on a key without history, within less than 10 s. *)
Lemma five_accepted rl k t1 t2 t3 t4 t5 :
  rl !! k = None →
  0 ≤ t1 → t1 ≤ t2 → t2 ≤ t3 → t3 ≤ t4 → t4 ≤ t5 →
  t5 - t1 < RATE_SHORT_WINDOW →
  ∃ rl5,
    entryOf rl5 k
    = mkEntry [t1; t2; t3; t4; t5] [t1; t2; t3; t4; t5] [t1; t2; t3; t4; t5] 0 0
    ∧ ∀ calls,
        runChecks (([k], t1) :: ([k], t2) :: ([k], t3) :: ([k], t4) :: ([k], t5) :: calls)
          rl
        = (true :: true :: true :: true :: true :: fst (runChecks calls rl5),
           snd (runChecks calls rl5)).
Proof.
  intros Hnone H0 H12 H23 H34 H45 Hspan. unfold RATE_SHORT_WINDOW in Hspan.
  assert (He0 : entryOf rl k = mkEntry [] [] [] 0 0) by (unfold entryOf; by rewrite Hnone).
  destruct (young_cons k t1 rl [] He0) as (rl1 & He1 & Hr1);
    [lia | constructor | cbn; lia |].
  destruct (young_cons k t2 rl1 _ He1) as (rl2 & He2 & Hr2);
    [lia | repeat constructor; unfold RATE_SHORT_WINDOW; lia | cbn; lia |].
  destruct (young_cons k t3 rl2 _ He2) as (rl3 & He3 & Hr3);
    [lia | repeat constructor; unfold RATE_SHORT_WINDOW; lia | cbn; lia |].
  destruct (young_cons k t4 rl3 _ He3) as (rl4 & He4 & Hr4);
    [lia | repeat constructor; unfold RATE_SHORT_WINDOW; lia | cbn; lia |].
  destruct (young_cons k t5 rl4 _ He4) as (rl5 & He5 & Hr5);
    [lia | repeat constructor; unfold RATE_SHORT_WINDOW; lia | cbn; lia |].
  exists rl5. split; [exact He5|]. intros calls.
  rewrite Hr1, Hr2, Hr3, Hr4, Hr5. reflexivity.
Qed.

(** A check on one key alone is decided by the block and the three windows
    of the key. *)
Lemma single_key_passes k now rl :
  blockedUntil (entryOf rl k) ≤ now →
  len (List.filter (fun t => now - t <? RATE_SHORT_WINDOW) (short (entryOf rl k)))
    < RATE_SHORT_MAX →
  len (List.filter (fun t => now - t <? RATE_MEDIUM_WINDOW) (medium (entryOf rl k)))
    < RATE_MEDIUM_MAX →
  len (List.filter (fun t => now - t <? RATE_DAILY_WINDOW) (daily (entryOf rl k)))
    < RATE_DAILY_MAX →
  fst (checkRateLimitKeys [k] now rl) = true.
Proof.
  intros Hb Hs Hm Hd. rewrite check_result. cbn [forallb]. rewrite andb_true_r.
  unfold passes. cbv zeta. cbn [pruneEntry short medium daily blockedUntil].
  unfold keepWithin.
  destruct (Z.gtb_spec (blockedUntil (entryOf rl k)) now); [lia|].
  destruct (Z.geb_spec (len (List.filter (fun t => now - t <? RATE_SHORT_WINDOW)
                               (short (entryOf rl k)))) RATE_SHORT_MAX); [lia|].
  destruct (Z.geb_spec (len (List.filter (fun t => now - t <? RATE_MEDIUM_WINDOW)
                               (medium (entryOf rl k)))) RATE_MEDIUM_MAX); [lia|].
  destruct (Z.geb_spec (len (List.filter (fun t => now - t <? RATE_DAILY_WINDOW)
                               (daily (entryOf rl k)))) RATE_DAILY_MAX); [lia|].
  done.
Qed.

(** C2.  On a key without history, six calls of [checkRateLimitKeys] on that
    key alone, at clock readings that do not decrease and span less than
    [RATE_SHORT_WINDOW] (10 s), are answered true five times and then false;
    a seventh call, made once 10 s or more have passed since the first, is
    answered true again, the first timestamp being dropped from the short
    window.  In any run of such calls at clock readings that do not
    decrease, no span of 10 s holds more than five accepted calls.  Any
    check listing a key whose short window holds 5 timestamps younger than
    10 s fails; and a check on a key alone succeeds when the key is not
    blocked and each of its windows holds fewer timestamps younger than the
    window than its capacity. *)
Theorem short_window_five_then_reject rl k t1 t2 t3 t4 t5 t6 :
  rl !! k = None →
  0 ≤ t1 → t1 ≤ t2 → t2 ≤ t3 → t3 ≤ t4 → t4 ≤ t5 → t5 ≤ t6 →
  t6 - t1 < RATE_SHORT_WINDOW →
  fst (runChecks [([k], t1); ([k], t2); ([k], t3); ([k], t4); ([k], t5); ([k], t6)] rl)
  = [true; true; true; true; true; false]
  ∧ (∀ t7, t6 ≤ t7 → RATE_SHORT_WINDOW ≤ t7 - t1 →
       fst (runChecks [([k], t1); ([k], t2); ([k], t3); ([k], t4); ([k], t5);
                       ([k], t6); ([k], t7)] rl)
       = [true; true; true; true; true; false; true])
  ∧ (∀ times, StronglySorted Z.le times →
       spanBound (acceptedTimes
                    (fst (runChecks (map (fun t => ([k], t)) times) rl)) times))
  ∧ (∀ keys now rl', k ∈ keys →
       RATE_SHORT_MAX
       ≤ len (List.filter (fun t => now - t <? RATE_SHORT_WINDOW)
                (short (entryOf rl' k))) →
       fst (checkRateLimitKeys keys now rl') = false)
  ∧ ∀ now rl',
      blockedUntil (entryOf rl' k) ≤ now →
      len (List.filter (fun t => now - t <? RATE_SHORT_WINDOW)
             (short (entryOf rl' k))) < RATE_SHORT_MAX →
      len (List.filter (fun t => now - t <? RATE_MEDIUM_WINDOW)
             (medium (entryOf rl' k))) < RATE_MEDIUM_MAX →
      len (List.filter (fun t => now - t <? RATE_DAILY_WINDOW)
             (daily (entryOf rl' k))) < RATE_DAILY_MAX →
      fst (checkRateLimitKeys [k] now rl') = true.
Proof.
  intros Hnone H0 H12 H23 H34 H45 H56 Hspan.
  assert (He0 : entryOf rl k = mkEntry [] [] [] 0 0) by (unfold entryOf; by rewrite Hnone).
  destruct (five_accepted rl k t1 t2 t3 t4 t5) as (rl5 & He5 & Hfive); try done.
  { unfold RATE_SHORT_WINDOW in *. lia. }
  assert (Hstop : stopsAtShort k [k] t6 rl5 = true).
  { cbn [stopsAtShort]. rewrite bool_decide_true by done.
    unfold shortRejected. rewrite He5.
    cbn [pruneEntry short medium daily burstStrikes blockedUntil].
    rewrite (keepWithin_all RATE_SHORT_WINDOW t6);
      [| repeat constructor; unfold RATE_SHORT_WINDOW in *; lia].
    destruct (Z.gtb_spec 0 t6); [lia|]. done. }
  destruct (strike_check [k] t6 rl5 k Hstop) as [Hsixth He6].
  rewrite He5 in He6. unfold pruneEntry in He6.
  cbn [short medium daily burstStrikes blockedUntil] in He6.
  rewrite !(keepWithin_all _ t6) in He6
    by (repeat constructor;
        unfold RATE_SHORT_WINDOW, RATE_MEDIUM_WINDOW, RATE_DAILY_WINDOW in *; lia).
  unfold strike in He6. cbn [burstStrikes short medium daily blockedUntil] in He6.
  change (0 + 1 >=? BURST_STRIKE_THRESHOLD) with false in He6. cbv iota in He6.
  split; [|split; [|split; [|split]]].
  - rewrite Hfive, runChecks_cons. cbn [fst]. by rewrite Hsixth.
  - intros t7 H67 Hold.
    rewrite Hfive, !runChecks_cons. cbn [fst]. rewrite Hsixth.
    repeat f_equal. apply single_key_passes; rewrite He6;
      cbn [burstStrikes short medium daily blockedUntil].
    + lia.
    + cbn [List.filter].
      destruct (Z.ltb_spec (t7 - t1) RATE_SHORT_WINDOW); [lia|].
      pose proof (keepWithin_length RATE_SHORT_WINDOW t7 [t2; t3; t4; t5]) as Hlen.
      unfold keepWithin in Hlen. cbn [List.filter] in Hlen.
      unfold len in Hlen at 2. cbn [length] in Hlen.
      unfold RATE_SHORT_MAX. lia.
    + pose proof (keepWithin_length RATE_MEDIUM_WINDOW t7 [t1; t2; t3; t4; t5]) as Hlen.
      unfold keepWithin in Hlen. unfold len in Hlen at 2. cbn [length] in Hlen.
      unfold RATE_MEDIUM_MAX. lia.
    + pose proof (keepWithin_length RATE_DAILY_WINDOW t7 [t1; t2; t3; t4; t5]) as Hlen.
      unfold keepWithin in Hlen. unfold len in Hlen at 2. cbn [length] in Hlen.
      unfold RATE_DAILY_MAX. lia.
  - intros times Hsorted. destruct times as [|t times]; [by intros from|].
    apply (run_spanBound k (t :: times) rl [] t t).
    + by rewrite He0.
    + lia.
    + constructor.
    + constructor; [done|]. constructor; [lia|].
      by apply StronglySorted_inv in Hsorted as [_ ?].
    + by intros from.
  - intros keys now rl' Hin Hfull. rewrite check_result.
    apply not_true_is_false. intros Hall. rewrite forallb_forall in Hall.
    specialize (Hall k). rewrite <- list_elem_of_In in Hall. specialize (Hall Hin).
    unfold passes in Hall. cbn [pruneEntry short] in Hall. unfold keepWithin in Hall.
    apply Z.geb_le in Hfull. rewrite Hfull in Hall.
    by rewrite !andb_false_r in Hall.
  - intros now rl'. apply single_key_passes.
Qed.

Lemma short_window_five_then_reject_witness :
  (∅ : gmap string RateEntry) !! "ip"%string = None
  ∧ 9999 - 0 < RATE_SHORT_WINDOW
  ∧ fst (runChecks [(["ip"%string], 0); (["ip"%string], 1000); (["ip"%string], 2000);
                    (["ip"%string], 3000); (["ip"%string], 4000); (["ip"%string], 9999)] ∅)
    = [true; true; true; true; true; false]
  ∧ fst (runChecks [(["ip"%string], 0); (["ip"%string], 1000); (["ip"%string], 2000);
                    (["ip"%string], 3000); (["ip"%string], 4000); (["ip"%string], 9999);
                    (["ip"%string], 10000)] ∅)
    = [true; true; true; true; true; false; true].
Proof.
  split; [reflexivity|]. split; [unfold RATE_SHORT_WINDOW; lia|].
  destruct (short_window_five_then_reject ∅ "ip"%string 0 1000 2000 3000 4000 9999)
    as (Hsix & Hseven & _);
    [reflexivity | unfold RATE_SHORT_WINDOW; lia ..|].
  split; [exact Hsix|]. apply Hseven; unfold RATE_SHORT_WINDOW; lia.
Defined.

(** C4.  When the strike counter of a key is at zero, three consecutive
    checks that are rejected at the short window of that key leave the key
    blocked until 60 s after the third, with the counter back at zero; and
    after any operations carried out before the block ends (checks on any
    keys, maintenance ticks), every check that lists the key and happens
    before the block ends fails, whatever its three windows hold. *)
Theorem three_strikes_block rl k keys1 t1 keys2 t2 keys3 t3 :
  let rl1 := snd (checkRateLimitKeys keys1 t1 rl) in
  let rl2 := snd (checkRateLimitKeys keys2 t2 rl1) in
  let rl3 := snd (checkRateLimitKeys keys3 t3 rl2) in
  burstStrikes (entryOf rl k) = 0 →
  stopsAtShort k keys1 t1 rl = true →
  stopsAtShort k keys2 t2 rl1 = true →
  stopsAtShort k keys3 t3 rl2 = true →
  blockedUntil (entryOf rl3 k) = t3 + BURST_COOLDOWN
  ∧ burstStrikes (entryOf rl3 k) = 0
  ∧ ∀ ops, Forall (fun op => opTime op < t3 + BURST_COOLDOWN) ops →
      ∀ keys now, k ∈ keys → now < t3 + BURST_COOLDOWN →
        fst (checkRateLimitKeys keys now (runOps ops rl3)) = false.
Proof.
  cbv zeta. intros H0 Hs1 Hs2 Hs3.
  destruct (strike_count _ _ _ _ 0 Hs1 H0) as [Hc1 _]; [done|].
  destruct (strike_count _ _ _ _ 1 Hs2 Hc1) as [Hc2 _]; [done|].
  destruct (strike_blocks _ _ _ _ Hs3) as [Hc3 Hb3]; [by rewrite Hc2|].
  split; [done|]. split; [done|].
  intros ops Hops keys now Hin Hnow.
  apply (blocked_check_fails keys now _ k Hin).
  rewrite block_persists; rewrite Hb3; done.
Qed.

Lemma three_strikes_block_witness :
  let rl3 := snd (runChecks [(["ip"%string], 5); (["ip"%string], 6); (["ip"%string], 7)]
                            fullTable) in
  blockedUntil (entryOf rl3 "ip"%string) = 60007
  ∧ burstStrikes (entryOf rl3 "ip"%string) = 0
  ∧ windows (pruneEntry (entryOf (runOps [Tick 15000; Check ["user"%string] 16000] rl3)
                                 "ip"%string) 20000) = ([], [0; 1; 2; 3; 4], [0; 1; 2; 3; 4])
  ∧ fst (checkRateLimitKeys ["user"%string; "ip"%string] 20000
           (runOps [Tick 15000; Check ["user"%string] 16000] rl3)) = false.
Proof.
  cbv zeta.
  pose proof (three_strikes_block fullTable "ip"%string
                ["ip"%string] 5 ["ip"%string] 6 ["ip"%string] 7) as H.
  cbv zeta in H.
  destruct H as (Hb & Hc & Hafter); [reflexivity | reflexivity ..|].
  split; [exact Hb|]. split; [exact Hc|]. split; [reflexivity|].
  apply Hafter.
  - repeat constructor.
  - right. left.
  - reflexivity.
Defined.

(** C10.  A call of [checkRateLimitKeys] that answers true leaves the strike
    counter and the block time of every key as they were; of a listed key it
    changes the three windows only (pruned, then [now] appended), of any
    other key nothing.  Hence strikes survive successful checks: from a
    counter at zero, three checks rejected at the short window of a key, with
    any runs of successful checks between them, block the key for 60 s
    after the third. *)
Theorem accepted_check_keeps_strikes :
  (∀ keys now rl k,
     fst (checkRateLimitKeys keys now rl) = true →
     burstStrikes (entryOf (snd (checkRateLimitKeys keys now rl)) k)
     = burstStrikes (entryOf rl k)
     ∧ blockedUntil (entryOf (snd (checkRateLimitKeys keys now rl)) k)
       = blockedUntil (entryOf rl k)
     ∧ windows (entryOf (snd (checkRateLimitKeys keys now rl)) k)
       = if bool_decide (k ∈ keys)
         then windows (recordN (occurrences k keys)
                               (pruneEntry (entryOf rl k) now) now)
         else windows (entryOf rl k))
  ∧ (∀ rl k keys1 t1 mid1 keys2 t2 mid2 keys3 t3,
       let rl1 := snd (checkRateLimitKeys keys1 t1 rl) in
       let rl1' := snd (runChecks mid1 rl1) in
       let rl2 := snd (checkRateLimitKeys keys2 t2 rl1') in
       let rl2' := snd (runChecks mid2 rl2) in
       let rl3 := snd (checkRateLimitKeys keys3 t3 rl2') in
       burstStrikes (entryOf rl k) = 0 →
       stopsAtShort k keys1 t1 rl = true →
       forallb id (fst (runChecks mid1 rl1)) = true →
       stopsAtShort k keys2 t2 rl1' = true →
       forallb id (fst (runChecks mid2 rl2)) = true →
       stopsAtShort k keys3 t3 rl2' = true →
       blockedUntil (entryOf rl3 k) = t3 + BURST_COOLDOWN
       ∧ burstStrikes (entryOf rl3 k) = 0
       ∧ ∀ keys now, k ∈ keys → now < t3 + BURST_COOLDOWN →
           fst (checkRateLimitKeys keys now rl3) = false).
Proof.
  split; [intros; by apply accepted_check_frame|].
  intros rl k keys1 t1 mid1 keys2 t2 mid2 keys3 t3. cbv zeta.
  intros H0 Hs1 Hm1 Hs2 Hm2 Hs3.
  destruct (strike_count _ _ _ _ 0 Hs1 H0) as [Hc1 _]; [done|].
  destruct (accepted_run_frame _ _ k Hm1) as [Hf1 _]. rewrite Hc1 in Hf1.
  destruct (strike_count _ _ _ _ 1 Hs2 Hf1) as [Hc2 _]; [done|].
  destruct (accepted_run_frame _ _ k Hm2) as [Hf2 _]. rewrite Hc2 in Hf2.
  destruct (strike_blocks _ _ _ _ Hs3) as [Hc3 Hb3]; [by rewrite Hf2|].
  split; [done|]. split; [done|].
  intros keys now Hin Hnow.
  apply (blocked_check_fails keys now _ k Hin). by rewrite Hb3.
Qed.

Lemma accepted_check_keeps_strikes_witness :
  let rl1 := snd (checkRateLimitKeys ["ip"%string] 5 fullTable) in
  let rl1' := snd (runChecks [(["ip"%string], 10000)] rl1) in
  let rl2 := snd (checkRateLimitKeys ["ip"%string] 10000 rl1') in
  let rl2' := snd (runChecks [(["ip"%string], 10001)] rl2) in
  let rl3 := snd (checkRateLimitKeys ["ip"%string] 10001 rl2') in
  fst (runChecks [(["ip"%string], 10000)] rl1) = [true]
  ∧ fst (runChecks [(["ip"%string], 10001)] rl2) = [true]
  ∧ burstStrikes (entryOf rl2' "ip"%string) = 2
  ∧ blockedUntil (entryOf rl3 "ip"%string) = 70001
  ∧ burstStrikes (entryOf rl3 "ip"%string) = 0.
Proof.
  cbv zeta.
  pose proof (proj2 accepted_check_keeps_strikes fullTable "ip"%string
                ["ip"%string] 5 [(["ip"%string], 10000)]
                ["ip"%string] 10000 [(["ip"%string], 10001)]
                ["ip"%string] 10001) as H.
  cbv zeta in H.
  destruct H as (Hb & Hc & _); [reflexivity ..|].
  split; [reflexivity|]. split; [reflexivity|]. split; [reflexivity|].
  split; [exact Hb | exact Hc].
Defined.

End RateLimiterFacts.

(** ** Session validator *)

Module SessionFacts.
Import Js Session SessionSpec.

Section WithPlatform.
Variable pf : Platform.
Variable cfg : Config.

Lemma differ_true a b : differ a b = true ↔ a ≠ b.
Proof.
  unfold differ. rewrite negb_true_iff. split.
  - intros H ->. by rewrite String.eqb_refl in H.
  - intros H. by apply String.eqb_neq.
Qed.

Lemma differ_refl a : differ a a = false.
Proof. unfold differ. by rewrite String.eqb_refl. Qed.

Lemma orNull_Some x s : orNull x = Some s → x = Some s ∧ truthy x = true ∧ s ≠ "".
Proof.
  unfold orNull. destruct (truthy x) eqn:E; [|done]. intros ->.
  split; [done|]. split; [done|]. cbn in E. apply negb_true_iff in E.
  by apply String.eqb_neq.
Qed.

(** A validation either leaves the table alone, inserts a row for a token
    id that had none, or touches the row of its token id. *)
Lemma validate_table claims host nowMs db :
  let r := validateTokenSession pf claims host nowMs db in
  let J := trim (TokenClaims.jti claims) in
  (fst r = false ∧ snd r = db)
  ∨ (fst r = true ∧ db !! J = None
     ∧ snd r = <[J := TokenSessionRecord.mk J (trim (TokenClaims.sub claims))
                        (Some (orElse (tokenSiteHost pf (TokenClaims.site claims)) host))
                        (Some host) (TokenClaims.exp claims) None
                        (nowMs / 1000) (nowMs / 1000)]> db)
  ∨ (fst r = true ∧ is_Some (db !! J) ∧ snd r = touchTokenSession J (nowMs / 1000) db).
Proof.
  cbv zeta. unfold validateTokenSession. cbv zeta.
  destruct (_ || _ || _); [by left|].
  destruct (_ && _); [by left|].
  destruct (_ && _); [by left|].
  unfold getTokenSession, insertTokenSession.
  destruct (db !! trim (TokenClaims.jti claims)) as [existing|] eqn:Hrow.
  - destruct (bool_decide _); [by left|].
    destruct (differ _ _); [by left|].
    destruct (_ <? _); [by left|].
    destruct (_ && _); [by left|].
    destruct (_ && _); [by left|].
    right. right. cbn [fst snd]. by eauto.
  - right. left. done.
Qed.

Lemma verify_table token origin nowMs db :
  let r := verifyToken pf cfg token origin nowMs db in
  (fst r = None ∧ snd r = db)
  ∨ ∃ claims host decoded,
      fst r = Some claims
      ∧ orNull (originHost pf origin) = Some host
      ∧ jwt_verify pf token nowMs = Some decoded
      ∧ isTokenClaims decoded = Some claims
      ∧ validateTokenSession pf claims host nowMs db = (true, snd r).
Proof.
  cbv zeta. unfold verifyToken.
  destruct (String.eqb token ""); [by left|].
  destruct (orNull (originHost pf origin)) as [host|] eqn:Hh; [|by left].
  destruct (negb _); [by left|].
  destruct (jwt_verify pf token nowMs) as [decoded|] eqn:Hd; [|by left].
  destruct (isTokenClaims decoded) as [claims|] eqn:Hc; [|by left].
  pose proof (validate_table claims host nowMs db) as Hv. cbv zeta in Hv.
  destruct (validateTokenSession pf claims host nowMs db) as [[] db'] eqn:Hval;
    cbn [fst snd] in *.
  - right. exists claims, host, decoded. done.
  - left. destruct Hv as [[_ ->]|[[? _]|[? _]]]; done.
Qed.








End WithPlatform.




End SessionFacts.

(** ** Connection gateway *)

Module GatewayFacts.
Import Js Gateway.

Section WithPlatform.
Variable pf : Platform.
Variable cfg : Config.

Lemma onMessage_dispatch c w raw nowMs msg :
  json_parse pf raw = Some msg → msg ≠ JNull →
  onMessage pf cfg c w raw nowMs = dispatch pf cfg c w msg nowMs.
Proof. intros Hp Hn. unfold onMessage. rewrite Hp. by destruct msg. Qed.

Lemma onMessage_cases c w raw nowMs :
  onMessage pf cfg c w raw nowMs = (c, w, [ConsoleError "[WS] Error:"])
  ∨ ∃ msg, onMessage pf cfg c w raw nowMs = dispatch pf cfg c w msg nowMs.
Proof.
  unfold onMessage. destruct (json_parse pf raw) as [msg|]; [|by left].
  destruct msg; eauto.
Qed.

(** A frame leaves an unauthenticated connection as it is, or authenticates
    it. *)
Lemma dispatch_unauthenticated c w msg nowMs :
  authenticated c = false →
  fst (fst (dispatch pf cfg c w msg nowMs)) = c
  ∨ authenticated (fst (fst (dispatch pf cfg c w msg nowMs))) = true.
Proof.
  intros Hu. unfold dispatch. rewrite Hu. cbn [negb]. unfold handleAuth.
  destruct (asString (prop msg "type")) as [type|]; [|by left].
  destruct (asString (prop msg "token")) as [token|]; [|by left].
  destruct (negb _); [by left|].
  destruct (Session.verifyToken _ _ _ _ _ _) as [[verified|] db]; [by right | by left].
Qed.

(** An authenticated connection stays authenticated. *)
Lemma dispatch_authenticated c w msg nowMs :
  authenticated c = true →
  authenticated (fst (fst (dispatch pf cfg c w msg nowMs))) = true.
Proof.
  intros Ha. unfold dispatch. rewrite Ha. cbn [negb].
  destruct (claims c); [|done].
  destruct (bool_decide _); [done|].
  destruct (visitorId c) as [[|ch rest]|]; [done| |done].
  destruct (bool_decide _).
  { unfold handleTyping. by destruct (_ >? _). }
  destruct (bool_decide _); [|done].
  unfold handleUserMessage.
  destruct (asString _); [|done].
  destruct (_ || _); [done|].
  destruct (RateLimiter.checkRateLimitKeys _ _ _) as [[] rl]; [|done].
  by destruct (Db.addMessage _ _ _ _ _ _ _).
Qed.

Lemma frames_authenticated (frames : list (string * Z)) c w :
  authenticated c = true →
  authenticated (fst (fst (deliverAll pf cfg c w
     (map (fun f => (Frame (fst f), snd f)) frames)))) = true.
Proof.
  revert c w. induction frames as [|[raw t] frames IH]; intros c w Ha; [done|].
  cbn [map deliverAll fst snd deliver].
  assert (authenticated (fst (fst (onMessage pf cfg c w raw t))) = true) as H1.
  { destruct (onMessage_cases c w raw t) as [->|[msg ->]]; [done|].
    by apply dispatch_authenticated. }
  destruct (onMessage pf cfg c w raw t) as [[c1 w1] out1]. cbn [fst] in H1.
  specialize (IH c1 w1 H1).
  destruct (deliverAll pf cfg c1 w1 _) as [[c2 w2] out2]. done.
Qed.

(** Frames that do not authenticate a connection leave its variables as
    they were. *)
Lemma frames_unauthenticated (frames : list (string * Z)) c w :
  authenticated c = false →
  authenticated (fst (fst (deliverAll pf cfg c w
     (map (fun f => (Frame (fst f), snd f)) frames)))) = false →
  fst (fst (deliverAll pf cfg c w
     (map (fun f => (Frame (fst f), snd f)) frames))) = c.
Proof.
  revert c w. induction frames as [|[raw t] frames IH]; intros c w Hu; [done|].
  cbn [map deliverAll fst snd deliver].
  assert (fst (fst (onMessage pf cfg c w raw t)) = c
          ∨ authenticated (fst (fst (onMessage pf cfg c w raw t))) = true) as Hstep.
  { destruct (onMessage_cases c w raw t) as [->|[msg ->]]; [by left|].
    by apply dispatch_unauthenticated. }
  destruct (onMessage pf cfg c w raw t) as [[c1 w1] out1]. cbn [fst] in Hstep.
  pose proof (IH c1 w1) as IH1. pose proof (frames_authenticated frames c1 w1) as Hk.
  destruct (deliverAll pf cfg c1 w1 _) as [[c2 w2] out2]. cbn [fst] in *.
  intros Hu2. destruct Hstep as [->|Ha1]; [by apply IH1|].
  specialize (Hk Ha1). congruence.
Qed.

End WithPlatform.

(** C5.  On an [init] frame from an authenticated socket nothing depends on
    the field [visitorId] of the frame: two frames that agree on every other
    field give the same connection variables, the same tables and the same
    replies.  The visitor id is the subject of the verified token; the row of
    that visitor is upserted, the socket joins the set of that visitor in
    [clients], and the replies are [init{visitorId}] and then the presence
    frame. *)
Theorem init_ignores_client_visitor_id pf cfg c w nowMs raw1 raw2
    fields1 fields2 verified :
  authenticated c = true → claims c = Some verified →
  json_parse pf raw1 = Some (JObj fields1) →
  json_parse pf raw2 = Some (JObj fields2) →
  field "type" fields1 = Some (JStr "init") →
  (∀ name, name ≠ "visitorId" → field name fields1 = field name fields2) →
  let sub := TokenClaims.sub verified in
  let r := onMessage pf cfg c w raw1 nowMs in
  onMessage pf cfg c w raw2 nowMs = r
  ∧ visitorId (fst (fst r)) = Some sub
  ∧ visitors (snd (fst r))
    = Db.upsertVisitor sub (orNull (TokenClaims.name verified))
        (Some (siteFromClaims pf verified (SITE_NAME cfg)))
        (orNull (TokenClaims.email verified))
        (authTypeFromClaims verified) (nowMs / 1000) (visitors w)
  ∧ clients (snd (fst r))
    = <[sub := setAdd (ws c) (default [] (clients w !! sub))]> (clients w)
  ∧ snd r
    = [WsSend (ws c) (JObj [("type", JStr "init"); ("visitorId", JStr sub)]);
       WsSend (ws c)
         (JObj [("type", JStr "presence");
                ("presence", buildSupportPresencePayload pf (snd (fst r)) nowMs)])].
Proof.
  intros Ha Hc Hp1 Hp2 Ht Hsame. cbv zeta.
  assert (Ht2 : field "type" fields2 = Some (JStr "init"))
    by (rewrite <- Hsame; done).
  rewrite (onMessage_dispatch pf cfg c w raw1 nowMs _ Hp1) by done.
  rewrite (onMessage_dispatch pf cfg c w raw2 nowMs _ Hp2) by done.
  unfold dispatch. rewrite Ha, Hc. cbn [negb prop]. rewrite Ht, Ht2.
  cbn [asString]. rewrite bool_decide_eq_true_2 by done.
  unfold handleInit. cbv zeta. cbn [fst snd visitorId visitors clients]. done.
Qed.

Lemma init_ignores_client_visitor_id_witness :
  let c := fst Demo.authed in
  let w := snd Demo.authed in
  onMessage Demo.platform Demo.config c w Demo.spoofedInitFrame 2000
  = onMessage Demo.platform Demo.config c w Demo.initFrame 2000
  ∧ visitorId (fst (fst (onMessage Demo.platform Demo.config c w
                           Demo.spoofedInitFrame 2000))) = Some "u1".
Proof.
  cbv zeta.
  pose proof (init_ignores_client_visitor_id Demo.platform Demo.config
                (fst Demo.authed) (snd Demo.authed) 2000
                Demo.initFrame Demo.spoofedInitFrame
                [("type", JStr "init")]
                [("type", JStr "init"); ("visitorId", JStr "someone-else")]
                (TokenClaims.mk "u1" "J" 100 None None None None None)) as H.
  cbv zeta in H.
  destruct H as (Hsame & Hid & _); [reflexivity .. | |].
  - intros name Hname. cbn [field].
    destruct (String.eqb "type" name); [done|].
    destruct (String.eqb "visitorId" name) eqn:E; [|done].
    apply String.eqb_eq in E. congruence.
  - split; [exact Hsame|]. rewrite Hsame. exact Hid.
Defined.

(** C7, as the code has it.  A socket that has not authenticated when its
    timer is due, 5 s after it was opened, is closed with code 4001.  While a
    socket is unauthenticated, a frame that parses to a value other than
    [null] closes it with code 4001 when it is not an [auth] frame with a
    string token, or when the token fails verification against the origin of
    the socket.  A frame that does not parse, or parses to [null], is logged
    and changes nothing: the socket stays as it was. *)
Theorem auth_required_close pf cfg :
  (∀ s origin ip t0 w (frames : list (string * Z)) now,
     let r := deliverAll pf cfg (onConnection s origin ip t0) w
                (map (fun f => (Frame (fst f), snd f)) frames) in
     authenticated (fst (fst r)) = false → t0 + AUTH_TIMEOUT ≤ now →
     snd (deliver pf cfg (fst (fst r)) (snd (fst r)) TimerDue now)
     = [WsClose s 4001 "Authentication required"])
  ∧ (∀ c w raw now msg,
       authenticated c = false → json_parse pf raw = Some msg → msg ≠ JNull →
       asString (prop msg "type") ≠ Some "auth"
       ∨ asString (prop msg "token") = None
       ∨ (∃ token, asString (prop msg "token") = Some token
                   ∧ fst (Session.verifyToken pf cfg token (origin c) now
                            (tokenSessions w)) = None) →
       snd (onMessage pf cfg c w raw now)
       = [WsClose (ws c) 4001 "Authentication required"])
  ∧ (∀ c w raw now,
       json_parse pf raw = None ∨ json_parse pf raw = Some JNull →
       onMessage pf cfg c w raw now = (c, w, [ConsoleError "[WS] Error:"])).
Proof.
  split; [|split].
  - intros s origin ip t0 w frames now. cbv zeta. intros Hu Hnow.
    rewrite (frames_unauthenticated pf cfg frames (onConnection s origin ip t0) w
               (eq_refl false) Hu).
    cbn [deliver onConnection authTimeoutPending authDeadline andb].
    destruct (Z.leb_spec (t0 + AUTH_TIMEOUT) now); [|lia]. done.
  - intros c w raw now msg Hu Hp Hn Hwhy.
    rewrite (onMessage_dispatch pf cfg c w raw now _ Hp Hn).
    unfold dispatch. rewrite Hu. cbn [negb]. unfold handleAuth.
    destruct (asString (prop msg "type")) as [type|] eqn:Ht; [|done].
    destruct (asString (prop msg "token")) as [token|] eqn:Hk; [|done].
    destruct (negb (String.eqb type "auth")) eqn:Hty; [done|].
    apply negb_false_iff, String.eqb_eq in Hty as ->.
    destruct Hwhy as [Hw|[Hw|(token' & Htk & Hv)]]; [done|done|].
    injection Htk as <-.
    destruct (Session.verifyToken _ _ _ _ _ _) as [[verified|] db]; [done|done].
  - intros c w raw now [Hp|Hp]; unfold onMessage; by rewrite Hp.
Qed.

Lemma auth_required_close_witness :
  snd (deliver Demo.platform Demo.config Demo.conn0 Demo.world0 TimerDue 5000)
  = [WsClose 1 4001 "Authentication required"]
  ∧ snd (onMessage Demo.platform Demo.config Demo.conn0 Demo.world0 Demo.initFrame 1000)
    = [WsClose 1 4001 "Authentication required"]
  ∧ snd (onMessage Demo.platform Demo.config Demo.conn0 Demo.world0
           (Demo.objectText [("type", "auth"); ("token", "forged")]) 1000)
    = [WsClose 1 4001 "Authentication required"].
Proof.
  destruct (auth_required_close Demo.platform Demo.config) as (Htimer & Hframe & _).
  split; [|split].
  - apply (Htimer 1%nat "https://a.example" "10.0.0.1" 0 Demo.world0 [] 5000);
      [reflexivity | unfold AUTH_TIMEOUT; lia].
  - apply (Hframe Demo.conn0 Demo.world0 Demo.initFrame 1000
             (JObj [("type", JStr "init")])); [reflexivity | reflexivity | done |].
    left. cbn. congruence.
  - apply (Hframe Demo.conn0 Demo.world0 _ 1000
             (JObj [("type", JStr "auth"); ("token", JStr "forged")]));
      [reflexivity | reflexivity | done |].
    right. right. exists "forged". split; reflexivity.
Defined.

(** C7, as it is worded, fails on a frame that is not JSON: the socket is
    not closed, and it can still authenticate afterwards. *)
Lemma ill_formed_frame_keeps_socket :
  let r1 := onMessage Demo.platform Demo.config Demo.conn0 Demo.world0 "not json" 1000 in
  let r2 := onMessage Demo.platform Demo.config (fst (fst r1)) (snd (fst r1))
              Demo.authFrame 2000 in
  authenticated Demo.conn0 = false
  ∧ json_parse Demo.platform "not json" = None
  ∧ snd r1 = [ConsoleError "[WS] Error:"]
  ∧ openSockets (snd (fst r1)) = {[1%nat]}
  ∧ snd r2 = [WsSend 1 (JObj [("type", JStr "auth_ok")])]
  ∧ authenticated (fst (fst r2)) = true.
Proof. vm_compute. repeat split; reflexivity. Qed.

End GatewayFacts.

(** ** Message history *)

Module DbFacts.
Import Db DbSpec.

Lemma insertByCreatedAt_perm tieBreak m l :
  insertByCreatedAt tieBreak m l ≡ₚ m :: l.
Proof.
  induction l as [|x l IH]; cbn [insertByCreatedAt]; [done|].
  destruct (_ || _); [done|]. rewrite IH. apply Permutation_swap.
Qed.

Lemma orderByCreatedAt_perm tieBreak l : orderByCreatedAt tieBreak l ≡ₚ l.
Proof.
  induction l as [|x l IH]; [done|].
  unfold orderByCreatedAt in *. cbn [fold_right].
  rewrite insertByCreatedAt_perm. by rewrite IH.
Qed.

Lemma insertByCreatedAt_sorted tieBreak m l :
  StronglySorted notYounger l →
  StronglySorted notYounger (insertByCreatedAt tieBreak m l).
Proof.
  induction 1 as [|x l Hl IH Hx]; cbn [insertByCreatedAt].
  { repeat constructor. }
  destruct (Z.ltb_spec (msg_created_at m) (msg_created_at x)) as [Hlt|Hge];
    [|destruct (Z.eqb_spec (msg_created_at m) (msg_created_at x)) as [Heq|Hne];
      [destruct (tieBreak m x)|]]; cbn [orb andb].
  1,2: constructor; [by constructor|]; constructor; [unfold notYounger; lia|];
       eapply Forall_impl; [exact Hx|]; unfold notYounger; intros; cbn in *; lia.
  all: constructor; [done|];
       rewrite Forall_forall in *; intros y Hy;
       rewrite insertByCreatedAt_perm in Hy;
       apply elem_of_cons in Hy as [->|Hy]; [unfold notYounger; lia|];
       by apply Hx.
Qed.

Lemma orderByCreatedAt_sorted tieBreak l :
  StronglySorted notYounger (orderByCreatedAt tieBreak l).
Proof.
  induction l as [|x l IH]; [constructor|].
  unfold orderByCreatedAt in *. cbn [fold_right]. by apply insertByCreatedAt_sorted.
Qed.

(** Rows that are already in the order the engine returns them in are
    returned as they are. *)
Lemma orderByCreatedAt_id tieBreak l :
  StronglySorted (goesFirst tieBreak) l → orderByCreatedAt tieBreak l = l.
Proof.
  induction 1 as [|x l Hl IH Hx]; [done|].
  unfold orderByCreatedAt in *. cbn [fold_right]. rewrite IH.
  destruct l as [|y l]; [done|]. cbn [insertByCreatedAt].
  apply Forall_cons in Hx as [Hxy _]. unfold goesFirst in Hxy.
  destruct Hxy as [Hlt|[Heq Htie]].
  - destruct (Z.ltb_spec (msg_created_at x) (msg_created_at y)); [done | lia].
  - rewrite Htie, Heq, Z.eqb_refl. by rewrite orb_true_r.
Qed.

Lemma sorted_weaken {A} (R Q : A → A → Prop) l :
  (∀ a b, a ∈ l → b ∈ l → R a b → Q a b) →
  StronglySorted R l → StronglySorted Q l.
Proof.
  intros HRQ Hs. induction Hs as [|x l Hl IH Hx]; [constructor|].
  constructor.
  - apply IH. intros a b Ha Hb. apply HRQ; by right.
  - rewrite Forall_forall in *. intros y Hy. apply HRQ; [by left | by right |].
    by apply Hx.
Qed.

(** In a table whose ids and creation seconds both follow table order, a
    row created in an earlier second has the smaller id. *)
Lemma earlier_second_smaller_id l a b :
  StronglySorted idBelow l → StronglySorted notYounger l →
  a ∈ l → b ∈ l → msg_created_at a < msg_created_at b → msg_id a < msg_id b.
Proof.
  intros Hid Hcr. revert Hcr.
  induction Hid as [|x l Hl IH Hx]; intros Hcr Ha Hb Hlt.
  { by apply elem_of_nil in Ha. }
  apply StronglySorted_inv in Hcr as [Hcr Hxc].
  rewrite Forall_forall in Hx, Hxc.
  apply elem_of_cons in Ha as [->|Ha]; apply elem_of_cons in Hb as [->|Hb].
  - lia.
  - by apply Hx.
  - specialize (Hxc a Ha). unfold notYounger in Hxc. lia.
  - by apply IH.
Qed.

Lemma sorted_both {A} (R Q : A → A → Prop) l :
  StronglySorted R l → StronglySorted Q l →
  StronglySorted (fun a b => R a b ∧ Q a b) l.
Proof.
  induction 1 as [|x l Hl IH Hx]; intros HQ; [constructor|].
  apply StronglySorted_inv in HQ as [HQ Hq]. constructor; [by apply IH|].
  rewrite Forall_forall in *. intros y Hy. split; [by apply Hx | by apply Hq].
Qed.

Lemma sorted_cases {A} (R : A → A → Prop) l a b :
  StronglySorted R l → a ∈ l → b ∈ l → a = b ∨ R a b ∨ R b a.
Proof.
  induction 1 as [|x l Hl IH Hx]; intros Ha Hb; [by apply elem_of_nil in Ha|].
  rewrite Forall_forall in Hx.
  apply elem_of_cons in Ha as [->|Ha]; apply elem_of_cons in Hb as [->|Hb].
  - by left.
  - right. left. by apply Hx.
  - right. right. by apply Hx.
  - by apply IH.
Qed.

(** Rows with distinct ids are in the order of their places. *)
Lemma before_sorted l :
  NoDup (map msg_id l) → StronglySorted (before l) l.
Proof.
  induction l as [|x l IH]; [constructor|]. cbn [map].
  intros [Hx Hl]%NoDup_cons. constructor.
  - apply (sorted_weaken (before l)); [|by apply IH].
    intros a b Ha Hb Hab. unfold before in *. cbn [map rankOf].
    assert (∀ y, y ∈ l → (msg_id x =? msg_id y) = false) as Hne.
    { intros y Hy. apply Z.eqb_neq. intros Heq. apply Hx. rewrite Heq.
      apply list_elem_of_In, in_map. by apply list_elem_of_In. }
    rewrite !Hne by done. lia.
  - apply Forall_forall. intros y Hy. unfold before. cbn [map rankOf].
    rewrite Z.eqb_refl.
    destruct (Z.eqb_spec (msg_id x) (msg_id y)) as [Heq|_]; [|lia].
    exfalso. apply Hx. rewrite Heq. apply list_elem_of_In, in_map.
    by apply list_elem_of_In.
Qed.

(** For rows of [target], the test of [insertByCreatedAt] with the engine
    of [target] tells which of the two comes first in [target]. *)
Lemma tieBreakOf_test target a b :
  NoDup (map msg_id target) → StronglySorted notYounger target →
  a ∈ target → b ∈ target →
  (msg_created_at a <? msg_created_at b)
  || ((msg_created_at a =? msg_created_at b) && tieBreakOf target a b) = true
  ↔ before target a b.
Proof.
  intros Hnd Hs Ha Hb.
  pose proof (sorted_both _ _ _ (before_sorted target Hnd) Hs) as Hboth.
  unfold tieBreakOf.
  destruct (sorted_cases _ _ a b Hboth Ha Hb) as [->|[[Hab Hc]|[Hba Hc]]];
    unfold before, notYounger in *.
  - rewrite Z.ltb_irrefl, Z.eqb_refl. cbn [orb andb].
    rewrite Nat.ltb_lt. done.
  - split; [done|]. intros _.
    destruct (Z.ltb_spec (msg_created_at a) (msg_created_at b)); [done|].
    assert (msg_created_at a = msg_created_at b) as -> by lia.
    rewrite Z.eqb_refl. cbn [orb andb]. by apply Nat.ltb_lt.
  - split; [|lia]. intros Ht. exfalso.
    apply orb_true_iff in Ht as [Ht|Ht]; [apply Z.ltb_lt in Ht; lia|].
    apply andb_true_iff in Ht as [_ Ht]. apply Nat.ltb_lt in Ht. lia.
Qed.

Lemma insertByCreatedAt_before target m l :
  NoDup (map msg_id target) → StronglySorted notYounger target →
  m ∈ target → (∀ y, y ∈ l → y ∈ target) → m ∉ l →
  StronglySorted (before target) l →
  StronglySorted (before target) (insertByCreatedAt (tieBreakOf target) m l).
Proof.
  intros Hnd Hs Hm Hl Hnotin Hsorted.
  induction Hsorted as [|x l Hsl IH Hx]; cbn [insertByCreatedAt].
  { repeat constructor. }
  apply not_elem_of_cons in Hnotin as [Hmx Hnotin].
  assert (Hxt : x ∈ target) by (apply Hl; by left).
  pose proof (tieBreakOf_test target m x Hnd Hs Hm Hxt) as Htest.
  destruct (_ || _).
  - assert (Hmx' : before target m x) by by apply Htest.
    constructor; [by constructor|]. constructor; [done|].
    eapply Forall_impl; [exact Hx|]. unfold before in *. intros; cbn in *. lia.
  - constructor; [apply IH; [intros y Hy; apply Hl; by right | done]|].
    apply Forall_forall. intros y Hy. rewrite insertByCreatedAt_perm in Hy.
    apply elem_of_cons in Hy as [->|Hy]; [|rewrite Forall_forall in Hx; by apply Hx].
    destruct (sorted_cases _ _ m x (before_sorted target Hnd) Hm Hxt)
      as [->|[Hyx|Hxy]]; [done| |done].
    apply Htest in Hyx. done.
Qed.

(** The order among rows of the same second is free: every arrangement of
    the rows that is ascending in [created_at] is the answer of
    [orderByCreatedAt] for some engine. *)
Lemma every_ascending_order_is_an_answer rows target :
  NoDup (map msg_id rows) → target ≡ₚ rows → StronglySorted notYounger target →
  orderByCreatedAt (tieBreakOf target) rows = target.
Proof.
  intros Hnd Hperm Hs.
  assert (Hndt : NoDup (map msg_id target)) by by rewrite Hperm.
  apply (StronglySorted_unique_strong (before target)).
  - unfold before. intros; lia.
  - assert (Hin : ∀ y, y ∈ rows → y ∈ target) by (intros y; by rewrite Hperm).
    clear Hperm. induction rows as [|m rows IH]; [constructor|].
    cbn [map] in Hnd. apply NoDup_cons in Hnd as [Hm Hnd].
    change (orderByCreatedAt (tieBreakOf target) (m :: rows))
      with (insertByCreatedAt (tieBreakOf target) m
              (orderByCreatedAt (tieBreakOf target) rows)).
    apply insertByCreatedAt_before; try done.
    + apply Hin. by left.
    + intros y Hy. rewrite (orderByCreatedAt_perm _ rows) in Hy. apply Hin. by right.
    + intros Hy. rewrite (orderByCreatedAt_perm _ rows) in Hy. apply Hm.
      apply list_elem_of_In, in_map. by apply list_elem_of_In.
    + apply IH; [done|]. intros y Hy. apply Hin. by right.
  - by apply before_sorted.
  - by rewrite orderByCreatedAt_perm.
Qed.

Lemma filter_sorted {A} (R : A → A → Prop) (f : A → bool) l :
  StronglySorted R l → StronglySorted R (List.filter f l).
Proof.
  induction 1 as [|x l Hl IH Hx]; cbn [List.filter]; [constructor|].
  destruct (f x); [|done]. constructor; [done|].
  rewrite Forall_forall in *. intros y Hy. apply Hx.
  apply list_elem_of_In. apply list_elem_of_In in Hy.
  by apply filter_In in Hy as [Hy _].
Qed.

Lemma insertAll_snoc inserts i :
  insertAll (inserts ++ [i]) = insertOne (insertAll inserts) i.
Proof. unfold insertAll. by rewrite foldl_app. Qed.

Lemma nextId_above messages :
  Forall (fun m => msg_id m < nextId messages) messages.
Proof.
  unfold nextId. induction messages as [|m l IH]; [constructor|].
  cbn [fold_right]. constructor; [lia|].
  eapply Forall_impl; [exact IH|]. intros; cbn in *. lia.
Qed.

(** In the table the ids increase from each row to the next. *)
Lemma insertAll_ids inserts : StronglySorted idBelow (insertAll inserts).
Proof.
  induction inserts as [|i inserts IH] using rev_ind; [constructor|].
  rewrite insertAll_snoc. unfold insertOne, addMessage. cbn [fst].
  apply StronglySorted_app. split; [|split; [done | repeat constructor]].
  intros a b Ha ->%list_elem_of_singleton. unfold idBelow. cbn [msg_id].
  pose proof (nextId_above (insertAll inserts)) as Hn.
  rewrite Forall_forall in Hn. by apply Hn.
Qed.

Lemma insertAll_created inserts :
  map msg_created_at (insertAll inserts) = map ins_now inserts.
Proof.
  induction inserts as [|i inserts IH] using rev_ind; [done|].
  rewrite insertAll_snoc. unfold insertOne, addMessage. cbn [fst].
  by rewrite !map_app, IH.
Qed.

Lemma sorted_created l :
  StronglySorted Z.le (map msg_created_at l) → StronglySorted notYounger l.
Proof.
  induction l as [|x l IH]; [constructor|]. cbn [map].
  intros [Hl Hx]%StronglySorted_inv. constructor; [by apply IH|].
  rewrite Forall_forall in Hx. apply Forall_forall. intros y Hy. apply Hx.
  apply list_elem_of_In, in_map. by apply list_elem_of_In.
Qed.

(** A token that passes [verifyToken] names a subject. *)
Lemma verified_subject pf cfg token origin nowMs db claims db' :
  Session.verifyToken pf cfg token origin nowMs db = (Some claims, db') →
  TokenClaims.sub claims ≠ "".
Proof.
  intros Hv.
  destruct (SessionFacts.verify_table pf cfg token origin nowMs db)
    as [[Hf _]|(c & host & decoded & Hc & _ & _ & _ & Hval)];
    rewrite Hv in *; cbn [fst snd] in *; [done|].
  injection Hc as <-. unfold Session.validateTokenSession in Hval. cbv zeta in Hval.
  destruct (String.eqb (Js.trim (TokenClaims.jti claims)) ""); [done|].
  destruct (String.eqb (Js.trim (TokenClaims.sub claims)) "") eqn:Hs; [done|].
  intros Hempty. rewrite Hempty in Hs. done.
Qed.

(** C8, as the code has it.  With a valid token whose subject is the path
    parameter, the history route answers with all the rows of that visitor,
    none added, lost or merged, in ascending order of their creation second;
    this holds whichever order the database engine gives to rows of the same
    second.  The ids of those rows increase in table order, the order the
    messages were accepted in.  When the clock readings of the inserts never
    decrease, two rows of the answer that were not created in the same
    second are in the order of their ids, and the whole answer is in that
    order if moreover the engine keeps rows of the same second in table
    order.  The answer is in table order whenever the creation seconds of
    the visitor's rows strictly increase. *)
Theorem history_ordered_by_creation pf cfg tieBreak authorization origin nowMs db
    claims db' inserts :
  Http.requireAuth pf cfg authorization origin nowMs db = (Some claims, db') →
  let visitorId := TokenClaims.sub claims in
  let messages := insertAll inserts in
  ∃ history,
    fst (Http.getHistoryRoute pf cfg tieBreak authorization origin visitorId nowMs db
           messages)
    = Http.History history
    ∧ history ≡ₚ rowsOf visitorId messages
    ∧ StronglySorted notYounger history
    ∧ StronglySorted idBelow (rowsOf visitorId messages)
    ∧ (StronglySorted Z.le (map ins_now inserts) →
       StronglySorted idBelowOrSameSecond history
       ∧ ((∀ a b, tieBreak a b = true) → history = rowsOf visitorId messages))
    ∧ (StronglySorted Z.lt (map msg_created_at (rowsOf visitorId messages)) →
       history = rowsOf visitorId messages).
Proof.
  intros Hauth. cbv zeta.
  pose proof (verified_subject _ _ _ _ _ _ _ _ Hauth) as Hsub.
  exists (getHistory tieBreak (TokenClaims.sub claims) (insertAll inserts)).
  split.
  { unfold Http.getHistoryRoute. rewrite Hauth. unfold Http.resolveVisitorId.
    apply String.eqb_neq in Hsub. rewrite Hsub, String.eqb_refl. done. }
  unfold getHistory. fold (rowsOf (TokenClaims.sub claims) (insertAll inserts)).
  set (rows := rowsOf (TokenClaims.sub claims) (insertAll inserts)).
  assert (Hids : StronglySorted idBelow rows) by apply filter_sorted, insertAll_ids.
  split; [apply orderByCreatedAt_perm|].
  split; [apply orderByCreatedAt_sorted|].
  split; [exact Hids|].
  split.
  - intros Hclock.
    assert (Hcr : StronglySorted notYounger rows).
    { apply filter_sorted, sorted_created. by rewrite insertAll_created. }
    split.
    + apply (sorted_weaken notYounger); [|apply orderByCreatedAt_sorted].
      intros a b Ha Hb Hab. rewrite orderByCreatedAt_perm in Ha, Hb.
      unfold notYounger in Hab. unfold idBelowOrSameSecond.
      destruct (decide (msg_created_at a = msg_created_at b)) as [|Hne]; [by left|].
      right. apply (earlier_second_smaller_id rows); try done. lia.
    + intros Htie. apply orderByCreatedAt_id.
      apply (sorted_weaken notYounger); [|exact Hcr].
      intros a b _ _ Hab. unfold notYounger in Hab. unfold goesFirst.
      destruct (decide (msg_created_at a = msg_created_at b)) as [|Hne];
        [right; by rewrite Htie | left; lia].
  - intros Hstrict. apply orderByCreatedAt_id.
    assert (Hlt : StronglySorted (fun a b => msg_created_at a < msg_created_at b) rows).
    { clear -Hstrict. induction rows as [|x l IH]; [constructor|]. cbn [map] in Hstrict.
      apply StronglySorted_inv in Hstrict as [Hl Hx]. constructor; [by apply IH|].
      rewrite Forall_forall in Hx. apply Forall_forall. intros y Hy. apply Hx.
      apply list_elem_of_In, in_map. by apply list_elem_of_In. }
    apply (sorted_weaken (fun a b => msg_created_at a < msg_created_at b)); [|exact Hlt].
    intros a b _ _ Hab. by left.
Qed.

Lemma history_ordered_by_creation_witness :
  let inserts := [mkInsert "u1" visitor "a" text None 5;
                  mkInsert "u2" visitor "x" text None 5;
                  mkInsert "u1" agent "b" text None 6;
                  mkInsert "u1" visitor "c" text None 9] in
  ∃ history,
    fst (Http.getHistoryRoute Demo.platform Demo.config (fun a b => false) "Bearer T1"
           "https://a.example" "u1" 10000 ∅ (insertAll inserts))
    = Http.History history
    ∧ map msg_id history = [1; 3; 4]
    ∧ map content history = ["a"; "b"; "c"].
Proof.
  cbv zeta.
  destruct (history_ordered_by_creation Demo.platform Demo.config (fun a b => false)
              "Bearer T1" "https://a.example" 10000 ∅
              (TokenClaims.mk "u1" "J" 100 None None None None None)
              (snd (Http.requireAuth Demo.platform Demo.config "Bearer T1"
                      "https://a.example" 10000 ∅))
              [mkInsert "u1" visitor "a" text None 5;
               mkInsert "u2" visitor "x" text None 5;
               mkInsert "u1" agent "b" text None 6;
               mkInsert "u1" visitor "c" text None 9])
    as (history & Hroute & _ & _ & _ & _ & Horder); [vm_compute; reflexivity|].
  exists history. split; [exact Hroute|].
  rewrite Horder; [split; reflexivity|].
  vm_compute. repeat constructor.
Defined.

(** C8, as it is worded, fails when the clock steps back between two
    inserts: the history is returned by creation second, the later id
    first, also by an engine that keeps rows of the same second in table
    order. *)
Lemma history_not_in_id_order :
  let inserts := [mkInsert "u1" visitor "a" text None 100;
                  mkInsert "u1" visitor "b" text None 50] in
  map msg_id (insertAll inserts) = [1; 2]
  ∧ fst (Http.getHistoryRoute Demo.platform Demo.config tiesInTableOrder "Bearer T1"
           "https://a.example" "u1" 10000 ∅ (insertAll inserts))
    = Http.History [mkMessage 2 "u1" visitor "b" text None 50;
                    mkMessage 1 "u1" visitor "a" text None 100].
Proof. vm_compute. split; reflexivity. Qed.

End DbFacts.

(** ** Topic bridge *)

Module TelegramFacts.
Import Js Telegram TelegramSpec.

Section WithEnv.
Variable env : BotEnv.

Lemma sendToTopicId_call content type fileUrl topicId b group :
  bot b = true → truthyNum (groupId b) = Some group →
  sendToTopicId env content type fileUrl topicId b
  = match sendCallOf env content type fileUrl group topicId with
    | inl error => (Some error, b)
    | inr call =>
        match respond env (calls b) call with
        | Resolved _ => (None, snd (callBot env call b))
        | Rejected error => (Some error, snd (callBot env call b))
        end
    end.
Proof.
  intros Hb Hg. unfold sendToTopicId, sendCallOf. rewrite Hb, Hg.
  destruct type, (orNull fileUrl) as [url|];
    try (cbn [callBot fst snd]; by destruct (respond env (calls b) _));
    destruct (requireMediaFilePath env url); try done;
    cbn [callBot fst snd]; by destruct (respond env (calls b) _).
Qed.

(** Whether a send reaches the bot does not depend on the thread. *)
Lemma sendCallOf_thread content type fileUrl group t1 t2 call1 :
  sendCallOf env content type fileUrl group t1 = inr call1 →
  ∃ call2, sendCallOf env content type fileUrl group t2 = inr call2.
Proof.
  unfold sendCallOf.
  destruct type, (orNull fileUrl) as [url|]; try by eauto.
  all: destruct (requireMediaFilePath env url); [done | by eauto].
Qed.

Lemma truthyNum_Some x n : truthyNum x = Some n → x = Some n ∧ n ≠ 0.
Proof.
  unfold truthyNum. destruct x as [m|]; [|done].
  destruct (Z.eqb_spec m 0); [done|]. by intros [= ->].
Qed.

(** [createTopicForVisitor] for a visitor without a cached thread: one
    [createForumTopic] call, whose answer decides the result and the row. *)
Lemma createTopic_fresh b visitorId siteName group :
  bot b = true → truthyNum (groupId b) = Some group →
  truthyNum (cachedTopic visitorId b) = None →
  let create :=
    CreateForumTopic group
      (topicName (visitors b !! visitorId) (Db.getVisitorCount (visitors b)) siteName) in
  let answer := respond env (calls b) create in
  let r := createTopicForVisitor env visitorId siteName b in
  fst r = createdId answer
  ∧ calls (snd r) = calls b ++ [create]
  ∧ bot (snd r) = true ∧ groupId (snd r) = groupId b
  ∧ visitors (snd r)
    = match createdId answer with
      | Some topicId => Db.setTopicId (Some topicId) visitorId (visitors b)
      | None => visitors b
      end
  ∧ (is_Some (createdId answer) → errors (snd r) = errors b).
Proof.
  intros Hb Hg Hc. cbv zeta. unfold createTopicForVisitor, cachedTopic in *.
  rewrite Hb, Hg. unfold Db.getVisitor. rewrite Hc. cbn [callBot].
  assert (Hno : ∀ P : Prop, is_Some (@None Z) → P) by (by intros P [? ?]).
  destruct (respond env (calls b) _) as [result|error]; cbn [createdId].
  - destruct result;
      cbn [prop asNumber fst snd calls bot groupId visitors logError errors];
      try (repeat split; solve [done | apply Hno]).
    destruct (asNumber (field "message_thread_id" fields));
      repeat split; solve [done | apply Hno].
  - repeat split; solve [done | apply Hno].
Qed.


Lemma cachedTopic_set topicId visitorId vs v b :
  vs !! visitorId = Some v →
  cachedTopic visitorId (mkBridge (bot b) (groupId b)
                           (Db.setTopicId topicId visitorId vs) (calls b) (errors b))
  = topicId.
Proof.
  intros Hv. unfold cachedTopic, Db.setTopicId. cbn [visitors].
  rewrite lookup_alter_eq, Hv. done.
Qed.



Lemma visitorCount_setTopicId topicId visitorId vs :
  Db.getVisitorCount (Db.setTopicId topicId visitorId vs) = Db.getVisitorCount vs.
Proof.
  unfold Db.getVisitorCount, Db.setTopicId. f_equal.
  rewrite <- !(size_dom (D := gset string)). by rewrite dom_alter_L.
Qed.

Lemma topicName_cleared v count siteName :
  topicName (Some (Db.mkVisitor (Db.id v) (Db.name v) (Db.site v) (Db.email v)
                     (Db.auth_type v) None (Db.created_at v) (Db.last_seen v)))
            count siteName
  = topicName (Some v) count siteName.
Proof. done. Qed.

Lemma truthyNum_idem x n : truthyNum x = Some n → truthyNum (Some n) = Some n.
Proof.
  intros [_ Hn]%truthyNum_Some. cbn. by destruct (Z.eqb_spec n 0).
Qed.

Lemma createTopic_config b visitorId siteName :
  bot (snd (createTopicForVisitor env visitorId siteName b)) = bot b
  ∧ groupId (snd (createTopicForVisitor env visitorId siteName b)) = groupId b.
Proof.
  unfold createTopicForVisitor.
  destruct (bot b) eqn:Hb; [|done].
  destruct (truthyNum (groupId b)) as [group|]; [|done].
  destruct (truthyNum _); [done|].
  cbn [callBot]. destruct (respond env (calls b) _) as [result|error]; [|done].
  destruct result; try done. by destruct (asNumber _).
Qed.

Lemma resolveTopic_config b visitorId siteName :
  bot (snd (resolveTopic env visitorId siteName b)) = bot b
  ∧ groupId (snd (resolveTopic env visitorId siteName b)) = groupId b.
Proof.
  unfold resolveTopic. destruct (truthyNum _); [done|]. apply createTopic_config.
Qed.

(** The path [sendToTopic] takes when the send to the thread of the visitor
    is rejected with a missing-thread error. *)
Lemma sendToTopic_recover b visitorId content type siteName fileUrl
    group t b1 topicId call1 err :
  bot b = true → truthyNum (groupId b) = Some group →
  resolveTopic env visitorId siteName b = (t, b1) →
  truthyNum t = Some topicId →
  sendCallOf env content type fileUrl group topicId = inr call1 →
  respond env (calls b1) call1 = Rejected err →
  isMissingThreadError err = true →
  sendToTopic env visitorId content type siteName fileUrl b
  = let b3 := clearVisitorTopic visitorId (snd (callBot env call1 b1)) in
    let r := createTopicForVisitor env visitorId siteName b3 in
    match truthyNum (fst r) with
    | Some replacement =>
        let s := sendToTopicId env content type fileUrl replacement (snd r) in
        match fst s with
        | None => snd s
        | Some retryErr =>
            logError "[Telegram] Error sending to recreated topic:" retryErr (snd s)
        end
    | None => logError "[Telegram] Error sending to topic:" err (snd r)
    end.
Proof.
  intros Hb Hg Hres Ht Hcall Hrej Hmiss. cbv zeta.
  destruct (resolveTopic_config b visitorId siteName) as [Hb1 Hg1].
  rewrite Hres in Hb1, Hg1. cbn [snd] in Hb1, Hg1.
  unfold sendToTopic. rewrite Hb, Hg. unfold resolveTopic in Hres.
  destruct (truthyNum (Db.getVisitor visitorId (visitors b) ≫= Db.telegram_topic_id))
    as [cached|]; [injection Hres as <- <-| rewrite Hres; clear Hres]; rewrite Ht.
  - rewrite (sendToTopicId_call content type fileUrl topicId b group Hb Hg).
    rewrite Hcall, Hrej, Hmiss.
    destruct (createTopicForVisitor env visitorId siteName _) as [replacement b4].
    cbn [fst snd]. destruct (truthyNum replacement); [|done].
    by destruct (sendToTopicId env content type fileUrl _ b4) as [[retryErr|] b5].
  - rewrite (sendToTopicId_call content type fileUrl topicId b1 group)
      by (by rewrite ?Hb1, ?Hg1, ?Hb, ?Hg).
    rewrite Hcall, Hrej, Hmiss.
    destruct (createTopicForVisitor env visitorId siteName _) as [replacement b4].
    cbn [fst snd]. destruct (truthyNum replacement); [|done].
    by destruct (sendToTopicId env content type fileUrl _ b4) as [[retryErr|] b5].
Qed.

(** After the failed send: the cached id is cleared and one
    [createForumTopic] call is made; its answer decides what is cached. *)
Lemma recover_creation b1 visitorId siteName group v call1 :
  bot b1 = true → truthyNum (groupId b1) = Some group →
  visitors b1 !! visitorId = Some v →
  let b3 := clearVisitorTopic visitorId (snd (callBot env call1 b1)) in
  let create :=
    CreateForumTopic group
      (topicName (Some v) (Db.getVisitorCount (visitors b1)) siteName) in
  let answer := respond env (calls b1 ++ [call1]) create in
  let r := createTopicForVisitor env visitorId siteName b3 in
  fst r = createdId answer
  ∧ calls (snd r) = calls b1 ++ [call1; create]
  ∧ bot (snd r) = true ∧ truthyNum (groupId (snd r)) = Some group
  ∧ cachedTopic visitorId (snd r) = createdId answer
  ∧ (is_Some (createdId answer) → errors (snd r) = errors b1).
Proof.
  intros Hb Hg Hv. cbv zeta. cbn [callBot snd].
  set (b2 := mkBridge (bot b1) (groupId b1) (visitors b1) (calls b1 ++ [call1]) (errors b1)).
  set (b3 := clearVisitorTopic visitorId b2).
  assert (Hrow3 : visitors b3 !! visitorId
                  = Some (Db.mkVisitor (Db.id v) (Db.name v) (Db.site v) (Db.email v)
                            (Db.auth_type v) None (Db.created_at v) (Db.last_seen v))).
  { unfold b3, clearVisitorTopic, Db.setTopicId. cbn [visitors b2].
    by rewrite lookup_alter_eq, Hv. }
  assert (Hc3 : truthyNum (cachedTopic visitorId b3) = None).
  { unfold cachedTopic. by rewrite Hrow3. }
  pose proof (createTopic_fresh b3 visitorId siteName group Hb Hg Hc3) as Hcreate.
  cbv zeta in Hcreate. rewrite Hrow3, topicName_cleared in Hcreate.
  replace (Db.getVisitorCount (visitors b3)) with (Db.getVisitorCount (visitors b1))
    in Hcreate by (symmetry; apply visitorCount_setTopicId).
  change (calls b3) with (calls b1 ++ [call1]) in Hcreate.
  change (errors b3) with (errors b1) in Hcreate.
  destruct (createTopicForVisitor env visitorId siteName b3) as [replacement b4].
  cbn [fst snd] in *.
  destruct Hcreate as (-> & Hcalls4 & Hb4 & Hg4 & Hvis4 & Herr4).
  split; [done|]. split; [by rewrite Hcalls4, <- app_assoc|].
  split; [done|]. split; [by rewrite Hg4|]. split; [|done].
  unfold cachedTopic. rewrite Hvis4.
  destruct (createdId _) as [newId|].
  - unfold Db.setTopicId. by rewrite lookup_alter_eq, Hrow3.
  - by rewrite Hrow3.
Qed.

(** When the creation yields no thread id, no send follows it. *)
Lemma recovery_without_replacement b visitorId content type siteName fileUrl
    group t b1 v topicId call1 err :
  bot b = true → truthyNum (groupId b) = Some group →
  resolveTopic env visitorId siteName b = (t, b1) →
  truthyNum t = Some topicId →
  visitors b1 !! visitorId = Some v →
  sendCallOf env content type fileUrl group topicId = inr call1 →
  respond env (calls b1) call1 = Rejected err →
  isMissingThreadError err = true →
  let create :=
    CreateForumTopic group
      (topicName (Some v) (Db.getVisitorCount (visitors b1)) siteName) in
  truthyNum (createdId (respond env (calls b1 ++ [call1]) create)) = None →
  calls (sendToTopic env visitorId content type siteName fileUrl b)
  = calls b1 ++ [call1; create].
Proof.
  intros Hb Hg Hres Ht Hv Hcall Hrej Hmiss. cbv zeta. intros Hnone.
  rewrite (sendToTopic_recover b visitorId content type siteName fileUrl
             group t b1 topicId call1 err) by done.
  destruct (resolveTopic_config b visitorId siteName) as [Hb1 Hg1].
  rewrite Hres in Hb1, Hg1. cbn [snd] in Hb1, Hg1.
  rewrite Hb in Hb1. rewrite <- Hg1 in Hg.
  pose proof (recover_creation b1 visitorId siteName group v call1 Hb1 Hg Hv) as Hc.
  cbv zeta in *.
  destruct (createTopicForVisitor env visitorId siteName _) as [replacement b4].
  cbn [fst snd] in *. destruct Hc as (-> & Hcalls4 & _).
  rewrite Hnone. done.
Qed.

End WithEnv.

(** C6.  When the send to the thread of a visitor is rejected with a
    'message thread not found' error, [sendToTopic] clears the cached id and
    calls [createForumTopic] once; with the thread id that comes back, the
    same send is made once more, to the new thread, and nothing else
    follows.  The calls of the run after the thread of the visitor was
    looked up are the failed send, the creation and the retry; the new id
    is the one cached; a failure of the retry adds one line to the log and
    no call. *)
Theorem thread_recovery env b visitorId content type siteName fileUrl
    group t b1 v topicId call1 err replacement :
  bot b = true → truthyNum (groupId b) = Some group →
  resolveTopic env visitorId siteName b = (t, b1) →
  truthyNum t = Some topicId →
  visitors b1 !! visitorId = Some v →
  sendCallOf env content type fileUrl group topicId = inr call1 →
  respond env (calls b1) call1 = Rejected err →
  isMissingThreadError err = true →
  let create :=
    CreateForumTopic group
      (topicName (Some v) (Db.getVisitorCount (visitors b1)) siteName) in
  truthyNum (createdId (respond env (calls b1 ++ [call1]) create))
  = Some replacement →
  let b' := sendToTopic env visitorId content type siteName fileUrl b in
  ∃ call2,
    sendCallOf env content type fileUrl group replacement = inr call2
    ∧ calls b' = calls b1 ++ [call1; create; call2]
    ∧ cachedTopic visitorId b' = Some replacement
    ∧ errors b'
      = errors b1
        ++ match respond env (calls b1 ++ [call1; create]) call2 with
           | Rejected retryErr =>
               [("[Telegram] Error sending to recreated topic:", retryErr)]
           | Resolved _ => []
           end.
Proof.
  intros Hb Hg Hres Ht Hv Hcall Hrej Hmiss. cbv zeta. intros Hnew.
  rewrite (sendToTopic_recover env b visitorId content type siteName fileUrl
             group t b1 topicId call1 err) by done.
  destruct (resolveTopic_config env b visitorId siteName) as [Hb1 Hg1].
  rewrite Hres in Hb1, Hg1. cbn [snd] in Hb1, Hg1.
  rewrite Hb in Hb1. rewrite <- Hg1 in Hg.
  pose proof (recover_creation env b1 visitorId siteName group v call1 Hb1 Hg Hv) as Hc.
  cbv zeta in *.
  destruct (createTopicForVisitor env visitorId siteName _) as [created b4].
  cbn [fst snd] in *.
  destruct Hc as (-> & Hcalls4 & Hb4 & Hg4 & Hcached4 & Herr4).
  rewrite Hnew.
  destruct (sendCallOf_thread env content type fileUrl group topicId replacement
              call1 Hcall) as [call2 Hcall2].
  exists call2. split; [done|].
  assert (Herr4' : errors b4 = errors b1).
  { apply Herr4. apply truthyNum_Some in Hnew as [-> _]. by eexists. }
  apply truthyNum_Some in Hnew as [Hnew _].
  rewrite (sendToTopicId_call env content type fileUrl replacement b4 group Hb4 Hg4).
  rewrite Hcall2. cbn [callBot fst snd]. rewrite Hcalls4.
  assert (Hcached : ∀ cs es,
            cachedTopic visitorId (mkBridge (bot b4) (groupId b4) (visitors b4) cs es)
            = Some replacement).
  { intros cs es. unfold cachedTopic in *. cbn [visitors]. by rewrite Hcached4. }
  destruct (respond env _ call2) as [value|retryErr] eqn:Hretry;
    cbn [fst snd]; unfold logError; cbn [calls errors bot groupId visitors];
    rewrite Herr4', <- ?app_assoc, ?app_nil_r; cbn [app];
    (split; [done|]); (split; [apply Hcached|]); by rewrite ?Hretry, ?app_nil_r.
Qed.

Lemma thread_recovery_witness :
  let b' := sendToTopic Demo.botEnv "anon-1" "hi" Db.text "shop.example" None
              (Demo.bridge (Some 7)) in
  calls b' = [SendMessage (-1001) "hi" 7;
              CreateForumTopic (-1001) "[Anon] Visitor #1 from shop.example";
              SendMessage (-1001) "hi" 8]
  ∧ cachedTopic "anon-1" b' = Some 8
  ∧ errors b' = [].
Proof.
  cbv zeta.
  pose proof (thread_recovery Demo.botEnv (Demo.bridge (Some 7)) "anon-1" "hi" Db.text
                "shop.example" None (-1001) (Some 7) (Demo.bridge (Some 7))
                (Demo.anonVisitor (Some 7)) 7
                (SendMessage (-1001) "hi" 7)
                (mkError "ETELEGRAM: 400 Bad Request: message thread not found")
                8) as H.
  cbv zeta in H.
  destruct H as (call2 & Hcall2 & Hcalls & Hcached & Herrors); [reflexivity ..|].
  injection Hcall2 as <-.
  split; [exact Hcalls|]. split; [exact Hcached | exact Herrors].
Defined.




End TelegramFacts.

(** ** Rate limiter: the other windows, rejections without strike, and the
    maintenance tick *)

Module RateLimiterMore.
Import RateLimiter RateLimiterSpec RateLimiterWindows RateLimiterFacts.

(** One window of the three, with its span and its capacity. *)
Section OneWindow.
Variable window limit : Z.
Variable proj : RateEntry → list Z.
Hypothesis window_pos : 0 < window.
Hypothesis limit_nonneg : 0 ≤ limit.
Hypothesis proj_prune : ∀ e now, proj (pruneEntry e now) = keepWithin window now (proj e).
Hypothesis proj_record : ∀ e now, proj (recordN 1 e now) = proj e ++ [now].
Hypothesis proj_strike : ∀ e now, proj (strike e now) = proj e.
Hypothesis proj_passes :
  ∀ e now, passes now e = true → len (proj (pruneEntry e now)) < limit.

Lemma spanBoundOf_snoc acc now :
  spanBoundOf window limit acc → Forall (fun a => a ≤ now) acc →
  len (keepWithin window now acc) < limit →
  spanBoundOf window limit (acc ++ [now]).
Proof.
  intros Hacc Hle Hyoung from. rewrite List.filter_app. cbn [List.filter].
  destruct (inSpanOf window from now) eqn:Hin; [|rewrite app_nil_r; apply Hacc].
  unfold inSpanOf in Hin. apply andb_true_iff in Hin as [H1 H2].
  apply Z.leb_le in H1. apply Z.ltb_lt in H2.
  assert (length (List.filter (inSpanOf window from) acc)
          ≤ length (keepWithin window now acc))%nat as Hsub.
  { apply filter_length_le. intros a Ha. unfold inSpanOf in Ha.
    apply andb_true_iff in Ha as [Ha1 Ha2]. apply Z.leb_le in Ha1.
    apply Z.ltb_lt. lia. }
  unfold len in *. rewrite length_app. cbn [length]. lia.
Qed.

Lemma run_spanBoundOf k times rl acc p last :
  proj (entryOf rl k) = keepWithin window p acc → p ≤ last →
  Forall (fun a => a ≤ last) acc →
  StronglySorted Z.le (last :: times) →
  spanBoundOf window limit acc →
  spanBoundOf window limit (acc ++ acceptedOn k times rl).
Proof.
  unfold acceptedOn.
  revert rl acc p last. induction times as [|now times IH];
    intros rl acc p last Hproj Hp Hle Hsorted Hacc.
  { cbn. by rewrite app_nil_r. }
  cbn [map runChecks]. cbv zeta. cbn [fst snd acceptedTimes].
  apply StronglySorted_inv in Hsorted as [Hsorted Hlast].
  apply Forall_cons in Hlast as [Hnow Hlast].
  assert (Hprune : proj (pruneEntry (entryOf rl k) now) = keepWithin window now acc).
  { rewrite proj_prune, Hproj. apply keepWithin_later. lia. }
  assert (Hle' : Forall (fun a => a ≤ now) acc).
  { eapply Forall_impl; [exact Hle|]. intros; cbn in *; lia. }
  destruct (check_entry [k] now rl k) as [[Hok He]|[(Hf & _ & He)|(Hf & _ & He)]];
    rewrite ?Hok, ?Hf.
  - rewrite bool_decide_eq_true_2 in He by (by left).
    assert (occurrences k [k] = 1%nat) as Hone.
    { unfold occurrences. cbn [List.filter]. by rewrite bool_decide_eq_true_2. }
    rewrite Hone in He.
    assert (Hyoung : len (keepWithin window now acc) < limit).
    { rewrite <- Hprune. apply proj_passes.
      rewrite check_result in Hok. cbn [forallb] in Hok.
      by rewrite andb_true_r in Hok. }
    replace (acc ++ now :: acceptedTimes _ times)
      with ((acc ++ [now]) ++ acceptedTimes
              (fst (runChecks (map (fun t => ([k], t)) times)
                      (snd (checkRateLimitKeys [k] now rl)))) times)
      by (by rewrite <- app_assoc).
    apply (IH _ _ now now); [|lia| |done|].
    + rewrite He, proj_record, Hprune.
      unfold keepWithin. rewrite List.filter_app. cbn [List.filter].
      destruct (Z.ltb_spec (now - now) window); [done | lia].
    + apply Forall_app. split; [done|]. repeat constructor. lia.
    + by apply spanBoundOf_snoc.
  - destruct He as [He|He].
    + apply (IH _ _ p now); [by rewrite He | lia | done | done | done].
    + apply (IH _ _ now now); [by rewrite He | lia | done | done | done].
  - apply (IH _ _ now now); [|lia|done|done|done].
    by rewrite He, proj_strike.
Qed.

Lemma fresh_spanBoundOf k times rl :
  proj freshEntry = [] → rl !! k = None → StronglySorted Z.le times →
  spanBoundOf window limit (acceptedOn k times rl).
Proof.
  intros Hfresh Hnone Hsorted.
  assert (Hnil : spanBoundOf window limit []) by (intros from; unfold len; cbn; lia).
  destruct times as [|t times]; [exact Hnil|].
  apply (run_spanBoundOf k (t :: times) rl [] t t).
  - unfold entryOf. rewrite Hnone. simpl. by rewrite Hfresh.
  - lia.
  - constructor.
  - constructor; [done|]. constructor; [lia|].
    by apply StronglySorted_inv in Hsorted as [_ ?].
  - exact Hnil.
Qed.

End OneWindow.

Lemma passes_medium e now :
  passes now e = true → len (medium (pruneEntry e now)) < RATE_MEDIUM_MAX.
Proof.
  unfold passes. cbv zeta. intros H.
  destruct (Z.geb_spec (len (medium (pruneEntry e now))) RATE_MEDIUM_MAX); [|done].
  by rewrite andb_false_r in H.
Qed.

Lemma passes_daily e now :
  passes now e = true → len (daily (pruneEntry e now)) < RATE_DAILY_MAX.
Proof.
  unfold passes. cbv zeta. intros H.
  destruct (Z.geb_spec (len (daily (pruneEntry e now))) RATE_DAILY_MAX); [|done].
  by rewrite andb_false_r in H.
Qed.

(** X1.  On a key without history, in any run of single-key calls at clock
    readings that do not decrease, no span of 600 s holds more than 60
    accepted calls and no span of 24 h more than 300. *)
Theorem medium_daily_windows_bound rl k times :
  rl !! k = None → StronglySorted Z.le times →
  spanBoundOf RATE_MEDIUM_WINDOW RATE_MEDIUM_MAX (acceptedOn k times rl)
  ∧ spanBoundOf RATE_DAILY_WINDOW RATE_DAILY_MAX (acceptedOn k times rl).
Proof.
  intros Hnone Hsorted. split.
  - apply (fresh_spanBoundOf RATE_MEDIUM_WINDOW RATE_MEDIUM_MAX medium); try done.
    + intros e now. unfold strike. by destruct (_ >=? _).
    + apply passes_medium.
  - apply (fresh_spanBoundOf RATE_DAILY_WINDOW RATE_DAILY_MAX daily); try done.
    + intros e now. unfold strike. by destruct (_ >=? _).
    + apply passes_daily.
Qed.

Lemma medium_daily_windows_bound_witness :
  let times := map (fun i => 5000 * Z.of_nat i) (seq 0 70) in
  length (acceptedOn "ip" times ∅) = 60%nat
  ∧ spanBoundOf RATE_MEDIUM_WINDOW RATE_MEDIUM_MAX (acceptedOn "ip" times ∅)
  ∧ spanBoundOf RATE_DAILY_WINDOW RATE_DAILY_MAX (acceptedOn "ip" times ∅).
Proof.
  cbv zeta. split; [vm_compute; reflexivity|].
  apply (medium_daily_windows_bound ∅ "ip"); [reflexivity|].
  vm_compute. repeat (constructor; [|repeat (constructor; [discriminate|]); constructor]).
  constructor.
Defined.

(** X2.  Only a rejection at the short window costs a strike.  A check that
    is rejected for another reason (an active block, the medium or the daily
    window at capacity, or another key failing first) leaves the strike
    counter and the block time of the key as they were. *)
Theorem rejection_without_strike keys now rl k :
  fst (checkRateLimitKeys keys now rl) = false →
  stopsAtShort k keys now rl = false →
  burstStrikes (entryOf (snd (checkRateLimitKeys keys now rl)) k)
  = burstStrikes (entryOf rl k)
  ∧ blockedUntil (entryOf (snd (checkRateLimitKeys keys now rl)) k)
    = blockedUntil (entryOf rl k).
Proof.
  intros Hf Hs.
  destruct (check_entry keys now rl k) as [[Hok _]|[(_ & _ & [-> | ->])|(_ & Hs' & _)]];
    [congruence | done | done | congruence].
Qed.

Lemma rejection_without_strike_witness :
  let rl := snd (runChecks [(["ip"], 5); (["ip"], 6); (["ip"], 7)] fullTable) in
  fst (checkRateLimitKeys ["ip"] 20000 rl) = false
  ∧ burstStrikes (entryOf (snd (checkRateLimitKeys ["ip"] 20000 rl)) "ip") = 0
  ∧ blockedUntil (entryOf (snd (checkRateLimitKeys ["ip"] 20000 rl)) "ip") = 60007.
Proof.
  cbv zeta. split; [reflexivity|].
  destruct (rejection_without_strike ["ip"] 20000
              (snd (runChecks [(["ip"], 5); (["ip"], 6); (["ip"], 7)] fullTable)) "ip")
    as [-> ->]; [reflexivity | reflexivity |].
  split; reflexivity.
Defined.

Lemma pruneEntry_later e now now' :
  now ≤ now' → pruneEntry (pruneEntry e now) now' = pruneEntry e now'.
Proof.
  intros Hle. unfold pruneEntry. cbn [short medium daily burstStrikes blockedUntil].
  by rewrite !keepWithin_later.
Qed.

Lemma tick_entry_cases now rl k :
  entryOf (maintenanceTick now rl) k = pruneEntry (entryOf rl k) now
  ∨ (entryOf (maintenanceTick now rl) k = freshEntry
     ∧ blockedUntil (entryOf rl k) < now
     ∧ windows (pruneEntry (entryOf rl k) now) = ([], [], [])).
Proof.
  unfold maintenanceTick, entryOf. rewrite lookup_omap.
  destruct (rl !! k) as [e|]; cbn [default mbind option_bind]; [|by left].
  destruct (_ && _) eqn:Hc; cbn [default]; [|by left].
  right. split; [done|].
  apply andb_true_iff in Hc as [Hc Hb]. apply andb_true_iff in Hc as [Hc Hd].
  apply andb_true_iff in Hc as [Hs Hm].
  cbn [pruneEntry blockedUntil] in Hb. unfold id. split; [by apply Z.ltb_lt|].
  unfold windows.
  destruct (short (pruneEntry e now)); [|done].
  destruct (medium (pruneEntry e now)); [|done].
  by destruct (daily (pruneEntry e now)).
Qed.

Lemma windows_inv a b :
  windows a = windows b → short a = short b ∧ medium a = medium b ∧ daily a = daily b.
Proof. unfold windows. by intros [= -> -> ->]. Qed.

Lemma windows_prune a b T :
  windows a = windows b → windows (pruneEntry a T) = windows (pruneEntry b T).
Proof.
  unfold windows, pruneEntry. cbn [short medium daily]. by intros [= -> -> ->].
Qed.

Lemma windows_recordN a b n T :
  windows a = windows b → windows (recordN n a T) = windows (recordN n b T).
Proof.
  unfold windows, recordN. cbn [short medium daily]. by intros [= -> -> ->].
Qed.

Lemma windows_later a b p T :
  p ≤ T → windows (pruneEntry a p) = windows (pruneEntry b p) →
  windows (pruneEntry a T) = windows (pruneEntry b T).
Proof.
  intros Hle Hw. rewrite <- (pruneEntry_later a p T), <- (pruneEntry_later b p T) by done.
  by apply windows_prune.
Qed.

Lemma alike_later p T a b : p ≤ T → alike p a b → alike T a b.
Proof.
  intros Hle (Hs & Hw & Hb). split; [done|]. split; [by apply (windows_later _ _ p)|].
  destruct Hb as [Hb|[Ha Hb]]; [by left | right; lia].
Qed.

Lemma alike_blocked p a b :
  alike p a b → (blockedUntil a >? p) = (blockedUntil b >? p).
Proof.
  intros (_ & _ & [Hb|[Ha Hb]]); [by rewrite Hb|].
  destruct (Z.gtb_spec (blockedUntil a) p), (Z.gtb_spec (blockedUntil b) p); done || lia.
Qed.

Lemma alike_passes p a b : alike p a b → passes p a = passes p b.
Proof.
  intros Hab. pose proof (alike_blocked _ _ _ Hab) as Hb.
  destruct Hab as (_ & Hw & _). unfold passes. cbv zeta.
  change (blockedUntil (pruneEntry a p)) with (blockedUntil a).
  change (blockedUntil (pruneEntry b p)) with (blockedUntil b). rewrite Hb.
  destruct (windows_inv _ _ Hw) as (Hs & Hm & Hd). by rewrite Hs, Hm, Hd.
Qed.

Lemma alike_shortRejected p a b : alike p a b → shortRejected p a = shortRejected p b.
Proof.
  intros Hab. pose proof (alike_blocked _ _ _ Hab) as Hb.
  destruct Hab as (_ & Hw & _). unfold shortRejected. rewrite Hb.
  destruct (windows_inv _ _ Hw) as (Hs & Hm & Hd). by rewrite Hs.
Qed.

Lemma alike_stopsAtShort p key keys rlA rlB :
  (∀ k, alike p (entryOf rlA k) (entryOf rlB k)) →
  stopsAtShort key keys p rlA = stopsAtShort key keys p rlB.
Proof.
  intros Hab. induction keys as [|k keys IH]; cbn [stopsAtShort]; [done|].
  by rewrite IH, (alike_passes p _ _ (Hab k)), (alike_shortRejected p _ _ (Hab key)).
Qed.

Lemma alike_pruned p a b : alike p a b → alike p (pruneEntry a p) (pruneEntry b p).
Proof.
  intros (Hs & Hw & Hb). split; [done|]. split; [|done].
  by rewrite !pruneEntry_idem.
Qed.

Lemma alike_pruned_l p a b : alike p a b → alike p (pruneEntry a p) b.
Proof.
  intros (Hs & Hw & Hb). split; [done|]. split; [|done]. by rewrite pruneEntry_idem.
Qed.

Lemma alike_pruned_r p a b : alike p a b → alike p a (pruneEntry b p).
Proof.
  intros (Hs & Hw & Hb). split; [done|]. split; [|done]. by rewrite pruneEntry_idem.
Qed.

(** A check at [T] keeps two tables alike and answers the same on both. *)
Lemma alike_check keys T rlA rlB :
  (∀ k, alike T (entryOf rlA k) (entryOf rlB k)) →
  fst (checkRateLimitKeys keys T rlA) = fst (checkRateLimitKeys keys T rlB)
  ∧ ∀ k, alike T (entryOf (snd (checkRateLimitKeys keys T rlA)) k)
                 (entryOf (snd (checkRateLimitKeys keys T rlB)) k).
Proof.
  intros Hab.
  assert (Hfst : fst (checkRateLimitKeys keys T rlA) = fst (checkRateLimitKeys keys T rlB)).
  { rewrite !check_result. induction keys as [|k keys IH]; cbn [forallb]; [done|].
    by rewrite IH, (alike_passes T _ _ (Hab k)). }
  split; [done|]. intros k.
  pose proof (alike_stopsAtShort T k keys rlA rlB Hab) as Hstop.
  pose proof (Hab k) as Hk.
  destruct (check_entry keys T rlA k) as [[HokA HeA]|[(HfA & HsA & HeA)|(HfA & HsA & HeA)]];
    destruct (check_entry keys T rlB k)
      as [[HokB HeB]|[(HfB & HsB & HeB)|(HfB & HsB & HeB)]];
    try congruence.
  - rewrite HeA, HeB. destruct (bool_decide (k ∈ keys)); [|done].
    destruct (alike_pruned T _ _ Hk) as (Hs & Hw & Hb).
    split; [done|]. split; [|done].
    apply windows_prune, windows_recordN.
    by rewrite !pruneEntry_idem in Hw.
  - destruct HeA as [-> | ->], HeB as [-> | ->];
      auto using alike_pruned, alike_pruned_l, alike_pruned_r.
  - rewrite HeA, HeB. destruct (alike_pruned T _ _ Hk) as (Hs & Hw & Hb).
    rewrite !pruneEntry_idem in Hw.
    split; [|split].
    + unfold strike. rewrite Hs. by destruct (_ >=? _).
    + apply windows_prune. by rewrite !windows_strike.
    + unfold strike. rewrite Hs. destruct (_ >=? _); [by left | done].
Qed.

(** Runs of checks on two tables that are alike get the same answers. *)
Lemma alike_run calls p rlA rlB :
  (∀ k, alike p (entryOf rlA k) (entryOf rlB k)) →
  StronglySorted Z.le (p :: map snd calls) →
  fst (runChecks calls rlA) = fst (runChecks calls rlB).
Proof.
  revert p rlA rlB. induction calls as [|[keys T] calls IH]; intros p rlA rlB Hab Hs;
    [done|].
  cbn [map snd] in Hs. apply StronglySorted_inv in Hs as [Hs Hp].
  apply Forall_cons in Hp as [HpT _].
  assert (HabT : ∀ k, alike T (entryOf rlA k) (entryOf rlB k))
    by (intros k; by apply (alike_later p)).
  destruct (alike_check keys T rlA rlB HabT) as [Hfst Hnext].
  rewrite !runChecks_cons. cbn [fst]. rewrite Hfst. f_equal.
  by apply (IH T).
Qed.

(** After the tick every entry is alike the one before it, if the tick
    forgot no strike. *)
Lemma tick_alike now rl k :
  0 ≤ now →
  burstStrikes (entryOf (maintenanceTick now rl) k) = burstStrikes (entryOf rl k) →
  alike now (entryOf (maintenanceTick now rl) k) (entryOf rl k).
Proof.
  intros H0 Hs. split; [done|].
  destruct (tick_entry_cases now rl k) as [-> | (-> & Hb & Hw)].
  - split; [by rewrite pruneEntry_idem | by left].
  - split; [by rewrite Hw | right; cbn; lia].
Qed.

(** X3.  What callers see of the maintenance tick.  The tick prunes every
    entry and deletes the entries that are left without timestamps and
    outside a block, together with their strike counters.  The check that
    follows the tick gets the answer it would have got without it.  A run
    of checks after the tick, at clock readings that do not decrease, gets
    the answers it would have got without the tick provided the tick forgot
    no strike; a forgotten strike can change a later answer. *)
Theorem maintenance_tick_verdicts now rl :
  0 ≤ now →
  (∀ keys now', now ≤ now' →
     fst (checkRateLimitKeys keys now' (maintenanceTick now rl))
     = fst (checkRateLimitKeys keys now' rl))
  ∧ (∀ k, entryOf (maintenanceTick now rl) k = pruneEntry (entryOf rl k) now
          ∨ (entryOf (maintenanceTick now rl) k = freshEntry
             ∧ blockedUntil (entryOf rl k) < now
             ∧ windows (pruneEntry (entryOf rl k) now) = ([], [], [])))
  ∧ (keepsStrikes now rl →
     ∀ calls, StronglySorted Z.le (now :: map snd calls) →
       fst (runChecks calls (maintenanceTick now rl)) = fst (runChecks calls rl)).
Proof.
  intros H0. split; [|split].
  - intros keys now' Hle. rewrite !check_result. apply forallb_pointwise. intros k.
    destruct (tick_entry_cases now rl k) as [-> | (-> & Hb & Hw)].
    + unfold passes. cbv zeta. by rewrite pruneEntry_later.
    + transitivity true.
      * unfold passes. cbn.
        destruct (Z.gtb_spec 0 now'); [lia | done].
      * symmetry. unfold passes. cbv zeta.
        rewrite <- (pruneEntry_later _ now now') by done.
        injection Hw as Hs Hm Hd.
        cbn [pruneEntry short medium daily blockedUntil] in *.
        rewrite Hs, Hm, Hd. cbn.
        destruct (Z.gtb_spec (blockedUntil (entryOf rl k)) now'); [lia | done].
  - intros k. apply tick_entry_cases.
  - intros Hkeep calls Hsorted. apply (alike_run calls now); [|done].
    intros k. by apply tick_alike.
Qed.

Lemma maintenance_tick_verdicts_witness :
  let burst := fun t => [(["ip"], t); (["ip"], t + 1); (["ip"], t + 2);
                         (["ip"], t + 3); (["ip"], t + 4); (["ip"], t + 5)] in
  let rl := snd (runChecks (burst 0 ++ burst 20000) ∅) in
  let calls := burst 90000001 ++ [(["ip"], 90020000)] in
  0 ≤ 90000000
  ∧ burstStrikes (entryOf rl "ip") = 2
  ∧ maintenanceTick 90000000 rl = ∅
  ∧ fst (checkRateLimitKeys ["ip"] 90000001 (maintenanceTick 90000000 rl))
    = fst (checkRateLimitKeys ["ip"] 90000001 rl)
  ∧ ¬ keepsStrikes 90000000 rl
  ∧ fst (runChecks calls (maintenanceTick 90000000 rl))
    = [true; true; true; true; true; false; true]
  ∧ fst (runChecks calls rl) = [true; true; true; true; true; false; false].
Proof.
  cbv zeta. split; [lia|]. split; [vm_compute; reflexivity|].
  split; [vm_compute; reflexivity|].
  split.
  { apply (maintenance_tick_verdicts 90000000); lia. }
  split.
  { intros Hkeep. specialize (Hkeep "ip"). vm_compute in Hkeep. discriminate. }
  split; vm_compute; reflexivity.
Defined.

End RateLimiterMore.

(** ** Connection gateway: keys, state before authentication, identity,
    throttling, fan-out *)

Module GatewayMore.
Import Js Gateway GatewaySpec GatewayFacts.

Lemma append_inj_l (a x y : string) : a +:+ x = a +:+ y → x = y.
Proof.
  induction a as [|c a IH]; cbn; [done|]. intros [= H]. by apply IH.
Qed.

(** X4.  The rate-limit keys of a sender.  An anonymous sender is keyed by
    site and IP address only; any other sender by site and user and by site
    and IP address, two different keys.  No key is listed twice, so an
    accepted event is recorded once under each key. *)
Theorem rateLimitKeys_distinct pf claims ip :
  let keys := rateLimitKeys pf claims ip in
  let site := siteFromClaims pf claims "unknown" in
  let ipKey := "site:" +:+ site +:+ ":ip:"
               +:+ toLowerCase (if String.eqb ip "" then "unknown" else ip) in
  NoDup keys
  ∧ last keys = Some ipKey
  ∧ length keys = (if isAnonClaims claims then 1 else 2)%nat
  ∧ ∀ k, k ∈ keys → RateLimiterSpec.occurrences k keys = 1%nat.
Proof.
  cbv zeta. unfold rateLimitKeys. cbv zeta.
  set (site := siteFromClaims pf claims "unknown").
  set (cleanIp := toLowerCase _).
  set (sub := if String.eqb (TokenClaims.sub claims) "" then _ else _).
  assert (Hne : "site:" +:+ site +:+ ":user:" +:+ sub
                ≠ "site:" +:+ site +:+ ":ip:" +:+ cleanIp).
  { intros H. apply append_inj_l, append_inj_l in H. cbn in H. discriminate. }
  destruct (isAnonClaims claims).
  - split; [repeat constructor; by intros ?%elem_of_nil|].
    split; [done|]. split; [done|].
    intros k ->%list_elem_of_singleton. unfold RateLimiterSpec.occurrences.
    cbn [List.filter]. by case_bool_decide.
  - split.
    { constructor; [|repeat constructor; by intros ?%elem_of_nil].
      by intros H%list_elem_of_singleton. }
    split; [done|]. split; [done|].
    intros k [Hk|Hk%list_elem_of_singleton]%elem_of_cons; subst k;
      unfold RateLimiterSpec.occurrences; cbn [List.filter];
      repeat case_bool_decide; cbn [length]; congruence.
Qed.

Section WithPlatform.
Variable pf : Platform.
Variable cfg : Config.

Lemma handleAuth_world c w msg nowMs :
  let r := handleAuth pf cfg c w msg nowMs in
  visitors (snd (fst r)) = visitors w ∧ messages (snd (fst r)) = messages w
  ∧ clients (snd (fst r)) = clients w ∧ rateLimits (snd (fst r)) = rateLimits w
  ∧ typingThrottle (snd (fst r)) = typingThrottle w
  ∧ settings (snd (fst r)) = settings w
  ∧ (authenticated (fst (fst r)) = false →
     fst (fst r) = c ∧ tokenSessions (snd (fst r)) = tokenSessions w
     ∧ forallb isCloseOrLog (snd r) = true).
Proof.
  cbv zeta. unfold handleAuth.
  destruct (asString (prop msg "type")) as [type|]; [|done].
  destruct (asString (prop msg "token")) as [token|]; [|done].
  destruct (negb _); [done|].
  pose proof (SessionFacts.verify_table pf cfg token (origin c) nowMs (tokenSessions w)) as Hv.
  cbv zeta in Hv.
  destruct (Session.verifyToken _ _ _ _ _ _) as [[verified|] db]; cbn [fst snd] in *.
  - done.
  - destruct Hv as [[_ ->]|(? & ? & ? & ? & _)]; done.
Qed.

(** One frame on a connection that is not authenticated. *)
Lemma onMessage_before_auth c w raw nowMs :
  authenticated c = false →
  let r := onMessage pf cfg c w raw nowMs in
  visitors (snd (fst r)) = visitors w ∧ messages (snd (fst r)) = messages w
  ∧ clients (snd (fst r)) = clients w ∧ rateLimits (snd (fst r)) = rateLimits w
  ∧ typingThrottle (snd (fst r)) = typingThrottle w
  ∧ settings (snd (fst r)) = settings w
  ∧ (authenticated (fst (fst r)) = false →
     fst (fst r) = c ∧ tokenSessions (snd (fst r)) = tokenSessions w
     ∧ forallb isCloseOrLog (snd r) = true).
Proof.
  intros Hu. cbv zeta.
  destruct (onMessage_cases pf cfg c w raw nowMs) as [->|[msg ->]]; [done|].
  unfold dispatch. rewrite Hu. cbn [negb]. apply handleAuth_world.
Qed.

End WithPlatform.

(** X5.  Nothing is written for a socket that has not authenticated.
    Whatever frames an unauthenticated socket sends, as long as none of them
    authenticates it, the tables of visitors, messages, settings and token
    sessions, the fan-out map, the rate-limit table and the typing throttle
    are as they were, the variables of the connection too, and the only
    effects are closes of the socket and log lines.  The frame that
    authenticates a socket writes the token-session table only. *)
Theorem nothing_before_authentication pf cfg :
  (∀ (frames : list (string * Z)) c w,
     let r := deliverAll pf cfg c w (map (fun f => (Frame (fst f), snd f)) frames) in
     authenticated c = false → authenticated (fst (fst r)) = false →
     fst (fst r) = c
     ∧ visitors (snd (fst r)) = visitors w ∧ messages (snd (fst r)) = messages w
     ∧ settings (snd (fst r)) = settings w
     ∧ tokenSessions (snd (fst r)) = tokenSessions w
     ∧ clients (snd (fst r)) = clients w ∧ rateLimits (snd (fst r)) = rateLimits w
     ∧ typingThrottle (snd (fst r)) = typingThrottle w
     ∧ forallb isCloseOrLog (snd r) = true)
  ∧ (∀ c w raw nowMs,
       let r := onMessage pf cfg c w raw nowMs in
       authenticated c = false →
       visitors (snd (fst r)) = visitors w ∧ messages (snd (fst r)) = messages w
       ∧ settings (snd (fst r)) = settings w
       ∧ clients (snd (fst r)) = clients w ∧ rateLimits (snd (fst r)) = rateLimits w
       ∧ typingThrottle (snd (fst r)) = typingThrottle w).
Proof.
  split.
  - induction frames as [|[raw t] frames IH]; intros c w; cbv zeta; intros Hu Hend.
    { done. }
    cbn [map deliverAll fst snd deliver] in *.
    pose proof (onMessage_before_auth pf cfg c w raw t Hu) as Hstep. cbv zeta in Hstep.
    pose proof (frames_authenticated pf cfg frames) as Hkeep.
    destruct (onMessage pf cfg c w raw t) as [[c1 w1] out1]. cbn [fst snd] in Hstep.
    specialize (IH c1 w1). cbv zeta in IH. specialize (Hkeep c1 w1).
    destruct (deliverAll pf cfg c1 w1 _) as [[c2 w2] out2]. cbn [fst snd] in *.
    destruct Hstep as (Hv & Hm & Hc & Hr & Ht & Hs & Hun).
    destruct (authenticated c1) eqn:Ha1; [specialize (Hkeep eq_refl); congruence|].
    destruct (Hun eq_refl) as (-> & Hts & Hout).
    destruct (IH eq_refl Hend) as (-> & -> & -> & -> & -> & -> & -> & -> & Hout2).
    repeat split; try done. rewrite forallb_app. by rewrite Hout, Hout2.
  - intros c w raw nowMs. cbv zeta. intros Hu.
    by destruct (onMessage_before_auth pf cfg c w raw nowMs Hu)
      as (-> & -> & -> & -> & -> & -> & _).
Qed.

Section Connection.
Variable pf : Platform.
Variable cfg : Config.

(** The variables of a connection after the handler body. *)
Lemma dispatch_conn c w msg nowMs :
  let c' := fst (fst (dispatch pf cfg c w msg nowMs)) in
  c' = c
  ∨ (authenticated c = false
     ∧ ∃ token verified,
         fst (Session.verifyToken pf cfg token (origin c) nowMs (tokenSessions w))
           = Some verified
         ∧ c' = mkConn (ws c) (origin c) (ip c) (visitorId c) (Some verified)
                  (rateLimitKeys pf verified (ip c)) true (authDeadline c) false)
  ∨ (authenticated c = true
     ∧ ∃ verified, claims c = Some verified
         ∧ c' = mkConn (ws c) (origin c) (ip c) (Some (TokenClaims.sub verified))
                  (claims c) (rlKeys c) (authenticated c) (authDeadline c)
                  (authTimeoutPending c)).
Proof.
  cbv zeta. unfold dispatch. destruct (authenticated c) eqn:Ha; cbn [negb].
  - destruct (claims c) as [verified|] eqn:Hc; [|by left].
    case_bool_decide.
    { right. right. split; [done|]. exists verified. split; [done|].
      unfold handleInit. cbn [fst]. by rewrite Hc, Ha. }
    destruct (visitorId c) as [[|ch rest]|]; [by left| |by left].
    case_bool_decide.
    { unfold handleTyping. destruct (_ >? _); by left. }
    case_bool_decide; [|by left].
    unfold handleUserMessage.
    destruct (asString (prop msg "content")) as [content|]; [|by left].
    cbv zeta. destruct (_ || _); [by left|].
    destruct (RateLimiter.checkRateLimitKeys _ _ _) as [[] rl]; [|by left].
    destruct (Db.addMessage _ _ _ _ _ _ _). by left.
  - unfold handleAuth.
    destruct (asString (prop msg "type")) as [type|]; [|by left].
    destruct (asString (prop msg "token")) as [token|]; [|by left].
    destruct (negb _); [by left|].
    destruct (Session.verifyToken pf cfg token (origin c) nowMs (tokenSessions w))
      as [[verified|] db] eqn:Hv; [|by left].
    right. left. split; [done|]. exists token, verified. by rewrite Hv.
Qed.

Lemma deliver_conn c w ev nowMs :
  let c' := fst (fst (deliver pf cfg c w ev nowMs)) in
  c' = c
  ∨ c' = mkConn (ws c) (origin c) (ip c) (visitorId c) (claims c) (rlKeys c)
           (authenticated c) (authDeadline c) false
  ∨ (authenticated c = false
     ∧ ∃ token verified,
         fst (Session.verifyToken pf cfg token (origin c) nowMs (tokenSessions w))
           = Some verified
         ∧ c' = mkConn (ws c) (origin c) (ip c) (visitorId c) (Some verified)
                  (rateLimitKeys pf verified (ip c)) true (authDeadline c) false)
  ∨ (authenticated c = true
     ∧ ∃ verified, claims c = Some verified
         ∧ c' = mkConn (ws c) (origin c) (ip c) (Some (TokenClaims.sub verified))
                  (claims c) (rlKeys c) (authenticated c) (authDeadline c)
                  (authTimeoutPending c)).
Proof.
  cbv zeta. destruct ev as [raw| |]; cbn [deliver].
  - destruct (onMessage_cases pf cfg c w raw nowMs) as [->|[msg ->]]; [by left|].
    destruct (dispatch_conn c w msg nowMs) as [H|[H|H]]; auto.
  - destruct (_ && _); [|by left]. unfold onAuthTimeout.
    destruct (negb _); right; by left.
  - unfold onClose. right. left.
    destruct (visitorId c) as [[|ch rest]|]; try done.
    by destruct (clients (closeSocket (ws c) w) !! _).
Qed.

Lemma deliver_connInv c w ev nowMs :
  connInv c → connInv (fst (fst (deliver pf cfg c w ev nowMs))).
Proof.
  intros (Hauth & Hpend & Hvis).
  destruct (deliver_conn c w ev nowMs)
    as [->|[->|[(Hu & token & verified & Hv & ->)|(Ha & verified & Hc & ->)]]].
  - done.
  - done.
  - unfold connInv. cbn. split; [split; [by eexists|done]|]. split; [done|].
    intros v Hv'. apply Hvis in Hv' as (cl & Hcl' & _).
    assert (authenticated c = true) by (apply Hauth; by rewrite Hcl').
    congruence.
  - unfold connInv. cbn. split; [done|]. split; [done|].
    intros v [= <-]. by exists verified.
Qed.

Lemma deliver_connOf s o i c w ev nowMs :
  connOf pf cfg s o i c →
  connOf pf cfg s o i (fst (fst (deliver pf cfg c w ev nowMs))).
Proof.
  intros (Hs & Ho & Hi & Hinv & Hcl).
  pose proof (deliver_connInv c w ev nowMs Hinv) as Hinv'.
  destruct Hinv as (Hauth & Hpend & Hvis).
  destruct (deliver_conn c w ev nowMs)
    as [Hc'|[Hc'|[(Hu & token & verified & Hv & Hc')|(Ha & verified & Hc & Hc')]]];
    rewrite Hc' in *; split_and!; cbn; try done.
  intros v [= <-]. subst i o. split; [done|].
  by exists token, nowMs, (tokenSessions w).
Qed.

Lemma deliver_claims c w ev nowMs verified :
  connInv c → claims c = Some verified →
  claims (fst (fst (deliver pf cfg c w ev nowMs))) = Some verified.
Proof.
  intros (Hauth & _) Hc.
  destruct (deliver_conn c w ev nowMs)
    as [->|[->|[(Hu & token & v & Hv & ->)|(Ha & v & Hc' & ->)]]]; try done.
  assert (authenticated c = true) by (apply Hauth; by rewrite Hc). congruence.
Qed.

Lemma deliverAll_app c w evs1 evs2 :
  deliverAll pf cfg c w (evs1 ++ evs2)
  = let '(c1, w1, out1) := deliverAll pf cfg c w evs1 in
    let '(c2, w2, out2) := deliverAll pf cfg c1 w1 evs2 in
    (c2, w2, out1 ++ out2).
Proof.
  revert c w. induction evs1 as [|[ev t] evs1 IH]; intros c w; cbn [app deliverAll].
  - by destruct (deliverAll pf cfg c w evs2) as [[c2 w2] out2].
  - destruct (deliver pf cfg c w ev t) as [[c1 w1] out1]. rewrite IH.
    destruct (deliverAll pf cfg c1 w1 evs1) as [[c2 w2] out2].
    destruct (deliverAll pf cfg c2 w2 evs2) as [[c3 w3] out3].
    by rewrite app_assoc.
Qed.

Lemma deliverAll_connOf s o i evs c w :
  connOf pf cfg s o i c →
  connOf pf cfg s o i (fst (fst (deliverAll pf cfg c w evs))).
Proof.
  revert c w. induction evs as [|[ev t] evs IH]; intros c w Hc; [done|].
  cbn [deliverAll].
  pose proof (deliver_connOf s o i c w ev t Hc) as H1.
  destruct (deliver pf cfg c w ev t) as [[c1 w1] out1]. cbn [fst] in H1.
  specialize (IH c1 w1 H1).
  by destruct (deliverAll pf cfg c1 w1 evs) as [[c2 w2] out2].
Qed.

Lemma deliverAll_claims evs c w verified :
  connInv c → claims c = Some verified →
  claims (fst (fst (deliverAll pf cfg c w evs))) = Some verified.
Proof.
  revert c w. induction evs as [|[ev t] evs IH]; intros c w Hinv Hc; [done|].
  cbn [deliverAll].
  pose proof (deliver_claims c w ev t verified Hinv Hc) as H1.
  pose proof (deliver_connInv c w ev t Hinv) as H2.
  destruct (deliver pf cfg c w ev t) as [[c1 w1] out1]. cbn [fst] in H1, H2.
  specialize (IH c1 w1 H2 H1).
  by destruct (deliverAll pf cfg c1 w1 evs) as [[c2 w2] out2].
Qed.

Lemma onConnection_connOf s o i t0 :
  connOf pf cfg s o i (onConnection s o i t0).
Proof.
  unfold onConnection, connOf, connInv. cbn.
  split_and!; first [done | by intros [? ?]].
Qed.

(** The effects of the handler body, and what it does to the messages and
    to the typing throttle. *)
Lemma broadcast_sends v payload w e :
  e ∈ broadcastToVisitor v payload w → ∃ s, e = WsSend s payload.
Proof.
  unfold broadcastToVisitor. destruct (clients w !! v) as [sockets|].
  - intros (s & -> & _)%list_elem_of_fmap. by exists s.
  - by intros ?%elem_of_nil.
Qed.

Lemma dispatch_typing c w msg nowMs v :
  let r := dispatch pf cfg c w msg nowMs in
  (SendTypingToTopic v ∈ snd r →
     nowMs - default 0 (typingThrottle w !! v) > TYPING_THROTTLE
     ∧ typingThrottle (snd (fst r)) = <[v := nowMs]> (typingThrottle w))
  ∧ (SendTypingToTopic v ∉ snd r →
     typingThrottle (snd (fst r)) !! v = typingThrottle w !! v).
Proof.
  cbv zeta. unfold dispatch. destruct (authenticated c) eqn:Ha; cbn [negb].
  - destruct (claims c) as [verified|] eqn:Hc.
    2:{ cbn. split; [|done]. by intros [=]%list_elem_of_singleton. }
    case_bool_decide.
    { unfold handleInit. cbn. split; [|done].
      intros [[=]|[[=]|[]%elem_of_nil]%elem_of_cons]%elem_of_cons. }
    destruct (visitorId c) as [[|ch rest]|];
      [by split; [intros ?%elem_of_nil|]| |by split; [intros ?%elem_of_nil|]].
    case_bool_decide.
    { unfold handleTyping. destruct (_ >? _) eqn:Hgt; cbn [fst snd typingThrottle].
      - split.
        + intros [= ->]%list_elem_of_singleton. apply Z.gtb_lt in Hgt.
          split; [lia|done].
        + intros Hn. destruct (decide (v = String ch rest)) as [->|Hne].
          * exfalso. apply Hn. by apply list_elem_of_singleton.
          * by rewrite lookup_insert_ne.
      - by split; [intros ?%elem_of_nil|]. }
    case_bool_decide; [|by split; [intros ?%elem_of_nil|]].
    unfold handleUserMessage.
    destruct (asString (prop msg "content")) as [content|];
      [|by cbn; split; [intros [=]%list_elem_of_singleton|]].
    cbv zeta. destruct (_ || _);
      [by cbn; split; [intros [=]%list_elem_of_singleton|]|].
    destruct (RateLimiter.checkRateLimitKeys _ _ _) as [[] rl];
      [|by cbn; split; [intros [=]%list_elem_of_singleton|]].
    destruct (Db.addMessage _ _ _ _ _ _ _) as [messages' rowid]. cbn [fst snd].
    split; [|done].
    intros [[s [=]]%broadcast_sends|[=]%list_elem_of_singleton]%elem_of_app.
  - pose proof (handleAuth_world pf cfg c w msg nowMs) as Hw. cbv zeta in Hw.
    destruct Hw as (_ & _ & _ & _ & -> & _).
    split; [|done]. unfold handleAuth.
    destruct (asString (prop msg "type")) as [type|];
      [|by intros [=]%list_elem_of_singleton].
    destruct (asString (prop msg "token")) as [token|];
      [|by intros [=]%list_elem_of_singleton].
    destruct (negb _); [by intros [=]%list_elem_of_singleton|].
    destruct (Session.verifyToken _ _ _ _ _ _) as [[verified|] db];
      by intros [=]%list_elem_of_singleton.
Qed.

Lemma onMessage_typing c w raw nowMs v :
  let r := onMessage pf cfg c w raw nowMs in
  (SendTypingToTopic v ∈ snd r →
     nowMs - default 0 (typingThrottle w !! v) > TYPING_THROTTLE
     ∧ typingThrottle (snd (fst r)) = <[v := nowMs]> (typingThrottle w))
  ∧ (SendTypingToTopic v ∉ snd r →
     typingThrottle (snd (fst r)) !! v = typingThrottle w !! v).
Proof.
  cbv zeta.
  destruct (onMessage_cases pf cfg c w raw nowMs) as [->|[msg ->]].
  - cbn. split; [|done]. by intros [=]%list_elem_of_singleton.
  - apply dispatch_typing.
Qed.

Lemma framesOfAll_quiet v last frames w :
  typingThrottle w !! v = Some last → 0 ≤ last →
  Forall (fun f => snd f - last ≤ TYPING_THROTTLE) frames →
  SendTypingToTopic v ∉ snd (framesOfAll pf cfg w frames).
Proof.
  revert w. induction frames as [|[[c raw] t] frames IH]; intros w Hlast Hpos Hall.
  { cbn. by intros ?%elem_of_nil. }
  apply Forall_cons in Hall as [Ht Hall]. cbn [snd] in Ht.
  cbn [framesOfAll].
  pose proof (onMessage_typing c w raw t v) as [Hfwd Hquiet]. 
  destruct (onMessage pf cfg c w raw t) as [[c1 w1] out1]. cbn [fst snd] in *.
  assert (SendTypingToTopic v ∉ out1) as Hout1.
  { intros Hin. apply Hfwd in Hin as [Hgt _]. rewrite Hlast in Hgt. cbn in Hgt. lia. }
  specialize (IH w1). rewrite (Hquiet Hout1) in IH. specialize (IH Hlast Hpos Hall).
  destruct (framesOfAll pf cfg w1 frames) as [w2 out2]. cbn [snd] in *.
  by intros [?|?]%elem_of_app.
Qed.

(** What the handler body does to the table of messages. *)
Lemma dispatch_messages c w msg nowMs :
  let r := dispatch pf cfg c w msg nowMs in
  (messages (snd (fst r)) = messages w
   ∧ ∀ v content type site fileUrl,
       SendToTopic v content type site fileUrl ∉ snd r)
  ∨ ∃ v m site,
      authenticated c = true ∧ visitorId c = Some v
      ∧ fst (RateLimiter.checkRateLimitKeys (rlKeys c) nowMs (rateLimits w)) = true
      ∧ messages (snd (fst r)) = messages w ++ [m]
      ∧ visitorTextRow v m
      ∧ Db.msg_id m = Db.nextId (messages w)
      ∧ last (snd r) = Some (SendToTopic v (Db.content m) Db.text site None).
Proof.
  cbv zeta. unfold dispatch. destruct (authenticated c) eqn:Ha; cbn [negb].
  - destruct (claims c) as [verified|] eqn:Hc.
    2:{ left. cbn. split; [done|]. by intros ????? [=]%list_elem_of_singleton. }
    case_bool_decide.
    { left. unfold handleInit. cbn. split; [done|].
      intros ????? [[=]|[[=]|[]%elem_of_nil]%elem_of_cons]%elem_of_cons. }
    destruct (visitorId c) as [[|ch rest]|] eqn:Hvis;
      [by left; split; [|intros ????? ?%elem_of_nil]|
      |by left; split; [|intros ????? ?%elem_of_nil]].
    case_bool_decide.
    { left. unfold handleTyping. destruct (_ >? _); cbn.
      - split; [done|]. by intros ????? [=]%list_elem_of_singleton.
      - split; [done|]. by intros ????? ?%elem_of_nil. }
    case_bool_decide; [|by left; split; [|intros ????? ?%elem_of_nil]].
    unfold handleUserMessage.
    destruct (asString (prop msg "content")) as [content|];
      [|by left; cbn; split; [|intros ????? [=]%list_elem_of_singleton]].
    cbv zeta. destruct (_ || _) eqn:Hlen;
      [by left; cbn; split; [|intros ????? [=]%list_elem_of_singleton]|].
    destruct (RateLimiter.checkRateLimitKeys _ _ _) as [[] rl] eqn:Hrl;
      [|by left; cbn; split; [|intros ????? [=]%list_elem_of_singleton]].
    right. unfold Db.addMessage. cbn [fst snd messages].
    eexists _, _, _. split; [done|]. split; [done|]. split; [done|].
    split; [done|]. split.
    { unfold visitorTextRow. cbn. split_and!; try done.
      - apply orb_false_iff in Hlen as [Hmin _]. lia.
      - apply orb_false_iff in Hlen as [_ Hmax]. unfold MAX_MESSAGE_LENGTH in *. lia. }
    split; [done|]. by rewrite last_snoc.
  - left. pose proof (handleAuth_world pf cfg c w msg nowMs) as Hw. cbv zeta in Hw.
    destruct Hw as (_ & -> & _).
    split; [done|]. unfold handleAuth.
    destruct (asString (prop msg "type")) as [type|];
      [|by intros ????? [=]%list_elem_of_singleton].
    destruct (asString (prop msg "token")) as [token|];
      [|by intros ????? [=]%list_elem_of_singleton].
    destruct (negb _); [by intros ????? [=]%list_elem_of_singleton|].
    destruct (Session.verifyToken _ _ _ _ _ _) as [[verified|] db];
      by intros ????? [=]%list_elem_of_singleton.
Qed.

Lemma deliver_messages c w ev nowMs :
  let r := deliver pf cfg c w ev nowMs in
  messages (snd (fst r)) = messages w
  ∨ ∃ v m, visitorId c = Some v
      ∧ messages (snd (fst r)) = messages w ++ [m] ∧ visitorTextRow v m.
Proof.
  cbv zeta. destruct ev as [raw| |]; cbn [deliver].
  - destruct (onMessage_cases pf cfg c w raw nowMs) as [->|[msg ->]]; [by left|].
    destruct (dispatch_messages c w msg nowMs)
      as [[H _]|(v & m & site & _ & Hv & _ & Hm & Hrow & _)]; [by left|].
    right. by exists v, m.
  - left. destruct (_ && _); [|done]. unfold onAuthTimeout. by destruct (negb _).
  - left. unfold onClose. destruct (visitorId c) as [[|ch rest]|]; try done.
    by destruct (clients (closeSocket (ws c) w) !! _).
Qed.

(** Rows of visitors are only added or updated, and the visitor of a
    connection has its row from the moment the connection names it. *)
Lemma upsertVisitor_keeps id name site email auth now visitors v :
  is_Some (visitors !! v) →
  is_Some (Db.upsertVisitor id name site email auth now visitors !! v).
Proof.
  intros Hv. unfold Db.upsertVisitor.
  destruct (visitors !! id) as [old|]; (destruct (decide (v = id)) as [->|Hne];
    [rewrite lookup_insert_eq; by eexists | by rewrite lookup_insert_ne]).
Qed.

Lemma upsertVisitor_row id name site email auth now visitors :
  is_Some (Db.upsertVisitor id name site email auth now visitors !! id).
Proof.
  unfold Db.upsertVisitor.
  destruct (visitors !! id) as [old|]; rewrite lookup_insert_eq; by eexists.
Qed.

Lemma dispatch_visitors c w msg nowMs :
  let r := dispatch pf cfg c w msg nowMs in
  (∀ v, is_Some (visitors w !! v) → is_Some (visitors (snd (fst r)) !! v))
  ∧ (visitorRowExists c w → visitorRowExists (fst (fst r)) (snd (fst r))).
Proof.
  cbv zeta. unfold dispatch. destruct (authenticated c) eqn:Ha; cbn [negb].
  - destruct (claims c) as [verified|] eqn:Hc; [|done].
    case_bool_decide.
    { unfold handleInit, visitorRowExists. cbn. split.
      - intros v. apply upsertVisitor_keeps.
      - intros _ v [= <-]. apply upsertVisitor_row. }
    destruct (visitorId c) as [[|ch rest]|] eqn:Hvis; try done.
    case_bool_decide.
    { unfold handleTyping. destruct (_ >? _); cbn; [|done].
      split; [done|]. unfold visitorRowExists. by rewrite Hvis. }
    case_bool_decide; [|done].
    unfold handleUserMessage.
    destruct (asString (prop msg "content")) as [content|]; [|done].
    cbv zeta. destruct (_ || _); [done|].
    destruct (RateLimiter.checkRateLimitKeys _ _ _) as [[] rl].
    + destruct (Db.addMessage _ _ _ _ _ _ _) as [messages' rowid]. cbn.
      split; [done|]. unfold visitorRowExists. by rewrite Hvis.
    + cbn. split; [done|]. unfold visitorRowExists. by rewrite Hvis.
  - pose proof (handleAuth_world pf cfg c w msg nowMs) as Hw. cbv zeta in Hw.
    destruct Hw as (Hv & _). rewrite Hv. split; [done|].
    unfold visitorRowExists. rewrite Hv.
    destruct (dispatch_conn c w msg nowMs) as [H|[(_ & token & verified & _ & H)|(H & _)]];
      [| |congruence]; unfold dispatch in H; rewrite Ha in H; cbn [negb] in H;
      rewrite H; done.
Qed.

Lemma deliver_visitors c w ev nowMs :
  let r := deliver pf cfg c w ev nowMs in
  (∀ v, is_Some (visitors w !! v) → is_Some (visitors (snd (fst r)) !! v))
  ∧ (visitorRowExists c w → visitorRowExists (fst (fst r)) (snd (fst r))).
Proof.
  cbv zeta. destruct ev as [raw| |]; cbn [deliver].
  - destruct (onMessage_cases pf cfg c w raw nowMs) as [->|[msg ->]]; [done|].
    apply dispatch_visitors.
  - destruct (_ && _); [|done]. unfold onAuthTimeout. by destruct (negb _).
  - unfold onClose. destruct (visitorId c) as [[|ch rest]|] eqn:Hvis;
      unfold visitorRowExists; cbn; try (by rewrite Hvis).
    destruct (clients w !! String ch rest); cbn; by rewrite Hvis.
Qed.

Lemma deliverAll_visitors evs c w :
  let r := deliverAll pf cfg c w evs in
  (∀ v, is_Some (visitors w !! v) → is_Some (visitors (snd (fst r)) !! v))
  ∧ (visitorRowExists c w → visitorRowExists (fst (fst r)) (snd (fst r))).
Proof.
  revert c w. induction evs as [|[ev t] evs IH]; intros c w; cbv zeta; [done|].
  cbn [deliverAll].
  pose proof (deliver_visitors c w ev t) as [Hk1 Hr1].
  destruct (deliver pf cfg c w ev t) as [[c1 w1] out1]. cbn [fst snd] in *.
  specialize (IH c1 w1). cbv zeta in IH.
  destruct (deliverAll pf cfg c1 w1 evs) as [[c2 w2] out2]. cbn [fst snd] in *.
  destruct IH as [Hk2 Hr2]. split; [by auto|by auto].
Qed.

Lemma deliverAll_messages s o i evs c w :
  connOf pf cfg s o i c → visitorRowExists c w →
  let r := deliverAll pf cfg c w evs in
  ∃ rows, messages (snd (fst r)) = messages w ++ rows
    ∧ ∀ m, m ∈ rows →
        is_Some (visitors (snd (fst r)) !! Db.visitor_id m)
        ∧ ∃ verified, claims (fst (fst r)) = Some verified
          ∧ tokenVerified pf cfg o verified
          ∧ visitorTextRow (TokenClaims.sub verified) m.
Proof.
  revert c w. induction evs as [|[ev t] evs IH]; intros c w Hc Hfk; cbv zeta.
  { exists []. cbn. split; [by rewrite app_nil_r|]. by intros m ?%elem_of_nil. }
  cbn [deliverAll].
  pose proof (deliver_connOf s o i c w ev t Hc) as H1.
  pose proof (deliver_messages c w ev t) as Hm. cbv zeta in Hm.
  pose proof (deliverAll_claims evs (fst (fst (deliver pf cfg c w ev t)))
                (snd (fst (deliver pf cfg c w ev t)))) as Hkeep.
  pose proof (deliverAll_visitors evs (fst (fst (deliver pf cfg c w ev t)))
                (snd (fst (deliver pf cfg c w ev t)))) as [Hgrow _].
  pose proof (deliver_claims c w ev t) as Hkeep1.
  pose proof (deliver_visitors c w ev t) as [Hgrow1 Hfk1].
  destruct (deliver pf cfg c w ev t) as [[c1 w1] out1]. cbn [fst snd] in *.
  specialize (IH c1 w1 H1 (Hfk1 Hfk)). cbv zeta in IH.
  destruct (deliverAll pf cfg c1 w1 evs) as [[c2 w2] out2]. cbn [fst snd] in *.
  destruct IH as (rows & Hrows & Hall).
  destruct Hm as [Hm|(v & m & Hv & Hm & Hrow)].
  - exists rows. by rewrite Hrows, Hm.
  - exists (m :: rows). split.
    { rewrite Hrows, Hm. by rewrite <- app_assoc. }
    intros m' [->|Hin]%elem_of_cons; [|by apply Hall].
    destruct Hc as (_ & _ & _ & Hinv & Hcl).
    destruct (proj2 (proj2 Hinv) v Hv) as (verified & Hcv & ->).
    split.
    { apply Hgrow, Hgrow1. destruct Hrow as [-> _]. by apply Hfk. }
    exists verified. split; [|split; [by apply Hcl|done]].
    apply Hkeep; [apply H1|]. by apply Hkeep1.
Qed.

End Connection.

(** X6.  The variables of a connection.  Whatever events reach a
    connection, its socket, Origin and address stay those of the upgrade
    request; it is authenticated exactly when it holds claims, and these
    are what [verifyToken] gave for a token presented with the Origin of
    the connection; its rate-limit keys are those of the claims and the
    address; its visitor id, once set, is the subject of the claims.  Claims
    a connection holds are never replaced. *)
Theorem connection_identity pf cfg s o i t0 evs1 evs2 w :
  let r1 := deliverAll pf cfg (onConnection s o i t0) w evs1 in
  let r2 := deliverAll pf cfg (onConnection s o i t0) w (evs1 ++ evs2) in
  connOf pf cfg s o i (fst (fst r1))
  ∧ ∀ verified, claims (fst (fst r1)) = Some verified →
      claims (fst (fst r2)) = Some verified.
Proof.
  cbv zeta.
  pose proof (deliverAll_connOf pf cfg s o i evs1 _ w (onConnection_connOf pf cfg s o i t0))
    as Hc.
  split; [done|]. intros verified Hv. rewrite deliverAll_app.
  destruct (deliverAll pf cfg (onConnection s o i t0) w evs1) as [[c1 w1] out1].
  cbn [fst] in *.
  pose proof (deliverAll_claims pf cfg evs2 c1 w1 verified) as H2.
  destruct (deliverAll pf cfg c1 w1 evs2) as [[c2 w2] out2]. cbn [fst] in *.
  apply H2; [|done]. apply Hc.
Qed.

Lemma connection_identity_witness :
  claims (fst (fst (deliverAll Demo.platform Demo.config Demo.conn0 Demo.world0
     ([(Frame Demo.authFrame, 1000)]
      ++ [(Frame Demo.spoofedInitFrame, 2000);
          (Frame (Demo.objectText [("type", "auth"); ("token", "T2")]), 3000);
          (TimerDue, 6000); (Closed, 7000)]))))
  = Some (TokenClaims.mk "u1" "J" 100 None None None None None).
Proof.
  apply (proj2 (connection_identity Demo.platform Demo.config 1 "https://a.example"
                  "10.0.0.1" 0 [(Frame Demo.authFrame, 1000)] _ Demo.world0)).
  vm_compute. reflexivity.
Defined.

(** X7.  The typing signal is forwarded at most once in five seconds.
    Once a frame has made the gateway forward a typing signal for a
    visitor at time [t1], no frame of any connection that is handled up to
    5000 ms after [t1] makes it forward another one for that visitor. *)
Theorem typing_throttle pf cfg c w raw t1 v frames :
  0 ≤ t1 →
  SendTypingToTopic v ∈ snd (onMessage pf cfg c w raw t1) →
  Forall (fun f => snd f - t1 ≤ TYPING_THROTTLE) frames →
  SendTypingToTopic v
    ∉ snd (framesOfAll pf cfg (snd (fst (onMessage pf cfg c w raw t1))) frames).
Proof.
  intros Hpos Hin Hall.
  destruct (onMessage_typing pf cfg c w raw t1 v) as [Hfwd _].
  destruct (Hfwd Hin) as [_ Hth].
  apply (framesOfAll_quiet pf cfg v t1); [|done|done].
  rewrite Hth. by rewrite lookup_insert_eq.
Qed.

Lemma typing_throttle_witness :
  let c := fst DemoMore.initialised in
  let w := snd DemoMore.initialised in
  SendTypingToTopic "u1"
    ∉ snd (framesOfAll Demo.platform Demo.config
             (snd (fst (onMessage Demo.platform Demo.config c w
                          DemoMore.typingFrame 10000)))
             [(c, DemoMore.typingFrame, 12000); (Demo.conn0, Demo.authFrame, 13000);
              (c, DemoMore.typingFrame, 15000)]).
Proof.
  cbv zeta. apply typing_throttle.
  - lia.
  - assert (snd (onMessage Demo.platform Demo.config (fst DemoMore.initialised)
                   (snd DemoMore.initialised) DemoMore.typingFrame 10000)
            = [SendTypingToTopic "u1"]) as H by (vm_compute; reflexivity).
    rewrite H. by apply list_elem_of_singleton.
  - unfold TYPING_THROTTLE. repeat constructor; cbn [snd]; lia.
Defined.

(** X8.  Every row the gateway stores is the visitor's own.  The rows
    that the events of a connection add to the table of messages come after
    the rows that were there, and each of them is a text row of one to 2000
    characters, sent by the visitor, without a file, that belongs to the
    subject of the claims the connection holds, which [verifyToken] gave
    for a token presented with the Origin of the connection; the visitor
    the row refers to has its row in the table of visitors. *)
Theorem stored_rows_belong_to_subject pf cfg s o i t0 evs w :
  let r := deliverAll pf cfg (onConnection s o i t0) w evs in
  ∃ rows, messages (snd (fst r)) = messages w ++ rows
    ∧ ∀ m, m ∈ rows →
        is_Some (visitors (snd (fst r)) !! Db.visitor_id m)
        ∧ ∃ verified, claims (fst (fst r)) = Some verified
          ∧ tokenVerified pf cfg o verified
          ∧ visitorTextRow (TokenClaims.sub verified) m.
Proof.
  apply (deliverAll_messages pf cfg s o i); [apply onConnection_connOf|].
  by intros v [=].
Qed.

(** X9.  A frame is stored and handed to the bridge together or not at
    all.  On a connection whose visitor has its row, the handler body
    either leaves the table of messages as it is and hands nothing to the
    bridge, or the connection is authenticated, the limiter has accepted
    the keys of the connection, exactly one row is appended, with the next
    id of the table, for the visitor of the connection, and the last effect
    hands the content of that row to the bridge. *)
Theorem stored_iff_forwarded pf cfg c w msg nowMs :
  visitorRowExists c w →
  let r := dispatch pf cfg c w msg nowMs in
  (messages (snd (fst r)) = messages w
   ∧ ∀ v content type site fileUrl,
       SendToTopic v content type site fileUrl ∉ snd r)
  ∨ ∃ v m site,
      authenticated c = true ∧ visitorId c = Some v
      ∧ fst (RateLimiter.checkRateLimitKeys (rlKeys c) nowMs (rateLimits w)) = true
      ∧ messages (snd (fst r)) = messages w ++ [m]
      ∧ visitorTextRow v m
      ∧ Db.msg_id m = Db.nextId (messages w)
      ∧ last (snd r) = Some (SendToTopic v (Db.content m) Db.text site None).
Proof.
  intros _. apply dispatch_messages.
Qed.

Lemma stored_iff_forwarded_witness :
  let c := fst DemoMore.initialised in
  let w := snd DemoMore.initialised in
  let r := dispatch Demo.platform Demo.config c w
             (JObj [("type", JStr "message"); ("content", JStr "hi")]) 3000 in
  messages (snd (fst r))
  = [Db.mkMessage 1 "u1" Db.visitor "hi" Db.text None 3]
  ∧ last (snd r) = Some (SendToTopic "u1" "hi" Db.text "default" None).
Proof.
  cbv zeta.
  destruct (stored_iff_forwarded Demo.platform Demo.config
              (fst DemoMore.initialised) (snd DemoMore.initialised)
              (JObj [("type", JStr "message"); ("content", JStr "hi")]) 3000)
    as [[_ Hnone]|(v & m & site & _ & _ & _ & _ & _ & _ & _)].
  - intros v. vm_compute. intros [= <-]. by eexists.
  - exfalso. apply (Hnone "u1" "hi" Db.text "default" None).
    vm_compute. apply list_elem_of_here || (right; left).
  - vm_compute. done.
Defined.

End GatewayMore.

(** ** Connection gateway: closing, the fan-out map, the rows of visitors *)

Module GatewayClose.
Import Js Gateway GatewaySpec GatewayFacts GatewayMore.

Section Connection.
Variable pf : Platform.
Variable cfg : Config.

(** An authenticated connection is not closed by its handlers. *)
Lemma dispatch_no_close c w msg nowMs :
  authenticated c = true → is_Some (claims c) →
  let r := dispatch pf cfg c w msg nowMs in
  (∀ s code reason, WsClose s code reason ∉ snd r)
  ∧ openSockets (snd (fst r)) = openSockets w.
Proof.
  intros Ha [verified Hc]. cbv zeta. unfold dispatch. rewrite Ha, Hc. cbn [negb].
  case_bool_decide.
  { unfold handleInit. cbn. split; [|done].
    intros ??? [[=]|[[=]|[]%elem_of_nil]%elem_of_cons]%elem_of_cons. }
  destruct (visitorId c) as [[|ch rest]|] eqn:Hvis;
    [by split; [intros ??? ?%elem_of_nil|]|
    |by split; [intros ??? ?%elem_of_nil|]].
  case_bool_decide.
  { unfold handleTyping. destruct (_ >? _); cbn.
    - split; [|done]. by intros ??? [=]%list_elem_of_singleton.
    - split; [|done]. by intros ??? ?%elem_of_nil. }
  case_bool_decide; [|by split; [intros ??? ?%elem_of_nil|]].
  unfold handleUserMessage.
  destruct (asString (prop msg "content")) as [content|];
    [|by cbn; split; [intros ??? [=]%list_elem_of_singleton|]].
  cbv zeta. destruct (_ || _);
    [by cbn; split; [intros ??? [=]%list_elem_of_singleton|]|].
  destruct (RateLimiter.checkRateLimitKeys _ _ _) as [[] rl];
    [|by cbn; split; [intros ??? [=]%list_elem_of_singleton|]].
  destruct (Db.addMessage _ _ _ _ _ _ _) as [messages' rowid]. cbn [fst snd].
  split; [|done].
  intros ??? [[s' [=]]%broadcast_sends|[=]%list_elem_of_singleton]%elem_of_app.
Qed.

Lemma deliverAll_no_close evs c w :
  connInv c → authenticated c = true →
  let r := deliverAll pf cfg c w evs in
  (∀ s code reason, WsClose s code reason ∉ snd r)
  ∧ (Forall (fun ev => fst ev ≠ Closed) evs →
     openSockets (snd (fst r)) = openSockets w).
Proof.
  revert c w. induction evs as [|[ev t] evs IH]; intros c w Hinv Ha; cbv zeta.
  { cbn. split; [|done]. by intros ??? ?%elem_of_nil. }
  cbn [deliverAll].
  pose proof (deliver_connInv pf cfg c w ev t Hinv) as Hinv1.
  assert (authenticated (fst (fst (deliver pf cfg c w ev t))) = true
          ∧ (∀ s code reason, WsClose s code reason ∉ snd (deliver pf cfg c w ev t))
          ∧ (ev ≠ Closed →
             openSockets (snd (fst (deliver pf cfg c w ev t))) = openSockets w))
    as (Ha1 & Hout1 & Hopen1).
  { destruct ev as [raw| |]; cbn [deliver].
    - destruct (onMessage_cases pf cfg c w raw t) as [->|[msg ->]].
      { cbn. split; [done|]. split; [|done]. by intros ??? [=]%list_elem_of_singleton. }
      split; [by apply dispatch_authenticated|].
      destruct (dispatch_no_close c w msg t Ha) as [H1 H2]; [by apply Hinv|].
      done.
    - destruct Hinv as (_ & Hpend & _). rewrite (Hpend Ha). cbn.
      split; [done|]. split; [|done]. by intros ??? ?%elem_of_nil.
    - assert (authenticated (fst (onClose c w)) = true) as Hc.
      { unfold onClose. destruct (visitorId c) as [[|ch rest]|]; try done.
        by destruct (clients (closeSocket (ws c) w) !! _). }
      destruct (onClose c w) as [c' w']. cbn [fst snd] in *.
      split; [done|]. split; [|done]. by intros ??? ?%elem_of_nil. }
  destruct (deliver pf cfg c w ev t) as [[c1 w1] out1]. cbn [fst snd] in *.
  specialize (IH c1 w1 Hinv1 Ha1). cbv zeta in IH.
  destruct (deliverAll pf cfg c1 w1 evs) as [[c2 w2] out2]. cbn [fst snd] in *.
  destruct IH as [Hout2 Hopen2]. split.
  - intros s code reason [?|?]%elem_of_app; [by eapply Hout1|by eapply Hout2].
  - intros [Hev Hevs]%Forall_cons. cbn [fst] in Hev.
    by rewrite (Hopen2 Hevs), (Hopen1 Hev).
Qed.

(** The sets of sockets are never left empty. *)
Lemma setAdd_nonempty s sockets : setAdd s sockets ≠ [].
Proof.
  unfold setAdd. case_bool_decide as Hin.
  - intros ->. by apply elem_of_nil in Hin.
  - by destruct sockets.
Qed.

Lemma onClose_clients c w :
  let w' := snd (onClose c w) in
  openSockets w' = openSockets w ∖ {[ws c]}
  ∧ (∀ v s, registered w' v s ↔
       registered w v s ∧ ¬ (s = ws c ∧ visitorId c = Some v ∧ v ≠ ""))
  ∧ (noEmptySets (clients w) → noEmptySets (clients w')).
Proof.
  cbv zeta. unfold onClose, registered.
  destruct (visitorId c) as [[|ch rest]|] eqn:Hvis; cbn [snd closeSocket clients openSockets].
  - split; [done|]. split; [|done]. intros v s. split; [|by intros [? _]].
    intros H. split; [done|]. by intros (_ & [= <-] & ?).
  - destruct (clients w !! String ch rest) as [sockets|] eqn:Hs; cbn [snd clients openSockets].
    + split; [done|].
      assert (∀ x, x ∈ setDelete (ws c) sockets ↔ x ∈ sockets ∧ x ≠ ws c) as Hdel.
      { intros x. unfold setDelete. rewrite !list_elem_of_In, filter_In.
        rewrite negb_true_iff, Nat.eqb_neq. tauto. }
      split.
      * intros v s. destruct (decide (v = String ch rest)) as [->|Hne].
        -- destruct (setDelete (ws c) sockets) as [|y ys] eqn:Hd.
           ++ rewrite lookup_delete_eq. split; [by intros (? & [=] & _)|].
              intros [(l & Hl & Hin) Hn]. rewrite Hs in Hl. injection Hl as <-.
              assert (s ∈ @nil nat) as []%elem_of_nil.
              apply Hdel. split; [done|]. intros ->. by apply Hn.
           ++ rewrite lookup_insert_eq. split.
              ** intros (l & [= <-] & Hin). apply Hdel in Hin as [Hin Hn].
                 split; [by exists sockets|]. by intros (? & _).
              ** intros [(l & Hl & Hin) Hn]. rewrite Hs in Hl. injection Hl as <-.
                 eexists. split; [done|]. apply Hdel. split; [done|].
                 intros ->. by apply Hn.
        -- assert (∀ m' : gmap string (list nat),
                     (m' = delete (String ch rest) (clients w)
                      ∨ ∃ l, m' = <[String ch rest := l]> (clients w)) →
                     m' !! v = clients w !! v) as Hsame.
           { intros m' [->|[l ->]];
               [by rewrite lookup_delete_ne|by rewrite lookup_insert_ne]. }
           rewrite Hsame.
           ++ split; [|by intros [? _]]. intros H. split; [done|].
              intros (_ & [= <-] & _). done.
           ++ destruct (setDelete (ws c) sockets); [by left|right; by eexists].
      * intros Hne v. destruct (decide (v = String ch rest)) as [->|Hv].
        -- destruct (setDelete (ws c) sockets) as [|y ys].
           ++ by rewrite lookup_delete_eq.
           ++ by rewrite lookup_insert_eq.
        -- destruct (setDelete (ws c) sockets) as [|y ys].
           ++ rewrite lookup_delete_ne by done. apply Hne.
           ++ rewrite lookup_insert_ne by done. apply Hne.
    + split; [done|]. split; [|done]. intros v s. split; [|by intros [? _]].
      intros H. split; [done|]. intros (_ & [= <-] & _).
      destruct H as (l & Hl & _). cbn [closeSocket clients] in Hl. congruence.
  - split; [done|]. split; [|done]. intros v s. split; [|by intros [? _]].
    intros H. split; [done|]. by intros (_ & [=] & _).
Qed.

Lemma dispatch_clients c w msg nowMs :
  noEmptySets (clients w) →
  noEmptySets (clients (snd (fst (dispatch pf cfg c w msg nowMs)))).
Proof.
  intros Hne. unfold dispatch. destruct (authenticated c) eqn:Ha; cbn [negb].
  - destruct (claims c) as [verified|] eqn:Hc; [|done].
    case_bool_decide.
    { unfold handleInit. cbn. intros v.
      destruct (decide (v = TokenClaims.sub verified)) as [->|Hv].
      - rewrite lookup_insert_eq. intros [= H']. by apply setAdd_nonempty in H'.
      - rewrite lookup_insert_ne by done. apply Hne. }
    destruct (visitorId c) as [[|ch rest]|]; try done.
    case_bool_decide.
    { unfold handleTyping. by destruct (_ >? _). }
    case_bool_decide; [|done].
    unfold handleUserMessage.
    destruct (asString (prop msg "content")) as [content|]; [|done].
    cbv zeta. destruct (_ || _); [done|].
    destruct (RateLimiter.checkRateLimitKeys _ _ _) as [[] rl]; [|done].
    by destruct (Db.addMessage _ _ _ _ _ _ _).
  - pose proof (handleAuth_world pf cfg c w msg nowMs) as Hw. cbv zeta in Hw.
    destruct Hw as (_ & _ & -> & _). done.
Qed.

Lemma deliverAll_clients evs c w :
  noEmptySets (clients w) →
  noEmptySets (clients (snd (fst (deliverAll pf cfg c w evs)))).
Proof.
  revert c w. induction evs as [|[ev t] evs IH]; intros c w Hne; [done|].
  cbn [deliverAll].
  assert (noEmptySets (clients (snd (fst (deliver pf cfg c w ev t))))) as H1.
  { destruct ev as [raw| |]; cbn [deliver].
    - destruct (onMessage_cases pf cfg c w raw t) as [->|[msg ->]]; [done|].
      by apply dispatch_clients.
    - destruct (_ && _); [|done]. unfold onAuthTimeout. by destruct (negb _).
    - pose proof (onClose_clients c w) as (_ & _ & H). cbv zeta in H.
      destruct (onClose c w) as [c' w']. cbn [fst snd] in *. by apply H. }
  destruct (deliver pf cfg c w ev t) as [[c1 w1] out1]. cbn [fst snd] in *.
  specialize (IH c1 w1 H1).
  by destruct (deliverAll pf cfg c1 w1 evs) as [[c2 w2] out2].
Qed.

(** The gateway keeps what the rows of visitors know. *)
Lemma rowsKept_refl vs : rowsKept vs vs.
Proof. intros v row Hrow. exists row. by split. Qed.

Lemma rowsKept_trans vs1 vs2 vs3 :
  rowsKept vs1 vs2 → rowsKept vs2 vs3 → rowsKept vs1 vs3.
Proof.
  intros H12 H23 v row Hrow.
  destruct (H12 v row Hrow) as (row2 & Hrow2 & Ht & Hc & Hn & Hs & He).
  destruct (H23 v row2 Hrow2) as (row3 & Hrow3 & Ht' & Hc' & Hn' & Hs' & He').
  exists row3. split; [done|]. unfold rowKept. rewrite Ht', Hc'.
  split_and!; auto.
Qed.

Lemma upsertVisitor_rowsKept id name site email auth now vs :
  rowsKept vs (Db.upsertVisitor id name site email auth now vs).
Proof.
  intros v row Hrow. unfold Db.upsertVisitor.
  destruct (decide (v = id)) as [->|Hne].
  - rewrite Hrow, lookup_insert_eq. eexists. split; [done|].
    unfold rowKept, Db.coalesce. cbn. split_and!; try done.
    + intros Hn. by destruct name.
    + intros Hs. by destruct site.
    + intros He. by destruct email.
  - exists row. split; [|done].
    destruct (vs !! id); by rewrite lookup_insert_ne.
Qed.

Lemma dispatch_rowsKept c w msg nowMs :
  rowsKept (visitors w) (visitors (snd (fst (dispatch pf cfg c w msg nowMs)))).
Proof.
  unfold dispatch. destruct (authenticated c) eqn:Ha; cbn [negb].
  - destruct (claims c) as [verified|] eqn:Hc; [|apply rowsKept_refl].
    case_bool_decide.
    { unfold handleInit. cbn. apply upsertVisitor_rowsKept. }
    destruct (visitorId c) as [[|ch rest]|]; try apply rowsKept_refl.
    case_bool_decide.
    { unfold handleTyping. destruct (_ >? _); apply rowsKept_refl. }
    case_bool_decide; [|apply rowsKept_refl].
    unfold handleUserMessage.
    destruct (asString (prop msg "content")) as [content|]; [|apply rowsKept_refl].
    cbv zeta. destruct (_ || _); [apply rowsKept_refl|].
    destruct (RateLimiter.checkRateLimitKeys _ _ _) as [[] rl]; [|apply rowsKept_refl].
    destruct (Db.addMessage _ _ _ _ _ _ _). apply rowsKept_refl.
  - pose proof (handleAuth_world pf cfg c w msg nowMs) as Hw. cbv zeta in Hw.
    destruct Hw as (-> & _). apply rowsKept_refl.
Qed.

Lemma deliverAll_rowsKept evs c w :
  rowsKept (visitors w) (visitors (snd (fst (deliverAll pf cfg c w evs)))).
Proof.
  revert c w. induction evs as [|[ev t] evs IH]; intros c w; [apply rowsKept_refl|].
  cbn [deliverAll].
  assert (rowsKept (visitors w) (visitors (snd (fst (deliver pf cfg c w ev t))))) as H1.
  { destruct ev as [raw| |]; cbn [deliver].
    - destruct (onMessage_cases pf cfg c w raw t) as [->|[msg ->]];
        [apply rowsKept_refl|apply dispatch_rowsKept].
    - destruct (_ && _); [|apply rowsKept_refl]. unfold onAuthTimeout.
      destruct (negb _); apply rowsKept_refl.
    - unfold onClose. destruct (visitorId c) as [[|ch rest]|]; try apply rowsKept_refl.
      destruct (clients (closeSocket (ws c) w) !! _); apply rowsKept_refl. }
  destruct (deliver pf cfg c w ev t) as [[c1 w1] out1]. cbn [fst snd] in *.
  specialize (IH c1 w1).
  destruct (deliverAll pf cfg c1 w1 evs) as [[c2 w2] out2]. cbn [fst snd] in *.
  by eapply rowsKept_trans.
Qed.

End Connection.

(** X10.  The handlers never close a socket that has authenticated.  From
    the moment a connection is authenticated, no frame, timer or close
    event makes its handlers close a socket; as long as the peer does not
    close it, the set of open sockets stays as it is. *)
Theorem authenticated_socket_stays_open pf cfg s o i t0 evs1 evs2 w :
  let r1 := deliverAll pf cfg (onConnection s o i t0) w evs1 in
  let r2 := deliverAll pf cfg (fst (fst r1)) (snd (fst r1)) evs2 in
  authenticated (fst (fst r1)) = true →
  (∀ s' code reason, WsClose s' code reason ∉ snd r2)
  ∧ (Forall (fun ev => fst ev ≠ Closed) evs2 →
     openSockets (snd (fst r2)) = openSockets (snd (fst r1))).
Proof.
  cbv zeta. intros Ha. apply deliverAll_no_close; [|done].
  apply (deliverAll_connOf pf cfg s o i evs1 _ w (onConnection_connOf pf cfg s o i t0)).
Qed.

Lemma authenticated_socket_stays_open_witness :
  let r1 := deliverAll Demo.platform Demo.config Demo.conn0 Demo.world0
              [(Frame Demo.authFrame, 1000)] in
  let evs2 := [(Frame Demo.initFrame, 2000); (TimerDue, 5000);
               (Frame "not json", 6000); (Frame DemoMore.messageFrame, 7000);
               (Frame Demo.authFrame, 8000)] in
  let r2 := deliverAll Demo.platform Demo.config (fst (fst r1)) (snd (fst r1)) evs2 in
  (∀ s' code reason, WsClose s' code reason ∉ snd r2)
  ∧ openSockets (snd (fst r2)) = openSockets (snd (fst r1)).
Proof.
  cbv zeta.
  destruct (authenticated_socket_stays_open Demo.platform Demo.config 1
              "https://a.example" "10.0.0.1" 0 [(Frame Demo.authFrame, 1000)]
              [(Frame Demo.initFrame, 2000); (TimerDue, 5000);
               (Frame "not json", 6000); (Frame DemoMore.messageFrame, 7000);
               (Frame Demo.authFrame, 8000)] Demo.world0) as [H1 H2].
  { vm_compute. reflexivity. }
  split; [exact H1|]. apply H2. repeat constructor; discriminate.
Defined.

(** X11.  Closing deregisters the socket, and only it.  After the close
    handler the socket is no longer open; a socket is in the set of a
    visitor exactly when it was before and is not the closed socket under
    the visitor of the connection; no set is left empty. *)
Theorem close_deregisters c w :
  let w' := snd (onClose c w) in
  openSockets w' = openSockets w ∖ {[ws c]}
  ∧ (∀ v s, registered w' v s ↔
       registered w v s ∧ ¬ (s = ws c ∧ visitorId c = Some v ∧ v ≠ ""))
  ∧ (noEmptySets (clients w) → noEmptySets (clients w')).
Proof.
  apply onClose_clients.
Qed.

(** X12.  No visitor is ever mapped to an empty set of sockets: whatever
    events reach a connection, if no set is empty before, none is after. *)
Theorem no_empty_socket_sets pf cfg evs c w :
  noEmptySets (clients w) →
  noEmptySets (clients (snd (fst (deliverAll pf cfg c w evs)))).
Proof.
  apply deliverAll_clients.
Qed.

Lemma no_empty_socket_sets_witness :
  noEmptySets (clients (snd (fst (deliverAll Demo.platform Demo.config Demo.conn0
     Demo.world0 [(Frame Demo.authFrame, 1000); (Frame Demo.initFrame, 2000);
                  (Closed, 3000)])))).
Proof.
  apply no_empty_socket_sets. intros v.
  unfold Demo.world0. cbn [clients]. by rewrite lookup_empty.
Defined.

(** X13.  The gateway forgets nothing about a visitor.  Whatever events
    reach a connection, every row of the table of visitors is still there
    afterwards, with the thread cached for the visitor and the creation
    time unchanged, and with a name, a site and an email if it had one. *)
Theorem gateway_keeps_visitor_rows pf cfg evs c w :
  rowsKept (visitors w) (visitors (snd (fst (deliverAll pf cfg c w evs)))).
Proof.
  apply deliverAll_rowsKept.
Qed.

End GatewayClose.

(** ** More about the session validator *)

Module SessionMore.
Import Js Session SessionSpec SessionFacts.

Section WithPlatform.
Variable pf : Platform.
Variable cfg : Config.

(** What an accepting run of [validateTokenSession] went through. *)
Lemma validate_true claims host nowMs db db1 :
  validateTokenSession pf claims host nowMs db = (true, db1) →
  let now := nowMs / 1000 in
  let J := trim (TokenClaims.jti claims) in
  let S := trim (TokenClaims.sub claims) in
  let claimOriginHost := toHost pf (TokenClaims.origin claims) in
  let claimSite := tokenSiteHost pf (TokenClaims.site claims) in
  (String.eqb J "" || String.eqb S "" || (TokenClaims.exp claims <=? now)) = false
  ∧ (truthy claimOriginHost && differ (orElse claimOriginHost "") host) = false
  ∧ (truthy claimSite && differ (orElse claimSite "") host) = false
  ∧ ((db !! J = None
      ∧ db1 = <[J := TokenSessionRecord.mk J S (Some (orElse claimSite host))
                        (Some host) (TokenClaims.exp claims) None now now]> db)
     ∨ ∃ existing,
         db !! J = Some existing
         ∧ TokenSessionRecord.revoked_at existing = None
         ∧ differ (TokenSessionRecord.sub existing) S = false
         ∧ (TokenSessionRecord.expires_at existing <? now) = false
         ∧ (truthy (TokenSessionRecord.origin_host existing)
            && differ (orElse (TokenSessionRecord.origin_host existing) "") host)
           = false
         ∧ (truthy (TokenSessionRecord.site existing) && truthy claimSite
            && differ (orElse (TokenSessionRecord.site existing) "")
                      (orElse claimSite "")) = false
         ∧ db1 = touchTokenSession J now db).
Proof.
  unfold validateTokenSession. cbv zeta.
  destruct (_ || _ || _) eqn:H1; [done|].
  destruct (truthy (toHost pf (TokenClaims.origin claims)) && _) eqn:H2; [done|].
  destruct (truthy (tokenSiteHost pf (TokenClaims.site claims)) && _) eqn:H3; [done|].
  unfold getTokenSession, insertTokenSession.
  destruct (db !! trim (TokenClaims.jti claims)) as [existing|] eqn:Hrow.
  - case_bool_decide as Hrev; [done|].
    destruct (differ (TokenSessionRecord.sub existing) _) eqn:H4; [done|].
    destruct (TokenSessionRecord.expires_at existing <? _) eqn:H5; [done|].
    destruct (truthy (TokenSessionRecord.origin_host existing) && _) eqn:H6; [done|].
    destruct (truthy (TokenSessionRecord.site existing) && _ && _) eqn:H7; [done|].
    intros [= <-]. split_and!; try done. right. exists existing.
    split_and!; try done.
    destruct (TokenSessionRecord.revoked_at existing); [|done].
    exfalso. apply Hrev. by eexists.
  - intros [= <-]. split_and!; try done. by left.
Qed.

Lemma verify_true token origin nowMs db claims db1 :
  verifyToken pf cfg token origin nowMs db = (Some claims, db1) →
  token ≠ ""
  ∧ ∃ host decoded,
      orNull (originHost pf origin) = Some host
      ∧ host ∈ allowedOriginHosts pf cfg
      ∧ jwt_verify pf token nowMs = Some decoded
      ∧ isTokenClaims decoded = Some claims
      ∧ validateTokenSession pf claims host nowMs db = (true, db1).
Proof.
  unfold verifyToken.
  destruct (String.eqb token "") eqn:Ht; [done|].
  destruct (orNull (originHost pf origin)) as [host|] eqn:Hh; [|done].
  case_bool_decide as Hallow; cbn [negb]; [|done].
  destruct (jwt_verify pf token nowMs) as [decoded|] eqn:Hd; [|done].
  destruct (isTokenClaims decoded) as [c|] eqn:Hc; [|done].
  destruct (validateTokenSession pf c host nowMs db) as [[] db'] eqn:Hval; [|done].
  intros [= <- <-]. split; [by apply String.eqb_neq|]. by exists host, decoded.
Qed.

Lemma verify_from_validate token origin nowMs db host decoded claims :
  token ≠ "" →
  orNull (originHost pf origin) = Some host →
  host ∈ allowedOriginHosts pf cfg →
  jwt_verify pf token nowMs = Some decoded →
  isTokenClaims decoded = Some claims →
  verifyToken pf cfg token origin nowMs db
  = match validateTokenSession pf claims host nowMs db with
    | (false, db') => (None, db')
    | (true, db') => (Some claims, db')
    end.
Proof.
  intros Ht Hh Hallow Hd Hc. unfold verifyToken.
  apply String.eqb_neq in Ht. rewrite Ht, Hh.
  rewrite bool_decide_true by done. cbn [negb]. by rewrite Hd, Hc.
Qed.

Lemma truthy_differ x host h :
  (truthy x && differ (orElse x "") host) = false →
  orNull x = Some h → h = host.
Proof.
  intros Hc Hx. apply orNull_Some in Hx as (-> & Ht & Hne).
  rewrite Ht in Hc. cbn [andb] in Hc. unfold orElse in Hc.
  apply String.eqb_neq in Hne. rewrite Hne in Hc.
  destruct (decide (h = host)) as [|Hd]; [done|].
  apply differ_true in Hd. congruence.
Qed.

(** A row that is revoked rejects every token that carries its id. *)
Lemma validate_revoked claims host nowMs db :
  revoked (trim (TokenClaims.jti claims)) db →
  validateTokenSession pf claims host nowMs db = (false, db).
Proof.
  intros (row & Hrow & Hrev). unfold validateTokenSession. cbv zeta.
  destruct (_ || _ || _); [done|].
  destruct (truthy (toHost pf (TokenClaims.origin claims)) && _); [done|].
  destruct (truthy (tokenSiteHost pf (TokenClaims.site claims)) && _); [done|].
  unfold getTokenSession. rewrite Hrow. by rewrite bool_decide_true.
Qed.

Lemma verify_revoked token origin nowMs db J :
  RoutesSpec.carries pf token nowMs J → revoked J db →
  verifyToken pf cfg token origin nowMs db = (None, db).
Proof.
  intros Hcarry Hrev. unfold verifyToken.
  destruct (String.eqb token ""); [done|].
  destruct (orNull (originHost pf origin)) as [host|]; [|done].
  destruct (negb _); [done|].
  destruct (jwt_verify pf token nowMs) as [decoded|] eqn:Hd; [|done].
  destruct (isTokenClaims decoded) as [c|] eqn:Hc; [|done].
  rewrite validate_revoked; [done|]. by rewrite (Hcarry decoded c Hd Hc).
Qed.

(** The purge leaves the rows that accept a token. *)
Lemma validate_purge claims host nowMs db db1 p :
  validateTokenSession pf claims host nowMs db = (true, db1) →
  p ≤ nowMs / 1000 →
  fst (validateTokenSession pf claims host nowMs (purgeExpiredTokenSessions p db))
  = true.
Proof.
  intros Hval Hp.
  destruct (validate_true _ _ _ _ _ Hval) as (H1 & H2 & H3 & Hrow).
  unfold validateTokenSession. cbv zeta. rewrite H1, H2, H3.
  unfold getTokenSession, insertTokenSession, purgeExpiredTokenSessions.
  destruct Hrow as [[Hnone _]|(existing & Hrow & Hrev & H4 & H5 & H6 & H7 & _)].
  - assert (filter (fun kv : string * TokenSessionRecord.t =>
                      ¬ TokenSessionRecord.expires_at (snd kv) < p) db
              !! trim (TokenClaims.jti claims) = None) as ->; [|done].
    apply map_lookup_filter_None. by left.
  - assert (filter (fun kv : string * TokenSessionRecord.t =>
                      ¬ TokenSessionRecord.expires_at (snd kv) < p) db
              !! trim (TokenClaims.jti claims) = Some existing) as ->.
    { apply map_lookup_filter_Some. split; [done|]. cbn. apply Z.ltb_ge in H5. lia. }
    rewrite Hrev, H4, H5, H6, H7. by rewrite bool_decide_false by (by intros [? ?]).
Qed.

(** The row of an accepted token accepts the token again. *)
Lemma validate_again claims host nowMs nowMs' db db1 row :
  validateTokenSession pf claims host nowMs db = (true, db1) →
  db1 !! trim (TokenClaims.jti claims) = Some row →
  nowMs' / 1000 < TokenClaims.exp claims →
  nowMs' / 1000 ≤ TokenSessionRecord.expires_at row →
  validateTokenSession pf claims host nowMs' db1
  = (true, touchTokenSession (trim (TokenClaims.jti claims)) (nowMs' / 1000) db1).
Proof.
  intros Hval Hrow1 Hexp Hexp'.
  destruct (validate_true _ _ _ _ _ Hval) as (H1 & H2 & H3 & Hrow).
  apply orb_false_iff in H1 as [H1 _]. 
  unfold validateTokenSession. cbv zeta. rewrite H1, H2, H3. cbn [orb].
  assert ((TokenClaims.exp claims <=? nowMs' / 1000) = false) as -> by lia.
  unfold getTokenSession. rewrite Hrow1.
  destruct Hrow as [[Hnone ->]|(existing & Hrow & Hrev & H4 & H5 & H6 & H7 & ->)].
  - rewrite lookup_insert_eq in Hrow1. injection Hrow1 as <-.
    cbn [TokenSessionRecord.revoked_at TokenSessionRecord.sub
         TokenSessionRecord.expires_at TokenSessionRecord.origin_host
         TokenSessionRecord.site] in *.
    rewrite bool_decide_false by (by intros [? ?]).
    rewrite differ_refl.
    assert ((TokenClaims.exp claims <? nowMs' / 1000) = false) as -> by lia.
    assert ((truthy (Some host) && differ (orElse (Some host) "") host) = false) as ->.
    { unfold truthy, orElse. destruct (String.eqb host ""); [done|].
      cbn [negb andb]. apply differ_refl. }
    assert ((truthy (Some (orElse (tokenSiteHost pf (TokenClaims.site claims)) host))
             && truthy (tokenSiteHost pf (TokenClaims.site claims))
             && differ (orElse (Some (orElse (tokenSiteHost pf (TokenClaims.site claims))
                                        host)) "")
                       (orElse (tokenSiteHost pf (TokenClaims.site claims)) ""))
            = false) as ->; [|done].
    destruct (tokenSiteHost pf (TokenClaims.site claims)) as [site|];
      [|by rewrite andb_false_r].
    unfold truthy, orElse. destruct (String.eqb site "") eqn:Hs.
    { by rewrite andb_false_r. }
    rewrite Hs. cbn [negb andb]. apply differ_refl.
  - unfold touchTokenSession in Hrow1. rewrite lookup_alter_eq, Hrow in Hrow1.
    cbn in Hrow1. injection Hrow1 as <-.
    cbn [TokenSessionRecord.revoked_at TokenSessionRecord.sub
         TokenSessionRecord.expires_at TokenSessionRecord.origin_host
         TokenSessionRecord.site] in *.
    rewrite Hrev, H4, H6, H7.
    rewrite bool_decide_false by (by intros [? ?]).
    assert ((TokenSessionRecord.expires_at existing <? nowMs' / 1000) = false)
      as -> by lia.
    done.
Qed.

End WithPlatform.
(** X14.  What a verified token guarantees.  A token that is refused
    leaves the table of sessions as it is.  A token that is accepted was
    presented with an Origin whose host is on the allow list; its id and
    subject are not blank and it expires after the current second; the
    origin and site it claims, if any, are the host of the request; its row
    is in the table, for its subject, not revoked, not expired, seen in the
    current second; and no other row has changed. *)
Theorem verified_token_guarantees pf cfg token origin nowMs db :
  let r := verifyToken pf cfg token origin nowMs db in
  (fst r = None → snd r = db)
  ∧ ∀ claims, fst r = Some claims →
      let J := trim (TokenClaims.jti claims) in
      ∃ host row,
        orNull (originHost pf origin) = Some host
        ∧ host ∈ allowedOriginHosts pf cfg
        ∧ J ≠ "" ∧ trim (TokenClaims.sub claims) ≠ ""
        ∧ nowMs / 1000 < TokenClaims.exp claims
        ∧ (∀ h, orNull (toHost pf (TokenClaims.origin claims)) = Some h → h = host)
        ∧ (∀ h, orNull (tokenSiteHost pf (TokenClaims.site claims)) = Some h → h = host)
        ∧ snd r !! J = Some row
        ∧ TokenSessionRecord.sub row = trim (TokenClaims.sub claims)
        ∧ TokenSessionRecord.revoked_at row = None
        ∧ nowMs / 1000 ≤ TokenSessionRecord.expires_at row
        ∧ TokenSessionRecord.last_seen row = nowMs / 1000
        ∧ ∀ j, j ≠ J → snd r !! j = db !! j.
Proof.
  cbv zeta. split.
  { intros Hnone.
    destruct (verify_table pf cfg token origin nowMs db) as [[_ H]|(c & ? & ? & Hc & _)];
      [done|congruence]. }
  intros claims Hsome.
  destruct (verifyToken pf cfg token origin nowMs db) as [res db1] eqn:Hv.
  cbn [fst snd] in *. subst res.
  destruct (verify_true pf cfg _ _ _ _ _ _ Hv)
    as (_ & host & decoded & Hh & Hallow & _ & _ & Hval).
  destruct (validate_true pf _ _ _ _ _ Hval) as (H1 & H2 & H3 & Hrow).
  apply orb_false_iff in H1 as [H1 Hexp]. apply orb_false_iff in H1 as [Hj Hs].
  apply String.eqb_neq in Hj, Hs. apply Z.leb_gt in Hexp.
  assert (∀ h, orNull (toHost pf (TokenClaims.origin claims)) = Some h → h = host)
    as Ho by (intros h; by apply truthy_differ).
  assert (∀ h, orNull (tokenSiteHost pf (TokenClaims.site claims)) = Some h → h = host)
    as Hsite by (intros h; by apply truthy_differ).
  destruct Hrow as [[Hnone ->]|(existing & Hrow & Hrev & H4 & H5 & H6 & H7 & ->)].
  - exists host. eexists.
    split_and!;
      first [ done
            | by rewrite lookup_insert_eq
            | (cbn; lia)
            | (intros j Hne; by rewrite lookup_insert_ne) ].
  - assert (TokenSessionRecord.sub existing = trim (TokenClaims.sub claims)) as Hsub.
    { destruct (decide (TokenSessionRecord.sub existing
                        = trim (TokenClaims.sub claims))) as [|Hd]; [done|].
      apply differ_true in Hd. congruence. }
    apply Z.ltb_ge in H5.
    exists host. eexists.
    split_and!;
      first [ done
            | (unfold touchTokenSession; rewrite lookup_alter_eq, Hrow; done)
            | (cbn; lia)
            | (intros j Hne; unfold touchTokenSession; by rewrite lookup_alter_ne) ].
Qed.

(** X15.  The maintenance sweep does not end a valid session.  A token
    that is accepted is accepted as well when expired rows have been purged
    first, at the current second or any earlier one. *)
Theorem purge_keeps_valid_sessions pf cfg token origin nowMs db claims purgeMs :
  fst (verifyToken pf cfg token origin nowMs db) = Some claims →
  purgeMs / 1000 ≤ nowMs / 1000 →
  fst (verifyToken pf cfg token origin nowMs
         (purgeExpiredTokenSessions (purgeMs / 1000) db)) = Some claims.
Proof.
  intros Hsome Hp.
  destruct (verifyToken pf cfg token origin nowMs db) as [res db1] eqn:Hv.
  cbn [fst] in Hsome. subst res.
  destruct (verify_true pf cfg _ _ _ _ _ _ Hv)
    as (Ht & host & decoded & Hh & Hallow & Hd & Hc & Hval).
  rewrite (verify_from_validate pf cfg token origin nowMs _ host decoded claims)
    by done.
  pose proof (validate_purge pf _ _ _ _ _ _ Hval Hp) as Hkeep.
  destruct (validateTokenSession pf claims host nowMs
              (purgeExpiredTokenSessions (purgeMs / 1000) db)) as [[] db'];
    cbn [fst] in *; done.
Qed.

Lemma purge_keeps_valid_sessions_witness :
  let db := snd (verifyToken Demo.platform Demo.config "T1" "https://a.example" 10000 ∅) in
  fst (verifyToken Demo.platform Demo.config "T1" "https://a.example" 50000
         (purgeExpiredTokenSessions (40000 / 1000) db))
  = Some (TokenClaims.mk "u1" "J" 100 None None None None None).
Proof.
  cbv zeta. apply purge_keeps_valid_sessions.
  - vm_compute. reflexivity.
  - vm_compute. discriminate.
Defined.

(** X16.  A token is good for more than one request.  Once a token has
    been accepted, it is accepted again with the same Origin at any later
    moment at which its signature still verifies to the same payload, the
    token has not expired and its row has not expired, as long as the table
    is as the first acceptance left it. *)
Theorem verified_token_verifies_again pf cfg token origin nowMs nowMs' db claims db1 row :
  verifyToken pf cfg token origin nowMs db = (Some claims, db1) →
  jwt_verify pf token nowMs' = jwt_verify pf token nowMs →
  db1 !! trim (TokenClaims.jti claims) = Some row →
  nowMs' / 1000 < TokenClaims.exp claims →
  nowMs' / 1000 ≤ TokenSessionRecord.expires_at row →
  verifyToken pf cfg token origin nowMs' db1
  = (Some claims,
     touchTokenSession (trim (TokenClaims.jti claims)) (nowMs' / 1000) db1).
Proof.
  intros Hv Hsig Hrow Hexp Hexp'.
  destruct (verify_true pf cfg _ _ _ _ _ _ Hv)
    as (Ht & host & decoded & Hh & Hallow & Hd & Hc & Hval).
  rewrite (verify_from_validate pf cfg token origin nowMs' _ host decoded claims)
    by (done || congruence).
  by rewrite (validate_again pf claims host nowMs nowMs' db db1 row).
Qed.

Lemma verified_token_verifies_again_witness :
  let db1 := snd (verifyToken Demo.platform Demo.config "T1" "https://a.example" 10000 ∅) in
  fst (verifyToken Demo.platform Demo.config "T1" "https://a.example" 99000 db1)
  = Some (TokenClaims.mk "u1" "J" 100 None None None None None).
Proof.
  cbv zeta.
  rewrite (verified_token_verifies_again Demo.platform Demo.config "T1"
             "https://a.example" 10000 99000 ∅
             (TokenClaims.mk "u1" "J" 100 None None None None None)
             (snd (verifyToken Demo.platform Demo.config "T1" "https://a.example" 10000 ∅))
             (TokenSessionRecord.mk "J" "u1" (Some "a.example") (Some "a.example")
                100 None 10 10)).
  - reflexivity.
  - vm_compute. reflexivity.
  - vm_compute. reflexivity.
  - vm_compute. reflexivity.
  - vm_compute. reflexivity.
  - vm_compute. discriminate.
Defined.

End SessionMore.

(** ** The routes *)

Module RoutesFacts.
Import Js Gateway GatewaySpec Routes RoutesSpec SessionSpec.

Lemma trim_empty_inv s : trim s ≠ "" → s ≠ "".
Proof. intros H ->. by apply H. Qed.

Lemma closeAll_fields l w :
  let w2 := fold_right closeSocket w l in
  tokenSessions w2 = tokenSessions w ∧ visitors w2 = visitors w
  ∧ messages w2 = messages w ∧ settings w2 = settings w
  ∧ rateLimits w2 = rateLimits w ∧ clients w2 = clients w
  ∧ typingThrottle w2 = typingThrottle w
  ∧ ∀ s, s ∈ openSockets w2 ↔ s ∈ openSockets w ∧ s ∉ l.
Proof.
  induction l as [|x l IH]; cbn [fold_right].
  - split_and!; try done. intros s. split; [|by intros [? _]].
    intros H. split; [done|]. by intros ?%elem_of_nil.
  - cbv zeta in IH. destruct IH as (H1 & H2 & H3 & H4 & H5 & H6 & H7 & Hopen).
    cbn [closeSocket tokenSessions visitors messages settings rateLimits clients
         typingThrottle openSockets].
    split_and!; try done. intros s.
    rewrite elem_of_difference, Hopen, elem_of_singleton, not_elem_of_cons. tauto.
Qed.

Section WithPlatform.
Variable pf : Platform.
Variable cfg : Config.

Lemma requireAuth_true authorization origin nowMs db claims db1 :
  Http.requireAuth pf cfg authorization origin nowMs db = (Some claims, db1) →
  trim (TokenClaims.jti claims) ≠ "" ∧ trim (TokenClaims.sub claims) ≠ ""
  ∧ ∃ row, db1 !! trim (TokenClaims.jti claims) = Some row
      ∧ TokenSessionRecord.revoked_at row = None
      ∧ nowMs / 1000 < TokenClaims.exp claims
      ∧ nowMs / 1000 ≤ TokenSessionRecord.expires_at row.
Proof.
  unfold Http.requireAuth. intros Hv.
  destruct (SessionMore.verify_true pf cfg _ _ _ _ _ _ Hv)
    as (_ & host & decoded & _ & _ & _ & _ & Hval).
  destruct (SessionMore.validate_true pf _ _ _ _ _ Hval) as (H1 & _ & _ & Hrow).
  apply orb_false_iff in H1 as [H1 Hexp]. apply orb_false_iff in H1 as [Hj Hs].
  apply String.eqb_neq in Hj, Hs. apply Z.leb_gt in Hexp.
  split; [done|]. split; [done|].
  destruct Hrow as [[Hnone ->]|(existing & Hrow & Hrev & H4 & H5 & H6 & H7 & ->)].
  - eexists. rewrite lookup_insert_eq. split; [done|]. cbn. split; [done|]. lia.
  - eexists. unfold Session.touchTokenSession. rewrite lookup_alter_eq, Hrow.
    split; [done|]. cbn. apply Z.ltb_ge in H5. split; [done|]. lia.
Qed.

(** A revoked row stays in the table, revoked, through validations,
    revocations and the sweeps that run before its expiry has passed. *)
Lemma revokedUntil_step J E db ev :
  revokedUntil J E db → Session.purgesBy E [ev] = true →
  revokedUntil J E (Session.step pf cfg db ev).
Proof.
  intros (row & Hrow & Hrev & He) Hp.
  destruct ev as [token origin nowMs|j nowMs|nowMs]; cbn [Session.step].
  - destruct (SessionFacts.verify_table pf cfg token origin nowMs db)
      as [[_ ->]|(claims & host & decoded & _ & _ & _ & _ & Hval)];
      [by exists row|].
    pose proof (SessionFacts.validate_table pf claims host nowMs db) as Hv.
    cbv zeta in Hv. rewrite Hval in Hv. cbn [fst snd] in Hv.
    destruct Hv as [[? _]|[(_ & Hnone & ->)|(_ & _ & ->)]]; [done| |].
    + exists row. split; [|done]. rewrite lookup_insert_ne; [done|].
      intros <-. congruence.
    + unfold revokedUntil, Session.touchTokenSession.
      destruct (decide (trim (TokenClaims.jti claims) = J)) as [->|Hne].
      * rewrite lookup_alter_eq, Hrow. cbn. eexists. split; [done|]. done.
      * rewrite lookup_alter_ne by done. by exists row.
  - unfold revokedUntil, Session.revokeTokenSession.
    destruct (decide (j = J)) as [->|Hne].
    + rewrite lookup_alter_eq, Hrow. cbn. eexists. split; [done|]. cbn.
      split; [by eauto | done].
    + rewrite lookup_alter_ne by done. by exists row.
  - exists row. split; [|done].
    unfold Session.purgeExpiredTokenSessions. apply map_lookup_filter_Some.
    split; [done|]. cbn [snd]. cbn [Session.purgesBy forallb] in Hp.
    rewrite andb_true_r in Hp. apply Z.leb_le in Hp. lia.
Qed.

Lemma revokedUntil_run J E evs db :
  revokedUntil J E db → Session.purgesBy E evs = true →
  revokedUntil J E (Session.run pf cfg evs db).
Proof.
  revert db. induction evs as [|ev evs IH]; intros db Hr Hp; [done|].
  cbn [Session.purgesBy forallb] in Hp. apply andb_true_iff in Hp as [Hp1 Hp2].
  unfold Session.run. cbn [foldl]. apply IH; [|done].
  apply revokedUntil_step; [done|]. cbn [Session.purgesBy forallb]. by rewrite Hp1.
Qed.

End WithPlatform.

(** X17.  Revocation ends the session.  When the token presented to the
    revocation route carries an id that trimming leaves as it is, the
    route answers that the token is revoked and the row of the id is
    revoked; its recorded expiry has not passed.  Whatever validations,
    revocations and maintenance sweeps follow, as long as no sweep runs
    after the recorded expiry of the row (only such a sweep deletes it),
    every token that carries the id is refused, with any Origin and at any
    time.  The sockets that are closed, with code 4001, are the open
    sockets in the set of the subject, the ones that have sent [init]: a
    socket stays open exactly when it was open and is not in that set, so a
    connection of the subject that has authenticated but is not in the set
    is not closed.  The subject has no set of sockets left; the sets of the
    other visitors and the tables of visitors and messages are as they
    were. *)
Theorem revoke_ends_session pf cfg authorization origin nowMs w claims db :
  Http.requireAuth pf cfg authorization origin nowMs (tokenSessions w)
  = (Some claims, db) →
  trim (TokenClaims.jti claims) = TokenClaims.jti claims →
  let r := revokeRoute pf cfg authorization origin nowMs w in
  let w' := snd (fst r) in
  let sub := TokenClaims.sub claims in
  fst (fst r) = Ok (JObj [("revoked", JBool true)])
  ∧ (∃ expiry,
       revokedUntil (TokenClaims.jti claims) expiry (tokenSessions w')
       ∧ nowMs / 1000 ≤ expiry
       ∧ ∀ evs token' origin' nowMs',
           Session.purgesBy expiry evs = true →
           carries pf token' nowMs' (TokenClaims.jti claims) →
           Session.verifyToken pf cfg token' origin' nowMs'
             (Session.run pf cfg evs (tokenSessions w'))
           = (None, Session.run pf cfg evs (tokenSessions w')))
  ∧ clients w' !! sub = None
  ∧ (∀ v, v ≠ sub → clients w' !! v = clients w !! v)
  ∧ (∀ s, s ∈ openSockets w' ↔ s ∈ openSockets w ∧ ¬ registered w sub s)
  ∧ (∀ e, e ∈ snd r ↔
       ∃ s, registered w sub s ∧ s ∈ openSockets w
            ∧ e = WsClose s 4001 "Session revoked")
  ∧ visitors w' = visitors w ∧ messages w' = messages w.
Proof.
  intros Hauth Htrim. cbv zeta.
  destruct (requireAuth_true pf cfg _ _ _ _ _ _ Hauth)
    as (Hj & Hs & row & Hrow & _ & _ & Hexp).
  rewrite Htrim in Hj, Hrow.
  apply trim_empty_inv in Hs.
  assert (revokedUntil (TokenClaims.jti claims) (TokenSessionRecord.expires_at row)
            (Session.revokeTokenSession (TokenClaims.jti claims) (nowMs / 1000) db))
    as Hrev.
  { unfold revokedUntil, Session.revokeTokenSession. rewrite lookup_alter_eq, Hrow.
    eexists. split; [done|]. cbn. split; [by eexists | done]. }
  assert (Hrefused : ∀ evs token' origin' nowMs',
            Session.purgesBy (TokenSessionRecord.expires_at row) evs = true →
            carries pf token' nowMs' (TokenClaims.jti claims) →
            Session.verifyToken pf cfg token' origin' nowMs'
              (Session.run pf cfg evs
                 (Session.revokeTokenSession (TokenClaims.jti claims) (nowMs / 1000) db))
            = (None, Session.run pf cfg evs
                       (Session.revokeTokenSession (TokenClaims.jti claims)
                          (nowMs / 1000) db))).
  { intros evs token' origin' nowMs' Hp Hcarry.
    apply SessionMore.verify_revoked with (J := TokenClaims.jti claims); [done|].
    destruct (revokedUntil_run pf cfg _ _ evs _ Hrev Hp) as (row' & Hrow' & Hrev' & _).
    by exists row'. }
  unfold revokeRoute. rewrite Hauth.
  apply String.eqb_neq in Hj, Hs. rewrite Hj, Hs. cbn [orb].
  apply String.eqb_neq in Hs.
  cbn [withTokenSessions clients openSockets].
  destruct (clients w !! TokenClaims.sub claims) as [sockets|] eqn:Hc.
  - pose proof (closeAll_fields
      (List.filter (fun s => bool_decide (s ∈ openSockets w)) sockets)
      (withTokenSessions
         (Session.revokeTokenSession (TokenClaims.jti claims) (nowMs / 1000) db) w))
      as Hf.
    cbv zeta in Hf. destruct Hf as (Hts & Hvis & Hmsg & _ & _ & Hcl & _ & Hopen).
    cbn [fst snd tokenSessions visitors messages clients openSockets].
    rewrite Hts, Hvis, Hmsg, Hcl. cbn [withTokenSessions tokenSessions visitors
      messages clients openSockets] in *.
    split_and!; try done.
    + by exists (TokenSessionRecord.expires_at row).
    + by rewrite lookup_delete_eq.
    + intros v Hne. by rewrite lookup_delete_ne.
    + intros s. rewrite Hopen, list_elem_of_In, filter_In, <- list_elem_of_In.
      rewrite bool_decide_eq_true. unfold registered. rewrite Hc. split.
      * intros [Ho Hn]. split; [done|]. intros (l & [= <-] & Hin). by apply Hn.
      * intros [Ho Hn]. split; [done|]. intros [Hin _]. apply Hn. by exists sockets.
    + intros e. rewrite list_elem_of_In, in_map_iff. split.
      * intros (s & <- & [Hin Ho]%filter_In). exists s.
        apply list_elem_of_In in Hin. apply bool_decide_eq_true in Ho.
        split; [by exists sockets|done].
      * intros (s & (l & Hl & Hin) & Ho & ->). rewrite Hc in Hl. injection Hl as <-.
        exists s. split; [done|]. apply filter_In.
        split; [by apply list_elem_of_In|by apply bool_decide_eq_true].
  - cbn [fst snd withTokenSessions tokenSessions visitors messages clients openSockets].
    split_and!; try done.
    + by exists (TokenSessionRecord.expires_at row).
    + intros s. split; [|by intros [? _]]. intros Ho. split; [done|].
      intros (l & Hl & _). congruence.
    + intros e. split; [by intros ?%elem_of_nil|].
      intros (s & (l & Hl & _) & _). congruence.
Qed.

Lemma revoke_ends_session_witness :
  let w := snd DemoMore.initialised in
  let r := revokeRoute Demo.platform Demo.config "Bearer T1" "https://a.example" 3000 w in
  fst (fst r) = Ok (JObj [("revoked", JBool true)])
  ∧ revokedUntil "J" 100 (tokenSessions (snd (fst r)))
  ∧ clients (snd (fst r)) !! "u1" = None
  ∧ Session.verifyToken Demo.platform Demo.config "T1" "https://a.example" 5000
      (Session.run Demo.platform Demo.config [Session.Purge 100000]
         (tokenSessions (snd (fst r))))
    = (None, Session.run Demo.platform Demo.config [Session.Purge 100000]
               (tokenSessions (snd (fst r)))).
Proof.
  cbv zeta.
  destruct (revoke_ends_session Demo.platform Demo.config "Bearer T1"
              "https://a.example" 3000 (snd DemoMore.initialised)
              (TokenClaims.mk "u1" "J" 100 None None None None None)
              (snd (Http.requireAuth Demo.platform Demo.config "Bearer T1"
                      "https://a.example" 3000
                      (tokenSessions (snd DemoMore.initialised)))))
    as (H1 & (expiry & H2 & _ & Hrefused) & H3 & _).
  - vm_compute. reflexivity.
  - vm_compute. reflexivity.
  - assert (expiry = 100) as ->.
    { destruct H2 as (row & Hrow & _ & <-). vm_compute in Hrow. by injection Hrow as <-. }
    split; [done|]. split; [done|]. split; [done|].
    apply Hrefused; [vm_compute; reflexivity|].
    intros decoded claims Hd Hc. vm_compute in Hd. injection Hd as <-.
    vm_compute in Hc. by injection Hc as <-.
Defined.

(** X18.  Revocation is by the id as the token carries it.  The rows of
    the table are stored under the trimmed id; when trimming changes the id
    of the token presented to the revocation route and no row is stored
    under the untrimmed id, the route answers that the token is revoked,
    yet no row has changed and the token is accepted as before. *)
Theorem revoke_misses_padded_token_id pf cfg authorization origin nowMs w claims db :
  Http.requireAuth pf cfg authorization origin nowMs (tokenSessions w)
  = (Some claims, db) →
  trim (TokenClaims.jti claims) ≠ TokenClaims.jti claims →
  db !! TokenClaims.jti claims = None →
  let r := revokeRoute pf cfg authorization origin nowMs w in
  fst (fst r) = Ok (JObj [("revoked", JBool true)])
  ∧ tokenSessions (snd (fst r)) = db
  ∧ fst (Http.requireAuth pf cfg authorization origin nowMs
           (tokenSessions (snd (fst r)))) = Some claims.
Proof.
  intros Hauth Hpad Hnone. cbv zeta.
  destruct (requireAuth_true pf cfg _ _ _ _ _ _ Hauth)
    as (Hj & Hs & row & Hrow & _ & Hexp & Hexp').
  apply trim_empty_inv in Hj, Hs.
  assert (Session.revokeTokenSession (TokenClaims.jti claims) (nowMs / 1000) db = db)
    as Hsame.
  { unfold Session.revokeTokenSession. apply alter_id. intros x Hx. congruence. }
  assert (tokenSessions (snd (fst (revokeRoute pf cfg authorization origin nowMs w)))
          = db
          ∧ fst (fst (revokeRoute pf cfg authorization origin nowMs w))
            = Ok (JObj [("revoked", JBool true)])) as [Hdb Hreply].
  { unfold revokeRoute. rewrite Hauth.
    apply String.eqb_neq in Hj, Hs. rewrite Hj, Hs. cbn [orb]. rewrite Hsame.
    cbn [withTokenSessions clients openSockets].
    destruct (clients w !! TokenClaims.sub claims) as [sockets|]; [|done].
    pose proof (closeAll_fields
      (List.filter (fun s => bool_decide (s ∈ openSockets w)) sockets)
      (withTokenSessions db w)) as Hf.
    cbv zeta in Hf. destruct Hf as (Hts & _).
    cbn [fst snd tokenSessions]. by rewrite Hts. }
  split; [done|]. split; [done|]. rewrite Hdb.
  unfold Http.requireAuth in *.
  destruct (SessionMore.verify_true pf cfg _ _ _ _ _ _ Hauth)
    as (Ht & host & decoded & Hh & Hallow & Hd & Hc & Hval).
  rewrite (SessionMore.verify_from_validate pf cfg _ origin nowMs _ host decoded claims)
    by done.
  by rewrite (SessionMore.validate_again pf claims host nowMs nowMs
                (tokenSessions w) db row).
Qed.

Lemma revoke_misses_padded_token_id_witness :
  let r := revokeRoute DemoMore.paddedPlatform Demo.config "Bearer TP"
             "https://a.example" 3000 Demo.world0 in
  fst (fst r) = Ok (JObj [("revoked", JBool true)])
  ∧ fst (Http.requireAuth DemoMore.paddedPlatform Demo.config "Bearer TP"
           "https://a.example" 3000 (tokenSessions (snd (fst r))))
    = Some (TokenClaims.mk "u1" " J " 100 None None None None None).
Proof.
  cbv zeta.
  destruct (revoke_misses_padded_token_id DemoMore.paddedPlatform Demo.config
              "Bearer TP" "https://a.example" 3000 Demo.world0
              (TokenClaims.mk "u1" " J " 100 None None None None None)
              (snd (Http.requireAuth DemoMore.paddedPlatform Demo.config "Bearer TP"
                      "https://a.example" 3000 (tokenSessions Demo.world0))))
    as (H1 & _ & H2).
  - vm_compute. reflexivity.
  - vm_compute. discriminate.
  - vm_compute. reflexivity.
  - done.
Defined.

(** X19.  The message route admits what the socket path admits.  A reply
    other than success leaves the tables of visitors and messages as they
    were and has no effect outside; unless it is the 429 of the limiter,
    the rate-limit table is as it was, too.  A success means the token is
    valid, the path parameter is its subject, the limiter has accepted the
    keys of the claims and the address, the visitor has its row, exactly
    one text row of one to 2000 characters is appended for the subject, and
    the last effect hands its content to the bridge. *)
Theorem post_message_admission pf cfg authorization origin ip visitorIdParam body nowMs w :
  let r := postMessageRoute pf cfg authorization origin ip visitorIdParam body nowMs w in
  let w' := snd (fst r) in
  match fst (fst r) with
  | Ok _ =>
      ∃ claims m site,
        fst (Http.requireAuth pf cfg authorization origin nowMs (tokenSessions w))
        = Some claims
        ∧ visitorIdParam = TokenClaims.sub claims
        ∧ fst (RateLimiter.checkRateLimitKeys (rateLimitKeys pf claims ip) nowMs
                 (rateLimits w)) = true
        ∧ is_Some (visitors w' !! visitorIdParam)
        ∧ messages w' = messages w ++ [m]
        ∧ visitorTextRow visitorIdParam m
        ∧ last (snd r)
          = Some (SendToTopic visitorIdParam (Db.content m) Db.text site None)
  | Refused status _ =>
      visitors w' = visitors w ∧ messages w' = messages w ∧ snd r = []
      ∧ (status ≠ 429 → rateLimits w' = rateLimits w)
  | ServerError =>
      visitors w' = visitors w ∧ messages w' = messages w ∧ snd r = []
      ∧ rateLimits w' = rateLimits w
  end.
Proof.
  cbv zeta. unfold postMessageRoute.
  destruct (Http.requireAuth pf cfg authorization origin nowMs (tokenSessions w))
    as [[claims|] db] eqn:Hauth; [|done].
  unfold Http.resolveVisitorId.
  destruct (String.eqb (TokenClaims.sub claims) ""); [done|].
  destruct (String.eqb visitorIdParam ""); [done|].
  destruct (String.eqb visitorIdParam (TokenClaims.sub claims)) eqn:Hp; [|done].
  apply String.eqb_eq in Hp. subst visitorIdParam. cbn [negb].
  assert (∀ rest : Reply * World * list Effect,
            body ≠ JNull →
            match body with JNull => (ServerError, withTokenSessions db w, []) | _ => rest end
            = rest) as Hbody by (intros rest; by destruct body).
  assert (body = JNull ∨ body ≠ JNull) as [->|Hnn]
    by (destruct body; ((by left) || (by right))); [done|].
  rewrite Hbody by done. clear Hbody.
  destruct (asString (prop body "content")) as [content|]; [|done].
  cbv zeta. destruct (_ || _) eqn:Hlen; [done|].
  cbn [withTokenSessions rateLimits].
  destruct (RateLimiter.checkRateLimitKeys _ _ _) as [[] rl] eqn:Hrl; [|done].
  unfold Db.addMessage. cbn [fst snd messages visitors withTokenSessions].
  apply orb_false_iff in Hlen as [Hmin Hmax]. unfold MAX_MESSAGE_LENGTH in *.
  eexists claims, _, _.
  split; [done|]. split; [done|]. split; [by rewrite Hrl|].
  split; [apply GatewayMore.upsertVisitor_row|]. split; [done|].
  split; [|by rewrite last_snoc].
  unfold visitorTextRow, MAX_MESSAGE_LENGTH. cbn. split_and!; try done; lia.
Qed.


End RoutesFacts.

(** ** More about the topic bridge *)

Module TelegramMore.
Import Js Telegram TelegramSpec TelegramCalls.

Section WithEnv.
Variable env : BotEnv.

Lemma requireMediaFilePath_confined url p :
  requireMediaFilePath env url = inr p → confined env url p.
Proof.
  unfold requireMediaFilePath, resolvePublicFilePath, confined. cbv zeta.
  destruct (String.eqb url "") eqn:He; [done|].
  destruct (includes (stripLeadingSlashes url) "..") eqn:Hdots; [done|].
  destruct (startsWith _ _) eqn:Hbase; cbn [negb]; [|done].
  destruct (fs_existsSync env _) eqn:Hex; cbn [negb]; [|done].
  intros [= <-]. apply String.eqb_neq in He. done.
Qed.

Lemma sendCallOf_bridgeCall content type fileUrl group topicId call :
  sendCallOf env content type fileUrl group topicId = inr call →
  bridgeCall env group content type fileUrl call ∧ isSend call = true.
Proof.
  unfold sendCallOf.
  destruct type; try (intros [= <-]; done).
  - destruct (orNull fileUrl) as [url|] eqn:Hu; [|intros [= <-]; done].
    apply SessionFacts.orNull_Some in Hu as (-> & _ & _).
    destruct (requireMediaFilePath env url) as [err|p] eqn:Hp; [done|].
    intros [= <-]. split; [|done]. cbn. split; [done|]. split; [done|].
    exists url. split; [done|]. by apply requireMediaFilePath_confined.
  - destruct (orNull fileUrl) as [url|] eqn:Hu; [|intros [= <-]; done].
    apply SessionFacts.orNull_Some in Hu as (-> & _ & _).
    destruct (requireMediaFilePath env url) as [err|p] eqn:Hp; [done|].
    intros [= <-]. split; [|done]. cbn. split; [done|]. split; [done|].
    exists url. split; [done|]. by apply requireMediaFilePath_confined.
Qed.

Lemma stepOf_refl b : stepOf b b [].
Proof. unfold stepOf. by rewrite app_nil_r. Qed.

Lemma stepOf_trans b1 b2 b3 new1 new2 :
  stepOf b1 b2 new1 → stepOf b2 b3 new2 → stepOf b1 b3 (new1 ++ new2).
Proof.
  intros (H1 & H2 & H3) (H4 & H5 & H6). unfold stepOf.
  rewrite H4, H5, H6, H3, H1, H2. by rewrite app_assoc.
Qed.

Lemma stepOf_logError label err b b' new :
  stepOf b b' new → stepOf b (logError label err b') new.
Proof. done. Qed.

Lemma stepOf_clear v b b' new :
  stepOf b b' new → stepOf b (clearVisitorTopic v b') new.
Proof. done. Qed.

Lemma createTopic_step visitorId siteName b :
  let r := createTopicForVisitor env visitorId siteName b in
  stepOf b (snd r) []
  ∨ ∃ group name, bot b = true ∧ truthyNum (groupId b) = Some group
      ∧ truthyNum (cachedTopic visitorId b) = None
      ∧ stepOf b (snd r) [CreateForumTopic group name].
Proof.
  cbv zeta. unfold createTopicForVisitor.
  destruct (bot b) eqn:Hb; [|left; apply stepOf_refl].
  destruct (truthyNum (groupId b)) as [group|] eqn:Hg; [|left; apply stepOf_refl].
  unfold Db.getVisitor.
  destruct (truthyNum (visitors b !! visitorId ≫= Db.telegram_topic_id)) eqn:Hc;
    [left; apply stepOf_refl|].
  right. eexists group, _. split; [done|]. split; [done|]. split; [done|].
  unfold callBot.
  destruct (respond env (calls b) _) as [[| | | | |fields]|err];
    cbn [fst snd]; try done.
  all: try (destruct (asNumber _); done).
Qed.

Lemma sendToTopicId_step content type fileUrl topicId b :
  let r := sendToTopicId env content type fileUrl topicId b in
  snd r = b
  ∨ ∃ group call, bot b = true ∧ truthyNum (groupId b) = Some group
      ∧ sendCallOf env content type fileUrl group topicId = inr call
      ∧ stepOf b (snd r) [call]
      ∧ visitors (snd r) = visitors b ∧ errors (snd r) = errors b
      ∧ fst r = match respond env (calls b) call with
                | Resolved _ => None
                | Rejected err => Some err
                end.
Proof.
  cbv zeta.
  destruct (bot b) eqn:Hb; [|left; unfold sendToTopicId; by rewrite Hb].
  destruct (truthyNum (groupId b)) as [group|] eqn:Hg;
    [|left; unfold sendToTopicId; by rewrite Hb, Hg].
  rewrite (TelegramFacts.sendToTopicId_call env content type fileUrl topicId b group)
    by done.
  destruct (sendCallOf env content type fileUrl group topicId) as [err|call] eqn:Hcall;
    [by left|].
  right. exists group, call. split; [done|]. split; [done|]. split; [done|].
  unfold callBot. by destruct (respond env (calls b) call).
Qed.

Section Message.
Variable content : string.
Variable type : Db.MessageType.
Variable fileUrl : option string.

Local Abbreviation steps := (messageSteps env content type fileUrl).

Lemma steps_refl b kc ks : steps b b kc ks.
Proof.
  exists []. split; [apply stepOf_refl|]. cbn. split; [lia|]. split; [lia|].
  by intros c ?%elem_of_nil.
Qed.

Lemma steps_trans b1 b2 b3 kc1 ks1 kc2 ks2 :
  steps b1 b2 kc1 ks1 → steps b2 b3 kc2 ks2 →
  steps b1 b3 (kc1 + kc2) (ks1 + ks2).
Proof.
  intros (new1 & H1 & Hc1 & Hs1 & Hall1) (new2 & H2 & Hc2 & Hs2 & Hall2).
  exists (new1 ++ new2). split; [by eapply stepOf_trans|].
  unfold creations, sends in *. rewrite !List.filter_app, !length_app.
  split; [lia|]. split; [lia|].
  intros c [Hin|Hin]%elem_of_app; [by apply Hall1|].
  destruct H1 as (Hb & Hg & _). rewrite <- Hb, <- Hg. by apply Hall2.
Qed.

Lemma steps_weaken b b' kc ks kc' ks' :
  steps b b' kc ks → (kc ≤ kc')%nat → (ks ≤ ks')%nat → steps b b' kc' ks'.
Proof.
  intros (new & H1 & Hc & Hs & Hall) ??. exists new. split; [done|].
  split; [lia|]. split; [lia|]. done.
Qed.

Lemma steps_logError label err b b' kc ks :
  steps b b' kc ks → steps b (logError label err b') kc ks.
Proof. intros (new & H1 & H). by exists new. Qed.

Lemma steps_clear v b b' kc ks :
  steps b b' kc ks → steps b (clearVisitorTopic v b') kc ks.
Proof. intros (new & H1 & H). by exists new. Qed.

Lemma createTopic_steps visitorId siteName b :
  steps b (snd (createTopicForVisitor env visitorId siteName b)) 1 0.
Proof.
  destruct (createTopic_step visitorId siteName b)
    as [H|(group & name & Hb & Hg & _ & H)].
  - exists []. split; [done|]. cbn. split; [lia|]. split; [lia|].
    by intros c ?%elem_of_nil.
  - exists [CreateForumTopic group name]. split; [done|]. cbn.
    split; [lia|]. split; [lia|].
    intros c ->%list_elem_of_singleton. split; [done|]. by exists group.
Qed.

Lemma sendToTopicId_steps topicId b :
  steps b (snd (sendToTopicId env content type fileUrl topicId b)) 0 1.
Proof.
  destruct (sendToTopicId_step content type fileUrl topicId b)
    as [->|(group & call & Hb & Hg & Hcall & H & _)]; [apply steps_refl|].
  apply sendCallOf_bridgeCall in Hcall as [Hcall Hsend].
  exists [call]. split; [done|]. unfold creations, sends. cbn. rewrite Hsend.
  assert (isCreate call = false) as -> by (by destruct call).
  cbn. split; [lia|]. split; [lia|].
  intros c ->%list_elem_of_singleton. split; [done|]. by exists group.
Qed.

Lemma sendToTopic_steps visitorId siteName b :
  steps b (sendToTopic env visitorId content type siteName fileUrl b) 2 2.
Proof.
  unfold sendToTopic.
  destruct (bot b) eqn:Hb; [|apply steps_refl].
  destruct (truthyNum (groupId b)) as [group|] eqn:Hg; [|apply steps_refl].
  assert (∃ t b1, (match truthyNum (Db.getVisitor visitorId (visitors b)
                                     ≫= Db.telegram_topic_id) with
                   | Some cached => (Some cached, b)
                   | None => createTopicForVisitor env visitorId siteName b
                   end) = (t, b1) ∧ steps b b1 1 0) as (t & b1 & -> & H1).
  { destruct (truthyNum (Db.getVisitor visitorId (visitors b) ≫= Db.telegram_topic_id)).
    - eexists _, _. split; [reflexivity|]. apply steps_refl.
    - pose proof (createTopic_steps visitorId siteName b) as H.
      destruct (createTopicForVisitor env visitorId siteName b) as [t b1].
      by exists t, b1. }
  destruct (truthyNum t) as [topicId|].
  2:{ apply (steps_weaken _ _ _ _ _ _ H1); lia. }
  pose proof (sendToTopicId_steps topicId b1) as H2.
  pose proof (steps_trans _ _ _ _ _ _ _ H1 H2) as H12. cbn [Nat.add] in H12.
  destruct (sendToTopicId env content type fileUrl topicId b1) as [[err|] b2];
    cbn [snd] in H2, H12.
  2:{ apply (steps_weaken _ _ _ _ _ _ H12); lia. }
  destruct (isMissingThreadError err).
  2:{ apply steps_logError. apply (steps_weaken _ _ _ _ _ _ H12); lia. }
  pose proof (createTopic_steps visitorId siteName (clearVisitorTopic visitorId b2))
    as H3.
  pose proof (steps_trans _ _ _ _ _ _ _ (steps_clear visitorId _ _ _ _ H12) H3) as H4.
  cbn [Nat.add] in H4.
  destruct (createTopicForVisitor env visitorId siteName
              (clearVisitorTopic visitorId b2)) as [t' b4]. cbn [snd] in H3, H4.
  destruct (truthyNum t') as [replacement|].
  2:{ apply steps_logError. apply (steps_weaken _ _ _ _ _ _ H4); lia. }
  pose proof (sendToTopicId_steps replacement b4) as H5.
  pose proof (steps_trans _ _ _ _ _ _ _ H4 H5) as H6. cbn [Nat.add] in H6.
  destruct (sendToTopicId env content type fileUrl replacement b4) as [[err'|] b5];
    cbn [snd] in H5, H6.
  - by apply steps_logError.
  - done.
Qed.

Lemma sendCallOf_error topicId group error :
  sendCallOf env content type fileUrl group topicId = inl error →
  isMissingThreadError error = false.
Proof.
  unfold sendCallOf.
  assert (∀ url p, requireMediaFilePath env url = inl p →
                   isMissingThreadError p = false) as Hm.
  { intros url p. unfold requireMediaFilePath.
    destruct (resolvePublicFilePath env (Some url)); [|by intros [= <-]].
    destruct (negb _); [by intros [= <-]|done]. }
  destruct type; try done.
  - destruct (orNull fileUrl) as [url|]; [|done].
    destruct (requireMediaFilePath env url) eqn:Hp; [|done].
    intros [= <-]. by eapply Hm.
  - destruct (orNull fileUrl) as [url|]; [|done].
    destruct (requireMediaFilePath env url) eqn:Hp; [|done].
    intros [= <-]. by eapply Hm.
Qed.

Lemma sendToTopic_cached visitorId siteName b group topic :
  bot b = true → truthyNum (groupId b) = Some group →
  truthyNum (cachedTopic visitorId b) = Some topic →
  let label := "[Telegram] Error sending to topic:" in
  let b' := sendToTopic env visitorId content type siteName fileUrl b in
  match sendCallOf env content type fileUrl group topic with
  | inl error =>
      calls b' = calls b ∧ visitors b' = visitors b
      ∧ errors b' = errors b ++ [(label, error)]
  | inr call =>
      (∀ err, respond env (calls b) call = Rejected err →
              isMissingThreadError err = false) →
      calls b' = calls b ++ [call] ∧ visitors b' = visitors b
      ∧ errors b'
        = errors b ++ match respond env (calls b) call with
                      | Rejected err => [(label, err)]
                      | Resolved _ => []
                      end
  end.
Proof.
  intros Hb Hg Hc. cbv zeta. unfold sendToTopic. rewrite Hb, Hg.
  unfold cachedTopic in Hc. unfold Db.getVisitor. rewrite Hc.
  rewrite (TelegramFacts.truthyNum_idem _ _ Hc).
  rewrite (TelegramFacts.sendToTopicId_call env content type fileUrl topic b group)
    by done.
  destruct (sendCallOf env content type fileUrl group topic) as [error|call] eqn:Hcall.
  - by rewrite (sendCallOf_error _ _ _ Hcall).
  - intros Hnot. destruct (respond env (calls b) call) as [v|err] eqn:Hr.
    + cbn. by rewrite app_nil_r.
    + by rewrite (Hnot err eq_refl).
Qed.

End Message.

Lemma sendTyping_cases visitorId b :
  let b' := sendTypingToTopic env visitorId b in
  errors b' = errors b ∧ bot b' = bot b ∧ groupId b' = groupId b
  ∧ ((calls b' = calls b ∧ visitors b' = visitors b)
     ∨ ∃ group topic,
         bot b = true ∧ truthyNum (groupId b) = Some group
         ∧ truthyNum (cachedTopic visitorId b) = Some topic
         ∧ calls b' = calls b ++ [SendChatAction group "typing" topic]
         ∧ visitors b'
           = match respond env (calls b) (SendChatAction group "typing" topic) with
             | Rejected err =>
                 if isMissingThreadError err
                 then Db.setTopicId None visitorId (visitors b)
                 else visitors b
             | Resolved _ => visitors b
             end).
Proof.
  cbv zeta. unfold sendTypingToTopic.
  destruct (bot b) eqn:Hb; [|by split_and!; try done; left].
  destruct (truthyNum (groupId b)) as [group|] eqn:Hg;
    [|by split_and!; try done; left].
  destruct (truthyNum (Db.getVisitor visitorId (visitors b) ≫= Db.telegram_topic_id))
    as [topic|] eqn:Hc; [|by split_and!; try done; left].
  unfold callBot.
  destruct (respond env (calls b) (SendChatAction group "typing" topic)) as [v|err] eqn:Hr.
  - cbn. split_and!; try done. right. exists group, topic. by rewrite Hr.
  - destruct (isMissingThreadError err) eqn:Hm; cbn; split_and!; try done;
      right; exists group, topic; by rewrite Hr, Hm.
Qed.


End WithEnv.

(** X21.  What the bridge asks of the remote platform for one message.
    [sendToTopic] only adds to the calls made; it creates at most two
    threads and sends at most twice; a bridge that is not configured makes
    no call; every call goes to the configured group, a text call carries
    the content, and a photo or document call carries a path that exists
    and lies under the public directory, for a file URL without [..]. *)
Theorem bridge_calls_bounded env visitorId content type siteName fileUrl b :
  let b' := sendToTopic env visitorId content type siteName fileUrl b in
  ∃ new,
    calls b' = calls b ++ new
    ∧ (creations new ≤ 2)%nat ∧ (sends new ≤ 2)%nat
    ∧ ∀ c, c ∈ new →
        bot b = true
        ∧ ∃ group, truthyNum (groupId b) = Some group
                   ∧ bridgeCall env group content type fileUrl c.
Proof.
  cbv zeta.
  destruct (sendToTopic_steps env content type fileUrl visitorId siteName b)
    as (new & (_ & _ & Hcalls) & Hc & Hs & Hall).
  by exists new.
Qed.

(** X22.  A visitor keeps the thread.  With the bridge configured and a
    thread cached for the visitor, a message whose media path is refused is
    not sent and the refusal is logged; otherwise, unless the platform
    reports the thread missing, exactly the one call for the cached thread
    is made and no thread is created.  The cached thread stays in both
    cases, and a rejection is logged. *)
Theorem cached_thread_reused env visitorId content type siteName fileUrl b group topic :
  bot b = true → truthyNum (groupId b) = Some group →
  truthyNum (cachedTopic visitorId b) = Some topic →
  let label := "[Telegram] Error sending to topic:" in
  let b' := sendToTopic env visitorId content type siteName fileUrl b in
  match sendCallOf env content type fileUrl group topic with
  | inl error =>
      calls b' = calls b ∧ visitors b' = visitors b
      ∧ errors b' = errors b ++ [(label, error)]
  | inr call =>
      (∀ err, respond env (calls b) call = Rejected err →
              isMissingThreadError err = false) →
      calls b' = calls b ++ [call] ∧ visitors b' = visitors b
      ∧ errors b'
        = errors b ++ match respond env (calls b) call with
                      | Rejected err => [(label, err)]
                      | Resolved _ => []
                      end
  end.
Proof.
  apply sendToTopic_cached.
Qed.

Lemma cached_thread_reused_witness :
  let b := Demo.bridge (Some 8) in
  let sent := sendToTopic Demo.botEnv "anon-1" "hi" Db.text "shop.example" None b in
  let refused := sendToTopic Demo.botEnv "anon-1" "x" Db.image "shop.example"
                   (Some "/uploads/../../etc/passwd") b in
  (calls sent = [SendMessage (-1001) "hi" 8] ∧ visitors sent = visitors b)
  ∧ (calls refused = [] ∧ visitors refused = visitors b
     ∧ errors refused = [("[Telegram] Error sending to topic:",
                          mkError "Invalid media path")]).
Proof.
  cbv zeta. split.
  - pose proof (cached_thread_reused Demo.botEnv "anon-1" "hi" Db.text "shop.example"
                  None (Demo.bridge (Some 8)) (-1001) 8 eq_refl eq_refl eq_refl) as H.
    cbv zeta in H.
    change (sendCallOf Demo.botEnv "hi" Db.text None (-1001) 8)
      with (@inr JsVal BotCall (SendMessage (-1001) "hi" 8)) in H.
    destruct H as (H1 & H2 & _); [|by split].
    intros err Hr. vm_compute in Hr. discriminate.
  - pose proof (cached_thread_reused Demo.botEnv "anon-1" "x" Db.image "shop.example"
                  (Some "/uploads/../../etc/passwd") (Demo.bridge (Some 8)) (-1001) 8
                  eq_refl eq_refl eq_refl) as H.
    cbv zeta in H.
    change (sendCallOf Demo.botEnv "x" Db.image (Some "/uploads/../../etc/passwd")
              (-1001) 8)
      with (@inl JsVal BotCall (mkError "Invalid media path")) in H.
    exact H.
Defined.

(** X23.  The typing signal never creates a thread.  [sendTypingToTopic]
    logs nothing and makes at most one call, the chat action for the thread
    cached for the visitor; without a cached thread, or with the bridge not
    configured, it does nothing; the cached thread is cleared exactly when
    the platform rejects the call because the thread is missing. *)
Theorem typing_signal_calls env visitorId b :
  let b' := sendTypingToTopic env visitorId b in
  errors b' = errors b ∧ bot b' = bot b ∧ groupId b' = groupId b
  ∧ ((calls b' = calls b ∧ visitors b' = visitors b)
     ∨ ∃ group topic,
         bot b = true ∧ truthyNum (groupId b) = Some group
         ∧ truthyNum (cachedTopic visitorId b) = Some topic
         ∧ calls b' = calls b ++ [SendChatAction group "typing" topic]
         ∧ visitors b'
           = match respond env (calls b) (SendChatAction group "typing" topic) with
             | Rejected err =>
                 if isMissingThreadError err
                 then Db.setTopicId None visitorId (visitors b)
                 else visitors b
             | Resolved _ => visitors b
             end).
Proof.
  apply sendTyping_cases.
Qed.

End TelegramMore.

(** ** Support presence *)

Module SupportFacts.
Import Js Support.

Lemma presence_round_trip state settings :
  Db.getSupportPresenceState (setSupportPresenceState state settings) = state.
Proof.
  unfold Db.getSupportPresenceState, setSupportPresenceState.
  rewrite lookup_insert_eq. by destruct state.
Qed.

Lemma isSpace_lowerChar c : isSpace (lowerChar c) = isSpace c.
Proof.
  destruct c as [[] [] [] [] [] [] [] []]; reflexivity.
Qed.

Lemma at_lowerChar c : Ascii.eqb (lowerChar c) "@" = Ascii.eqb c "@".
Proof.
  destruct c as [[] [] [] [] [] [] [] []]; reflexivity.
Qed.

Lemma firstWord_trimEnd s : firstWord (trimEnd s) = firstWord s.
Proof.
  induction s as [|c rest IH]; [done|]. cbn [trimEnd firstWord].
  destruct (trimEnd rest) as [|k kept] eqn:Hk.
  - cbn [firstWord] in IH. destruct (isSpace c) eqn:Hc; [done|].
    cbn [firstWord]. by rewrite Hc, <- IH.
  - cbn [firstWord]. destruct (isSpace c); [done|]. by rewrite <- IH.
Qed.

Lemma append_cons x (a b : string) : String x a +:+ b = String x (a +:+ b).
Proof. reflexivity. Qed.

Lemma append_assoc (a b c : string) : (a +:+ b) +:+ c = a +:+ b +:+ c.
Proof. induction a as [|x a IH]; [done|]. by rewrite !append_cons, IH. Qed.

Lemma append_nil_r (a : string) : a +:+ "" = a.
Proof. induction a as [|x a IH]; [done|]. by rewrite append_cons, IH. Qed.

Lemma toLowerCase_app a b : toLowerCase (a +:+ b) = toLowerCase a +:+ toLowerCase b.
Proof.
  induction a as [|x a IH]; [done|].
  rewrite append_cons. cbn [toLowerCase]. by rewrite append_cons, IH.
Qed.

Lemma noSpace_app a b : noSpace (a +:+ b) = noSpace a && noSpace b.
Proof.
  induction a as [|x a IH]; [done|].
  rewrite append_cons. cbn [noSpace]. rewrite IH. by rewrite andb_assoc.
Qed.

Lemma trimStart_lead lead s :
  allSpace lead = true → wordEnd s = false → trimStart (lead +:+ s) = s.
Proof.
  intros Hl Hs. induction lead as [|c lead IH].
  - change ("" +:+ s) with s. destruct s as [|x s]; [done|]. cbn in *. by rewrite Hs.
  - rewrite append_cons. cbn [allSpace trimStart] in *.
    apply andb_true_iff in Hl as [-> Hl]. by apply IH.
Qed.

Lemma firstWord_word w tail :
  noSpace w = true → wordEnd tail = true → firstWord (w +:+ tail) = w.
Proof.
  intros Hw Ht. induction w as [|c w IH].
  - change ("" +:+ tail) with tail. destruct tail as [|x tail]; [done|].
    cbn in *. by rewrite Ht.
  - rewrite append_cons. cbn [noSpace firstWord] in *.
    apply andb_true_iff in Hw as [Hc Hw].
    apply negb_true_iff in Hc. rewrite Hc. by rewrite IH.
Qed.

Lemma stripMention_word cmd rest :
  noAt cmd = true →
  stripMention (toLowerCase cmd +:+ rest) = toLowerCase cmd +:+ stripMention rest.
Proof.
  intros Hc. induction cmd as [|c cmd IH]; [done|].
  cbn [noAt toLowerCase] in *. rewrite !append_cons. cbn [stripMention].
  apply andb_true_iff in Hc as [Hat Hc].
  apply negb_true_iff in Hat. rewrite at_lowerChar, Hat. by rewrite IH.
Qed.

(** What the handler does, case by case. *)
Lemma handleSupportCommand_cases pf bot groupId hook delivered msg nowMs settings :
  let r := handleSupportCommand pf bot groupId hook delivered msg nowMs settings in
  (snd (fst r) = settings ∧ ∀ state updatedAt, PresenceChanged state updatedAt ∉ snd r)
  ∨ ∃ group state command,
      bot = true ∧ Telegram.truthyNum groupId = Some group
      ∧ from_is_bot msg = false ∧ chat_id msg = group
      ∧ text msg = Some command
      ∧ normalizeCommand command = commandOf state
      ∧ snd (fst r) = setSupportPresenceState state settings
      ∧ fst (fst r) = (if delivered then Returned true else Thrown)
      ∧ snd r
        = (if hook then [PresenceChanged state (toISOString pf nowMs)] else [])
          ++ [Reply group ("Support presence set to: " +:+ Gateway.presenceName state)
                (message_thread_id msg)].
Proof.
  cbv zeta. unfold handleSupportCommand.
  destruct bot; [|by left; split; [|intros ?? ?%elem_of_nil]].
  destruct (Telegram.truthyNum groupId) as [group|] eqn:Hg;
    [|by left; split; [|intros ?? ?%elem_of_nil]].
  destruct (from_is_bot msg) eqn:Hbot; [by left; split; [|intros ?? ?%elem_of_nil]|].
  destruct (chat_id msg =? group) eqn:Hchat; cbn [negb];
    [|by left; split; [|intros ?? ?%elem_of_nil]].
  destruct (text msg) as [command|] eqn:Ht; [|by left; split; [|intros ?? ?%elem_of_nil]].
  destruct (startsWith _ _); cbn [negb]; [|by left; split; [|intros ?? ?%elem_of_nil]].
  destruct (String.eqb (normalizeCommand command) "/support_status").
  { left. cbn. split; [done|]. by intros ?? [=]%list_elem_of_singleton. }
  unfold normalizePresenceCommandState.
  destruct (String.eqb (normalizeCommand command) "/support_online") eqn:Hon.
  { right. exists group, Db.online, command. apply String.eqb_eq in Hon.
    apply Z.eqb_eq in Hchat. by split_and!. }
  destruct (String.eqb (normalizeCommand command) "/support_offline") eqn:Hoff.
  { right. exists group, Db.offline, command. apply String.eqb_eq in Hoff.
    apply Z.eqb_eq in Hchat. by split_and!. }
  left. cbn. split; [done|]. by intros ?? [=]%list_elem_of_singleton.
Qed.

(** X24.  The presence of the support team changes by command only.  The
    command handler either leaves the settings as they are and does not
    call the presence hook, or the bridge is configured, the message is
    from a member of the configured group who is not a bot, its text
    normalises to the command of a state, the setting then reads as that
    state, the other settings are as they were, and the handler ends with
    the reply that names the state. *)
Theorem presence_changes_by_command pf bot groupId hook delivered msg nowMs settings :
  let r := handleSupportCommand pf bot groupId hook delivered msg nowMs settings in
  (snd (fst r) = settings ∧ ∀ state updatedAt, PresenceChanged state updatedAt ∉ snd r)
  ∨ ∃ group state command,
      bot = true ∧ Telegram.truthyNum groupId = Some group
      ∧ from_is_bot msg = false ∧ chat_id msg = group
      ∧ text msg = Some command
      ∧ normalizeCommand command = commandOf state
      ∧ Db.getSupportPresenceState (snd (fst r)) = state
      ∧ (∀ key, key ≠ Db.SUPPORT_PRESENCE_SETTING_KEY →
           snd (fst r) !! key = settings !! key)
      ∧ last (snd r)
        = Some (Reply group ("Support presence set to: " +:+ Gateway.presenceName state)
                  (message_thread_id msg)).
Proof.
  cbv zeta.
  destruct (handleSupportCommand_cases pf bot groupId hook delivered msg nowMs settings)
    as [H|(group & state & command & Hb & Hg & Hf & Hc & Ht & Hn & Hs & _ & Hout)];
    [by left|].
  right. exists group, state, command. rewrite Hs, Hout.
  split_and!; try done.
  - apply presence_round_trip.
  - intros key Hne. unfold setSupportPresenceState. by rewrite lookup_insert_ne.
  - by rewrite last_snoc.
Qed.

(** X25.  How a command is read.  The command of a message is its first
    word, in lower case, without the mention of a bot: blanks before the
    word, the case of its letters, a mention after it and whatever follows
    the word do not matter. *)
Theorem normalizeCommand_reads_first_word lead cmd mention tail :
  allSpace lead = true → noSpace cmd = true → noAt cmd = true → cmd ≠ "" →
  noSpace mention = true → wordEnd tail = true →
  normalizeCommand
    (lead +:+ cmd +:+ (if String.eqb mention "" then "" else "@" +:+ mention) +:+ tail)
  = toLowerCase cmd.
Proof.
  intros Hlead Hcmd Hat Hne Hm Htail. unfold normalizeCommand, trim.
  set (m := if String.eqb mention "" then "" else "@" +:+ mention).
  assert (noSpace m = true) as Hms.
  { unfold m. destruct (String.eqb mention ""); [done|].
    change ("@" +:+ mention) with (String "@" mention). cbn [noSpace].
    by rewrite Hm. }
  rewrite <- (append_assoc cmd m tail).
  rewrite trimStart_lead; [|done|].
  2:{ destruct cmd as [|c cmd]; [done|]. cbn in *.
      apply andb_true_iff in Hcmd as [Hc _]. by apply negb_true_iff in Hc. }
  rewrite firstWord_trimEnd.
  rewrite firstWord_word; [|by rewrite noSpace_app, Hcmd, Hms|done].
  rewrite toLowerCase_app, stripMention_word by done.
  unfold m. destruct (String.eqb mention "") eqn:He.
  - apply append_nil_r.
  - destruct mention as [|x mention]; [done|].
    change ("@" +:+ String x mention) with (String "@" (String x mention)).
    cbn [toLowerCase stripMention]. rewrite at_lowerChar.
    change (Ascii.eqb "@" "@") with true. cbn iota. apply append_nil_r.
Qed.

Lemma normalizeCommand_reads_first_word_witness :
  normalizeCommand "  /Support_OFFLINE@HelpDeskBot until noon" = "/support_offline".
Proof.
  apply (normalizeCommand_reads_first_word "  " "/Support_OFFLINE" "HelpDeskBot"
           " until noon"); try reflexivity.
  discriminate.
Defined.

End SupportFacts.

(** ** Anonymous tokens *)

Module AnonymousFacts.
Import Js Gateway Anonymous.

Lemma takeChars_length n s : (String.length (takeChars n s) ≤ n)%nat.
Proof.
  revert s. induction n as [|n IH]; intros [|c s]; cbn; try lia.
  specialize (IH s). lia.
Qed.

Lemma isAnonVisitorId_prefix s : isAnonVisitorId s = true → startsWith s "anon-" = true.
Proof.
  unfold isAnonVisitorId, startsWith. by destruct (String.prefix "anon-" s).
Qed.

Lemma anonymousSubject_cases body uuid :
  let sub := anonymousSubject body uuid in
  startsWith sub "anon-" = true
  ∧ (sub = "anon-" +:+ uuid
     ∨ ∃ given, asString (prop body "visitorId") = Some given
         ∧ sub = trim given ∧ isAnonVisitorId sub = true).
Proof.
  cbv zeta. unfold anonymousSubject.
  assert (startsWith ("anon-" +:+ uuid) "anon-" = true) as Hfresh
    by (destruct uuid; reflexivity).
  destruct (asString (prop body "visitorId")) as [given|];
    [|split; [exact Hfresh|by left]].
  destruct (negb _ && isAnonVisitorId (trim given)) eqn:Hm;
    [|split; [exact Hfresh|by left]].
  apply andb_true_iff in Hm as [_ Hm]. split; [by apply isAnonVisitorId_prefix|].
  right. by exists given.
Qed.

Lemma field_app name fields extra v :
  field name fields = Some v → field name (fields ++ extra) = Some v.
Proof.
  induction fields as [|[k x] fields IH]; [done|]. cbn.
  destruct (String.eqb k name); [done|]. apply IH.
Qed.

(** X26.  What the anonymous route hands out.  A request is refused with
    403, 429 or 400, and a request whose Origin is not on the allow list
    does not touch the rate-limit table.  A token is only handed out for an
    allowed Origin, after the limiter has accepted the address; it lives
    900 seconds; its subject starts with [anon-] and is the well-formed id
    the client sent or a fresh one; an email it carries has at most 254
    characters and a mail domain with MX records, a name at most 100
    characters, and a required email is there.  Whatever claims are added
    to the payload when it is signed, the server reads the decoded payload
    as the claims of an anonymous visitor with that subject. *)
Theorem anonymous_token_claims pf cfg iss emailRequired origin ip body nowMs rl :
  let r := anonymousRoute pf cfg iss emailRequired origin ip body nowMs rl in
  match fst r with
  | Refused status _ =>
      (status = 403 ∨ status = 429 ∨ status = 400)
      ∧ (status = 403 → snd r = rl)
  | Token token visitorId expiresIn =>
      ∃ host email name,
        orNull (Session.originHost pf origin) = Some host
        ∧ host ∈ Session.allowedOriginHosts pf cfg
        ∧ fst (RateLimiter.checkRateLimitKeys ["anon-token:ip:" +:+ ip] nowMs rl)
          = true
        ∧ expiresIn = ANON_TOKEN_TTL_SECONDS
        ∧ startsWith visitorId "anon-" = true
        ∧ (visitorId = "anon-" +:+ uuidForSub iss
           ∨ ∃ given, asString (prop body "visitorId") = Some given
               ∧ visitorId = trim given ∧ isAnonVisitorId visitorId = true)
        ∧ token = jwt_sign iss
                    (JObj (anonymousPayload visitorId (uuidForJti iss) host origin
                             email name))
        ∧ (∀ e, email = Some e →
             (String.length e ≤ 254)%nat
             ∧ (e ≠ "" → ∃ n, resolveMx iss (domainOf e) = Some (S n)))
        ∧ (∀ n, name = Some n → (String.length n ≤ 100)%nat)
        ∧ (emailRequired = true → ∃ e, email = Some e ∧ e ≠ "")
        ∧ ∀ extra claims,
            Session.isTokenClaims
              (JObj (anonymousPayload visitorId (uuidForJti iss) host origin
                       email name ++ extra)) = Some claims →
            isAnonClaims claims = true
            ∧ authTypeFromClaims claims = Db.anonymous
            ∧ TokenClaims.sub claims = visitorId
            ∧ TokenClaims.jti claims = uuidForJti iss
  end.
Proof.
  cbv zeta. unfold anonymousRoute.
  destruct (orNull (Session.originHost pf origin)) as [host|] eqn:Hh;
    [|by cbn; split; [left|]].
  case_bool_decide as Hallow; cbn [negb]; [|by cbn; split; [left|]].
  destruct (RateLimiter.checkRateLimitKeys _ nowMs rl) as [[] rl'] eqn:Hrl;
    [|by cbn; split; [right; left|]].
  set (email := match asString (prop body "email") with
                | Some e => if includes e "@" then Some (takeChars 254 (trim e)) else None
                | None => None
                end).
  set (name := match asString (prop body "name") with
               | Some n => Some (takeChars 100 (trim n))
               | None => None
               end).
  destruct (emailRequired && negb (truthy email)) eqn:Hreq;
    [by cbn; split; [right; right|]|].
  assert (match fst (Token
            (jwt_sign iss (JObj (anonymousPayload
               (anonymousSubject body (uuidForSub iss)) (uuidForJti iss) host origin
               email name)))
            (anonymousSubject body (uuidForSub iss)) ANON_TOKEN_TTL_SECONDS, rl') with
          | Refused _ _ => True
          | Token token visitorId expiresIn =>
              (∀ e, email = Some e → e ≠ "" →
                 ∃ n, resolveMx iss (domainOf e) = Some (S n)) →
              ∃ host0 email0 name0,
                Some host = Some host0
                ∧ host0 ∈ Session.allowedOriginHosts pf cfg
                ∧ fst (true, rl') = true
                ∧ expiresIn = ANON_TOKEN_TTL_SECONDS
                ∧ startsWith visitorId "anon-" = true
                ∧ (visitorId = "anon-" +:+ uuidForSub iss
                   ∨ ∃ given, asString (prop body "visitorId") = Some given
                       ∧ visitorId = trim given ∧ isAnonVisitorId visitorId = true)
                ∧ token = jwt_sign iss
                            (JObj (anonymousPayload visitorId (uuidForJti iss) host0
                                     origin email0 name0))
                ∧ (∀ e, email0 = Some e →
                     (String.length e ≤ 254)%nat
                     ∧ (e ≠ "" → ∃ n, resolveMx iss (domainOf e) = Some (S n)))
                ∧ (∀ n, name0 = Some n → (String.length n ≤ 100)%nat)
                ∧ (emailRequired = true → ∃ e, email0 = Some e ∧ e ≠ "")
                ∧ ∀ extra claims,
                    Session.isTokenClaims
                      (JObj (anonymousPayload visitorId (uuidForJti iss) host0 origin
                               email0 name0 ++ extra)) = Some claims →
                    isAnonClaims claims = true
                    ∧ authTypeFromClaims claims = Db.anonymous
                    ∧ TokenClaims.sub claims = visitorId
                    ∧ TokenClaims.jti claims = uuidForJti iss
          end) as Hsign.
  { cbn [fst]. intros Hmx.
    destruct (anonymousSubject_cases body (uuidForSub iss)) as [Hpre Hsub].
    exists host, email, name. split_and!; try done.
    - intros e He. split; [|by apply Hmx].
      unfold email in He. destruct (asString (prop body "email")) as [e0|]; [|done].
      destruct (includes e0 "@"); [|done].
      assert (e = takeChars 254 (trim e0)) as -> by congruence.
      apply takeChars_length.
    - intros n Hn. unfold name in Hn.
      destruct (asString (prop body "name")) as [n0|]; [|done].
      assert (n = takeChars 100 (trim n0)) as -> by congruence.
      apply takeChars_length.
    - intros ->. cbn [andb] in Hreq. apply negb_false_iff in Hreq.
      destruct email as [e|]; [|done]. exists e. split; [done|].
      intros ->. done.
    - intros extra claims Hclaims. unfold Session.isTokenClaims in Hclaims.
      unfold anonymousPayload in Hclaims.
      cbn [app field String.eqb Ascii.eqb Bool.eqb asString] in Hclaims.
      destruct (asNumber _) as [exp|]; [|done]. injection Hclaims as <-.
      unfold authTypeFromClaims, isAnonClaims. cbn. done. }
  cbn [fst snd] in Hsign.
  destruct (orNull email) as [e|] eqn:He.
  - apply SessionFacts.orNull_Some in He as (He & _ & Hne).
    destruct (resolveMx iss (domainOf e)) as [[|n]|] eqn:Hmx;
      [by cbn; split; [right; right|]| |by cbn; split; [right; right|]].
    cbn [fst]. apply Hsign. intros e' He' _. rewrite He in He'. injection He' as <-.
    by exists n.
  - cbn [fst]. apply Hsign. intros e' He' Hne'. exfalso.
    rewrite He' in He. unfold orNull, truthy in He.
    apply String.eqb_neq in Hne'. by rewrite Hne' in He.
Qed.

End AnonymousFacts.

(** ** Widget: reconnection *)

From Stdlib Require Lqa.

Module WidgetFacts.
Import QArith Qminmax Lqa Widget.
Local Open Scope Q_scope.

Lemma bump_inRange d : inRange d → inRange (Qmin (d * (3 # 2)) 30000).
Proof.
  unfold inRange. intros [Hlo Hhi].
  destruct (Q.min_spec (d * (3 # 2)) 30000) as [[Hlt Heq]|[Hle Heq]];
    rewrite Heq; split; lra.
Qed.

Lemma handle_inRange r ev :
  inRange (reconnectDelay r) →
  inRange (reconnectDelay (fst (handle r ev)))
  ∧ ∀ d, In (SetTimeout d) (snd (handle r ev)) → inRange d.
Proof.
  intros Hr. destruct ev; cbn [handle].
  - split; [|by intros d []]. cbn. unfold inRange. split; lra.
  - unfold scheduleReconnect. destruct (reconnectTimer r); cbn.
    + split; [done|]. by intros d [].
    + split; [done|]. intros d [[= <-]|[]]. done.
  - destruct (reconnectTimer r); cbn.
    + split; [by apply bump_inRange|]. intros d [[=]|[]].
    + split; [done|]. by intros d [].
Qed.

Lemma handleAll_inRange evs r :
  inRange (reconnectDelay r) →
  inRange (reconnectDelay (fst (handleAll r evs)))
  ∧ ∀ d, In (SetTimeout d) (snd (handleAll r evs)) → inRange d.
Proof.
  revert r. induction evs as [|ev evs IH]; intros r Hr.
  { cbn. split; [done|]. by intros d []. }
  cbn [handleAll]. destruct (handle_inRange r ev Hr) as [H1 Hout1].
  destruct (handle r ev) as [r1 out1]. cbn [fst snd] in *.
  destruct (IH r1 H1) as [H2 Hout2].
  destruct (handleAll r1 evs) as [r2 out2]. cbn [fst snd] in *.
  split; [done|]. intros d [Hin|Hin]%in_app_or; [by apply Hout1|by apply Hout2].
Qed.

Lemma failures_schedule n k :
  handleAll (mkReconnect false (backoff k)) (failures n)
  = (mkReconnect false (backoff (k + n)),
     flat_map (fun j => [SetTimeout (backoff j); ConnectWS]) (seq k n)).
Proof.
  revert k. induction n as [|n IH]; intros k.
  { cbn. by rewrite Nat.add_0_r. }
  cbn [failures handleAll handle scheduleReconnect onReconnectTimer reconnectTimer
       reconnectDelay].
  change (Qmin (backoff k * (3 # 2)) 30000) with (backoff (S k)).
  rewrite IH. cbn [seq flat_map app]. by rewrite Nat.add_succ_r.
Qed.

Lemma backoff_inRange n : inRange (backoff n).
Proof.
  induction n as [|n IH]; [unfold inRange; cbn; split; lra|].
  cbn [backoff]. by apply bump_inRange.
Qed.

Lemma backoff_cap n : (9 <= n)%nat → backoff n == 30000.
Proof.
  intros Hn. assert (30000 <= backoff n) as Hlo.
  { induction Hn as [|n Hn IH].
    - unfold Qle. vm_compute. discriminate.
    - cbn [backoff].
      destruct (Q.min_spec (backoff n * (3 # 2)) 30000) as [[? Heq]|[? Heq]];
        rewrite Heq; lra. }
  destruct (backoff_inRange n) as [_ Hhi]. lra.
Qed.

(** X27.  The widget backs off when it reconnects.  Whatever happens to
    the connection, the delay of the widget stays between one and thirty
    seconds, and so does every wait it schedules.  While the connection
    keeps failing, the waits are 1 s, 1.5 s, 2.25 s and so on, each one and
    a half times the one before, and thirty seconds from the tenth wait
    on. *)
Theorem reconnect_backoff :
  (∀ evs,
     inRange (reconnectDelay (fst (handleAll start evs)))
     ∧ ∀ d, In (SetTimeout d) (snd (handleAll start evs)) → inRange d)
  ∧ (∀ n, snd (handleAll start (failures n))
          = flat_map (fun j => [SetTimeout (backoff j); ConnectWS]) (seq 0 n))
  ∧ backoff 0 == 1000 ∧ backoff 1 == 1500 ∧ backoff 2 == 2250
  ∧ (∀ n m, (n <= m)%nat → backoff n <= backoff m)
  ∧ ∀ n, (9 <= n)%nat → backoff n == 30000.
Proof.
  split.
  { intros evs. apply handleAll_inRange. unfold inRange, start. cbn. split; lra. }
  split.
  { intros n. change start with (mkReconnect false (backoff 0)).
    by rewrite failures_schedule. }
  split; [reflexivity|]. split; [reflexivity|]. split; [reflexivity|].
  split; [|apply backoff_cap].
  intros n m Hnm. induction Hnm as [|m Hnm IH]; [lra|].
  cbn [backoff]. destruct (backoff_inRange m) as [Hlo Hhi].
  destruct (Q.min_spec (backoff m * (3 # 2)) 30000) as [[? Heq]|[? Heq]];
    rewrite Heq; lra.
Qed.

End WidgetFacts.

(** ** The upload route *)

Module UploadFacts.
Import Js Gateway GatewaySpec Upload.

Lemma sniffExt_ext buffer ext :
  sniffExt buffer = Some ext →
  (ext = ".jpg" ∧ byteIs buffer 0 Init.Byte.xff = true
                ∧ byteIs buffer 1 Init.Byte.xd8 = true)
  ∨ (ext = ".png" ∧ byteIs buffer 0 Init.Byte.x89 = true
                  ∧ byteIs buffer 1 Init.Byte.x50 = true)
  ∨ (ext = ".gif" ∧ byteIs buffer 0 Init.Byte.x47 = true
                  ∧ byteIs buffer 1 Init.Byte.x49 = true)
  ∨ (ext = ".webp" ∧ (12 ≤ length buffer)%nat
       ∧ byteIs buffer 0 Init.Byte.x52 = true ∧ byteIs buffer 8 Init.Byte.x57 = true).
Proof.
  unfold sniffExt.
  destruct (byteIs buffer 0 Init.Byte.xff && _) eqn:Hjpg.
  { intros [= <-]. left. by apply andb_true_iff in Hjpg as [? ?]. }
  destruct (byteIs buffer 0 Init.Byte.x89 && _) eqn:Hpng.
  { intros [= <-]. right. left. by apply andb_true_iff in Hpng as [? ?]. }
  destruct (byteIs buffer 0 Init.Byte.x47 && _) eqn:Hgif.
  { intros [= <-]. right. right. left. by apply andb_true_iff in Hgif as [? ?]. }
  destruct (_ && byteIs buffer 11 Init.Byte.x50) eqn:Hwebp; [|done].
  intros [= <-]. right. right. right.
  repeat (apply andb_true_iff in Hwebp as [Hwebp ?]).
  apply Nat.leb_le in Hwebp. done.
Qed.

(** X28.  What the upload route stores.  A refusal stores no message,
    writes no file and has no effect outside, and keeps what the rows of
    visitors know.  A success means the token is valid, the path parameter
    is its subject, the limiter has accepted the keys of the claims and the
    address, and the body starts with the signature of a JPEG, PNG, GIF or
    WebP file and has no SVG or XML marker in its first 256 bytes; the file
    is written under the upload directory with a name made of the clock
    reading, a fresh id and the extension of the signature (a GIF exactly
    as sent); exactly one image row is appended for the subject, whose
    visitor has its row, with the URL of the file as content; and the last
    effect hands that URL to the bridge. *)
Theorem upload_admission pf cfg env authorization origin ip visitorIdParam body nowMs w :
  let r := uploadRoute pf cfg env authorization origin ip visitorIdParam body nowMs w in
  let w' := snd (fst r) in
  match fst (fst r) with
  | Refused _ _ =>
      messages w' = messages w ∧ snd r = []
      ∧ rowsKept (visitors w) (visitors w')
  | Stored _ =>
      ∃ claims buffer ext m site data,
        fst (Http.requireAuth pf cfg authorization origin nowMs (tokenSessions w))
        = Some claims
        ∧ visitorIdParam = TokenClaims.sub claims
        ∧ fst (RateLimiter.checkRateLimitKeys (rateLimitKeys pf claims ip) nowMs
                 (rateLimits w)) = true
        ∧ body = Some buffer ∧ sniffExt buffer = Some ext
        ∧ ext ∈ [".jpg"; ".png"; ".gif"; ".webp"]
        ∧ looksLikeMarkup buffer = false
        ∧ (ext = ".gif" → data = buffer)
        ∧ let filename := showZ nowMs +:+ "-" +:+ uuid env +:+ ext in
          let fileUrl := "/uploads/" +:+ filename in
          head (snd r) = Some (WriteFile (path_join env (uploadsDir env) filename) data)
          ∧ messages w' = messages w ++ [m]
          ∧ visitorImageRow visitorIdParam fileUrl m
          ∧ is_Some (visitors w' !! visitorIdParam)
          ∧ rowsKept (visitors w) (visitors w')
          ∧ last (snd r)
            = Some (Out (SendToTopic visitorIdParam fileUrl Db.image site
                           (Some fileUrl)))
  end.
Proof.
  cbv zeta. unfold uploadRoute.
  destruct (Http.requireAuth pf cfg authorization origin nowMs (tokenSessions w))
    as [[claims|] db] eqn:Hauth.
  2:{ cbn. split; [done|]. split; [done|]. apply GatewayClose.rowsKept_refl. }
  unfold Http.resolveVisitorId.
  destruct (String.eqb (TokenClaims.sub claims) "");
    [cbn; split; [done|]; split; [done|]; apply GatewayClose.rowsKept_refl|].
  destruct (String.eqb visitorIdParam "");
    [cbn; split; [done|]; split; [done|]; apply GatewayClose.rowsKept_refl|].
  destruct (String.eqb visitorIdParam (TokenClaims.sub claims)) eqn:Hp; cbn [negb];
    [|cbn; split; [done|]; split; [done|]; apply GatewayClose.rowsKept_refl].
  apply String.eqb_eq in Hp. subst visitorIdParam.
  cbn [Routes.withTokenSessions visitors rateLimits messages tokenSessions settings
       clients typingThrottle openSockets].
  set (visitors1 := match Db.getVisitor (TokenClaims.sub claims) (visitors w) with
                    | Some _ => visitors w
                    | None => Db.upsertVisitor _ _ _ _ _ _ (visitors w)
                    end).
  assert (rowsKept (visitors w) visitors1) as Hkept.
  { unfold visitors1. destruct (Db.getVisitor _ _);
      [apply GatewayClose.rowsKept_refl|apply GatewayClose.upsertVisitor_rowsKept]. }
  assert (is_Some (visitors1 !! TokenClaims.sub claims)) as Hrow.
  { unfold visitors1, Db.getVisitor.
    destruct (visitors w !! TokenClaims.sub claims) eqn:Hv;
      [by rewrite Hv|apply GatewayMore.upsertVisitor_row]. }
  destruct (RateLimiter.checkRateLimitKeys _ nowMs (rateLimits w)) as [[] rl] eqn:Hrl;
    cbn [negb]; [|by cbn].
  destruct body as [[|b0 buffer]|]; [by cbn| |by cbn].
  destruct (sniffExt (b0 :: buffer)) as [ext|] eqn:Hext; [|by cbn].
  destruct (looksLikeMarkup (b0 :: buffer)) eqn:Hmark; [by cbn|].
  unfold Db.addMessage.
  cbn [fst snd messages visitors tokenSessions settings rateLimits clients
       typingThrottle openSockets].
  eexists claims, (b0 :: buffer), ext, _, _,
    (if String.eqb ext ".gif" then b0 :: buffer
     else default (b0 :: buffer) (sharpRotate env (b0 :: buffer))).
  split; [done|]. split; [done|]. split; [by rewrite Hrl|].
  split; [done|]. split; [done|]. split.
  { destruct (sniffExt_ext _ _ Hext) as [[-> _]|[[-> _]|[[-> _]|[-> _]]]];
      set_solver. }
  split; [done|]. split.
  { intros ->. reflexivity. }
  split; [reflexivity|]. split; [done|]. split; [done|]. split; [done|].
  split; [done|].
  rewrite map_app. cbn [map].
  change (?x :: ?l ++ [?y]) with ((x :: l) ++ [y]). by rewrite last_snoc.
Qed.

End UploadFacts.
